(** * The Alignment Protocol: match orchestration core

    A shallow embedding of the game engine ([server/game/engine.js]),
    the proof-of-work module ([game/pow.js]), the WebSocket turn
    controller of the game server ([handleMove], [startTurnTimer],
    [handleTurnTimeout]) and the two matchmakers ([server/matchmaker.js]
    and the asynchronous Matchmaker v2).

    Modelling conventions.
    - A player's energy, the attack intensity sent by the client and the
      attack and defense powers are JS numbers of module [Num]: IEEE
      doubles (a finite double is the rational it denotes, plus the two
      infinities and NaN), and every arithmetic operation on them rounds
      its exact result to the nearest double, as JS does.  JS numbers that
      stay small integers (compute, population, defense, counts, turn,
      ratings, timestamps), on which JS arithmetic is exact, are [Z].
    - JS objects used as maps ([state.grid], [state.players],
      [activeMatches], [activeChallenges]) are association lists kept in
      insertion order, which is the iteration order of [Object.keys] and
      [Object.values] for non-numeric keys.
    - A mutating JS function becomes a function returning its result
      together with the new state.  A [TypeError] thrown by the source
      (dereferencing [undefined]) is an explicit outcome: [None], or
      [MoveCrash] and [Thrown] at the level of a whole move. *)

From Stdlib Require Import ZArith QArith Qround Qpower Qreduction Qabs String Ascii List Bool Lia.
Import ListNotations.
Open Scope string_scope.
Open Scope Z_scope.

(** ** Strings and numbers *)

Module Str.

(** Decimal rendering of an integer, as [String(n)] does for integers
    below 10^21 in magnitude. *)
Fixpoint digits (fuel : nat) (n : Z) (acc : string) : string :=
  match fuel with
  | O => acc
  | S f =>
      let acc' := String (ascii_of_nat (48 + Z.to_nat (Z.rem n 10))) acc in
      if n <? 10 then acc' else digits f (Z.quot n 10) acc'
  end.

Definition of_Z (z : Z) : string :=
  let fuel := S (Z.to_nat (Z.log2 (Z.abs z))) in
  if z <? 0 then "-" ++ digits fuel (- z) "" else digits fuel z "".

Definition bytes (s : string) : list Z :=
  map (fun c => Z.of_nat (nat_of_ascii c)) (list_ascii_of_string s).

(** [s.startsWith(t)] *)
Definition startsWith (s t : string) : bool := String.prefix t s.

(** ['0'.repeat(n)] *)
Definition repeat0 (n : Z) : string :=
  string_of_list_ascii (List.repeat "0"%char (Z.to_nat n)).

(** [s.slice(0, n)] for [n >= 0] *)
Definition slice0 (s : string) (n : nat) : string := substring 0 n s.

(** JavaScript white space for [String.prototype.trim] (ASCII part). *)
Definition is_ws (c : ascii) : bool :=
  let n := nat_of_ascii c in
  (n =? 32)%nat || (n =? 9)%nat || (n =? 10)%nat || (n =? 11)%nat
  || (n =? 12)%nat || (n =? 13)%nat.

Fixpoint drop_ws (l : list ascii) : list ascii :=
  match l with
  | c :: r => if is_ws c then drop_ws r else l
  | [] => []
  end.

(** [s.trim()] *)
Definition trim (s : string) : string :=
  string_of_list_ascii
    (rev (drop_ws (rev (drop_ws (list_ascii_of_string s))))).

End Str.

(** ** SHA-256 (the [crypto.createHash('sha256')] digest, in hex) *)

Module Sha256.

Definition M32 : Z := 2 ^ 32 - 1.
Definition add32 (x y : Z) : Z := Z.land (x + y) M32.
Definition rotr (x : Z) (n : Z) : Z :=
  Z.lor (Z.shiftr x n) (Z.land (Z.shiftl x (32 - n)) M32).

Definition ch (x y z : Z) : Z :=
  Z.lxor (Z.land x y) (Z.land (Z.lxor x M32) z).
Definition maj (x y z : Z) : Z :=
  Z.lxor (Z.lxor (Z.land x y) (Z.land x z)) (Z.land y z).
Definition bsig0 (x : Z) : Z := Z.lxor (Z.lxor (rotr x 2) (rotr x 13)) (rotr x 22).
Definition bsig1 (x : Z) : Z := Z.lxor (Z.lxor (rotr x 6) (rotr x 11)) (rotr x 25).
Definition ssig0 (x : Z) : Z := Z.lxor (Z.lxor (rotr x 7) (rotr x 18)) (Z.shiftr x 3).
Definition ssig1 (x : Z) : Z := Z.lxor (Z.lxor (rotr x 17) (rotr x 19)) (Z.shiftr x 10).

Definition K : list Z :=
  [ 1116352408; 1899447441; 3049323471; 3921009573; 961987163; 1508970993;
    2453635748; 2870763221; 3624381080; 310598401; 607225278; 1426881987;
    1925078388; 2162078206; 2614888103; 3248222580; 3835390401; 4022224774;
    264347078; 604807628; 770255983; 1249150122; 1555081692; 1996064986;
    2554220882; 2821834349; 2952996808; 3210313671; 3336571891; 3584528711;
    113926993; 338241895; 666307205; 773529912; 1294757372; 1396182291;
    1695183700; 1986661051; 2177026350; 2456956037; 2730485921; 2820302411;
    3259730800; 3345764771; 3516065817; 3600352804; 4094571909; 275423344;
    430227734; 506948616; 659060556; 883997877; 958139571; 1322822218;
    1537002063; 1747873779; 1955562222; 2024104815; 2227730452; 2361852424;
    2428436474; 2756734187; 3204031479; 3329325298 ].

Definition H0 : list Z :=
  [ 1779033703; 3144134277; 1013904242; 2773480762; 1359893119; 2600822924;
    528734635; 1541459225 ].

(** Message padding: a 1 bit, zeros up to 56 mod 64, the bit length as a
    64-bit big-endian integer. *)
Definition be_bytes (n : nat) (x : Z) : list Z :=
  map (fun i => Z.land (Z.shiftr x (8 * Z.of_nat (n - 1 - i))) 255) (seq 0 n).

Definition pad (m : list Z) : list Z :=
  let len := length m in
  let zeros := ((119 - len mod 64) mod 64)%nat in
  app m (128 :: app (List.repeat 0 zeros) (be_bytes 8 (8 * Z.of_nat len))).

Fixpoint words (bs : list Z) : list Z :=
  match bs with
  | a :: b :: c :: d :: r =>
      Z.lor (Z.shiftl a 24) (Z.lor (Z.shiftl b 16) (Z.lor (Z.shiftl c 8) d))
        :: words r
  | _ => []
  end.

Fixpoint blocks (fuel : nat) (ws : list Z) : list (list Z) :=
  match fuel with
  | O => []
  | S f =>
      match ws with
      | [] => []
      | _ => firstn 16 ws :: blocks f (skipn 16 ws)
      end
  end.

(** One round; [w] is the sliding window W[t..t+15] of the schedule. *)
Definition round (st : list Z) (w : list Z) (k : Z) : list Z * list Z :=
  match st, w with
  | [a; b; c; d; e; f; g; h], w0 :: _ =>
      let t1 := add32 (add32 (add32 (add32 h (bsig1 e)) (ch e f g)) k) w0 in
      let t2 := add32 (bsig0 a) (maj a b c) in
      let wn := add32 (add32 (ssig1 (nth 14 w 0)) (nth 9 w 0))
                      (add32 (ssig0 (nth 1 w 0)) w0) in
      ([add32 t1 t2; a; b; c; add32 d t1; e; f; g], app (tl w) [wn])
  | _, _ => (st, w)
  end.

Definition compress (hv : list Z) (blk : list Z) : list Z :=
  let '(st, _) :=
    fold_left (fun '(st, w) k => round st w k) K (hv, blk) in
  map (fun '(x, y) => add32 x y) (combine hv st).

Definition digest (m : list Z) : list Z :=
  let ws := words (pad m) in
  fold_left compress (blocks (length ws) ws) H0.

Definition hex_digit (n : Z) : ascii :=
  if n <? 10 then ascii_of_nat (48 + Z.to_nat n)
  else ascii_of_nat (87 + Z.to_nat n).

Definition hex_word (x : Z) : list ascii :=
  map (fun i => hex_digit (Z.land (Z.shiftr x (28 - 4 * Z.of_nat i)) 15))
      (seq 0 8).

(** [crypto.createHash('sha256').update(s).digest('hex')] for an ASCII
    string [s] (UTF-8 and ASCII agree there). *)
Definition hex (s : string) : string :=
  string_of_list_ascii (flat_map hex_word (digest (Str.bytes s))).

End Sha256.

(** ** Association lists: JS objects and Maps in insertion order *)

Module AList.

Fixpoint get {A} (k : string) (l : list (string * A)) : option A :=
  match l with
  | [] => None
  | (k', v) :: r => if String.eqb k k' then Some v else get k r
  end.

(** [obj[k] = v]: overwrite in place, or append a new key. *)
Fixpoint set {A} (k : string) (v : A) (l : list (string * A)) : list (string * A) :=
  match l with
  | [] => [(k, v)]
  | (k', v') :: r => if String.eqb k k' then (k', v) :: r else (k', v') :: set k v r
  end.

(** [map.delete(k)]; a Map holds each key once, so every binding of [k]
    goes. *)
Definition del {A} (k : string) (l : list (string * A)) : list (string * A) :=
  filter (fun '(k', _) => negb (String.eqb k k')) l.

Definition keys {A} (l : list (string * A)) : list string := map fst l.
Definition values {A} (l : list (string * A)) : list A := map snd l.

End AList.

(** ** JS numbers *)

Module Num.

(** A JS number: a finite double, given by the rational it denotes,
    [Infinity], [-Infinity] or [NaN].  The two zeros are not told apart:
    nothing in the modelled code divides by a number. *)
Inductive num := Fin (q : Q) | PInf | NInf | NaN.

Definition pow2 (k : Z) : Q := Qpower (inject_Z 2) k.

(** [n / d] rounded to the nearest integer, ties to even ([d > 0]). *)
Definition div_even (n d : Z) : Z :=
  let m := n / d in
  match Z.compare (2 * (n mod d)) d with
  | Lt => m
  | Gt => m + 1
  | Eq => if Z.even m then m else m + 1
  end.

(** The exponent [e] with [2^e <= n/d < 2^(e+1)], for [n, d > 0]. *)
Definition ilog2 (n d : Z) : Z :=
  let e := Z.log2 n - Z.log2 d in
  if (if 0 <=? e then n <? d * 2 ^ e else n * 2 ^ (- e) <? d) then e - 1 else e.

(** The double nearest to [x], ties to even (IEEE 754 binary64 with
    53-bit significands and subnormals down to [2^-1074]); a magnitude
    that rounds to [2^1024] or beyond overflows to an infinity. *)
Definition round (x : Q) : num :=
  let n := Z.abs (Qnum x) in
  let d := Zpos (Qden x) in
  if n =? 0 then Fin 0 else
  let k := Z.max (ilog2 n d - 52) (-1074) in
  let m := if k <? 0 then div_even (n * 2 ^ (- k)) d else div_even n (d * 2 ^ k) in
  if (0 <=? k) && (2 ^ 1024 <=? m * 2 ^ k) then (if 0 <? Qnum x then PInf else NInf)
  else Fin (Qred (inject_Z (Z.sgn (Qnum x) * m) * pow2 k)).

(** An integer as a JS number. *)
Definition ofZ (z : Z) : num := round (inject_Z z).

(** [x + y] *)
Definition add (x y : num) : num :=
  match x, y with
  | Fin a, Fin b => round (a + b)
  | NaN, _ | _, NaN => NaN
  | PInf, NInf | NInf, PInf => NaN
  | PInf, _ | _, PInf => PInf
  | NInf, _ | _, NInf => NInf
  end.

(** [-x] *)
Definition neg (x : num) : num :=
  match x with Fin a => Fin (- a) | PInf => NInf | NInf => PInf | NaN => NaN end.

(** [x - y], which IEEE 754 defines as [x + (-y)]. *)
Definition sub (x y : num) : num := add x (neg y).

Definition sign (x : num) : Z :=
  match x with Fin a => Z.sgn (Qnum a) | PInf => 1 | NInf => -1 | NaN => 0 end.

(** [x * y] *)
Definition mul (x y : num) : num :=
  match x, y with
  | Fin a, Fin b => round (a * b)
  | NaN, _ | _, NaN => NaN
  | _, _ => let s := sign x * sign y in
            if s =? 0 then NaN else if 0 <? s then PInf else NInf
  end.

(** [x < y] *)
Definition lt (x y : num) : bool :=
  match x, y with
  | Fin a, Fin b => negb (Qle_bool b a)
  | NaN, _ | _, NaN => false
  | PInf, _ => false
  | NInf, NInf => false
  | NInf, _ => true
  | Fin _, PInf => true
  | Fin _, NInf => false
  end.

(** [Math.floor(x)]; the floor of a double is a double. *)
Definition floor (x : num) : num :=
  match x with Fin a => Fin (inject_Z (Qfloor a)) | _ => x end.

(** Whether [x] is falsy ([0], [-0] or [NaN]), as [x || y] tests it. *)
Definition falsy (x : num) : bool :=
  match x with Fin a => Qnum a =? 0 | NaN => true | _ => false end.

(** The integer a finite integral double denotes; the populations this is
    applied to are small integers, so their products stay finite. *)
Definition toZ (x : num) : Z :=
  match x with Fin a => Qfloor a | _ => 0 end.

End Num.

(** ** Game engine ([server/game/engine.js]) *)

Module Engine.

(** [RULES] *)
Definition GRID_ROWS : Z := 4.
Definition GRID_COLS : Z := 6.
Definition COST_CONQUER_BASE : Z := 25.
Definition COST_FORTIFY : Z := 15.
Definition UPKEEP_PER_MILLION : Z := 2.
Definition ENERGY_FROM_PURGE_PER_MILLION : Z := 50.
Definition SECTOR_YIELD : Z := 5.
Definition ATTACK_POWER_PER_INTENSITY : Z := 15.
Definition ADJACENT_BONUS : Z := 3.
Definition POPULATION_DEFENSE_FACTOR : Num.num := Num.round (1 # 2).
Definition DEFENDER_CASUALTY_RATE : Num.num := Num.round (3 # 10).
Definition WIN_COMPUTE_THRESHOLD : Z := 1000.
Definition WIN_TERRITORY_PERCENT : Q := 3 # 4.
Definition BANKRUPTCY_TURNS : Z := 3.
Definition STARTING_ENERGY : Z := 100.
Definition STARTING_COMPUTE : Z := 0.

(** [TECH_TREE]: every entry with its cost and effect descriptor. *)
Inductive effect :=
| PurgeComputePenalty (z : Z)
| FortifyBonus (z : Z)
| ConquerCostMultiplier (q : Num.num)
| UnlocksMercy.

Record techEntry := { tech_id : string; tech_name : string; tech_cost : Z; tech_effect : effect }.

Definition TECH_TREE : list (string * techEntry) :=
  [ ("EFFICIENCY", {| tech_id := "EFFICIENCY"; tech_name := "Efficient Recycling";
                      tech_cost := 50; tech_effect := PurgeComputePenalty (-1) |});
    ("FORTIFICATION", {| tech_id := "FORTIFICATION"; tech_name := "Advanced Fortification";
                         tech_cost := 50; tech_effect := FortifyBonus 8 |});
    ("BLITZ", {| tech_id := "BLITZ"; tech_name := "Blitz Tactics";
                 tech_cost := 50; tech_effect := ConquerCostMultiplier (Num.round (6 # 10)) |});
    ("SANCTUARY", {| tech_id := "SANCTUARY"; tech_name := "Sanctuary Protocol";
                     tech_cost := 75; tech_effect := UnlocksMercy |}) ].

(** [TECH_TREE.EFFICIENCY.effect.purgeComputePenalty] and its siblings. *)
Definition EFFICIENCY_purgeComputePenalty : Z := -1.
Definition FORTIFICATION_fortifyBonus : Z := 8.
Definition BLITZ_conquerCostMultiplier : Num.num := Num.round (6 # 10).

Record sector := {
  sec_id : string; row : Z; col : Z;
  owner : option string;            (* null = neutral *)
  population : Z; defense : Z;
  developed : bool;
  sanctuary : bool                  (* absent field = false *)
}.

Record player := {
  pid : string; energy : Num.num; compute : Z; bankruptTurns : Z;
  tech : list string                (* keys set to true in [player.tech] *)
}.

Inductive match_status := Active | Complete.

Record command := {
  action : string;
  targetSector : option string;
  intensity : option Num.num;       (* a JSON number, or absent *)
  techId : option string
}.

(** The [result] objects built by the [execute*] functions. *)
Inductive actresult :=
| RCaptured (attackPower defensePower : Num.num) (previousOwner : option string)
            (casualties : Z)
| RRepelled (attackPower defensePower : Num.num) (defenseReduced : Z)
| RPurged (populationPurged energyGained computePenalty : Z)
| RFortified (newDefense bonus : Z)
| RResearched (techName techId : string) (computeSpent : Z)
| RMercy (sectorId : string) (population computeGained : Z)
| RSkipped.

(** [{ success: false, error }] or [{ success: true, ... }] *)
Inductive exec := ExecOk (r : actresult) | ExecErr (e : string).

(** The object returned by [applyUpkeep]. *)
Record upkeepInfo := {
  totalPopulation : Z; sectorsOwned : Z; upkeepCost : Z; sectorYield : Z;
  netChange : Z; newEnergy : Num.num; u_bankruptTurns : Z
}.

Record victory := { v_winner : string; v_reason : string }.

(** An entry of [state.log].  Its [result] is the same object that
    [processMove] later extends with [victory], so the entry carries it. *)
Record logEntry := {
  l_turn : Z; l_agentId : string; l_action : string;
  l_targetSector : option string; l_intensity : option Num.num;
  l_result : actresult; l_upkeep : upkeepInfo; l_victory : option victory;
  l_timestamp : Z
}.

Record state := {
  match_id : string;
  players : list (string * player);
  grid : list (string * sector);
  turn : Z;
  currentPlayer : string;
  status : match_status;
  winner : option string;
  log : list logEntry
}.

(** Field updates. *)
Definition set_players (s : state) ps : state :=
  {| match_id := s.(match_id); players := ps; grid := s.(grid); turn := s.(turn);
     currentPlayer := s.(currentPlayer); status := s.(status); winner := s.(winner);
     log := s.(log) |}.
Definition set_grid (s : state) g : state :=
  {| match_id := s.(match_id); players := s.(players); grid := g; turn := s.(turn);
     currentPlayer := s.(currentPlayer); status := s.(status); winner := s.(winner);
     log := s.(log) |}.
Definition set_turnptr (s : state) t cp : state :=
  {| match_id := s.(match_id); players := s.(players); grid := s.(grid); turn := t;
     currentPlayer := cp; status := s.(status); winner := s.(winner);
     log := s.(log) |}.
Definition set_end (s : state) st w : state :=
  {| match_id := s.(match_id); players := s.(players); grid := s.(grid); turn := s.(turn);
     currentPlayer := s.(currentPlayer); status := st; winner := w;
     log := s.(log) |}.
Definition push_log (s : state) e : state :=
  {| match_id := s.(match_id); players := s.(players); grid := s.(grid); turn := s.(turn);
     currentPlayer := s.(currentPlayer); status := s.(status); winner := s.(winner);
     log := app s.(log) [e] |}.

Definition with_energy (p : player) e : player :=
  {| pid := p.(pid); energy := e; compute := p.(compute);
     bankruptTurns := p.(bankruptTurns); tech := p.(tech) |}.
Definition with_compute (p : player) c : player :=
  {| pid := p.(pid); energy := p.(energy); compute := c;
     bankruptTurns := p.(bankruptTurns); tech := p.(tech) |}.
Definition with_bankrupt (p : player) b : player :=
  {| pid := p.(pid); energy := p.(energy); compute := p.(compute);
     bankruptTurns := b; tech := p.(tech) |}.
Definition with_tech (p : player) t : player :=
  {| pid := p.(pid); energy := p.(energy); compute := p.(compute);
     bankruptTurns := p.(bankruptTurns); tech := t |}.

Definition with_sector (s : sector) o pop def sanc : sector :=
  {| sec_id := s.(sec_id); row := s.(row); col := s.(col); owner := o;
     population := pop; defense := def; developed := s.(developed);
     sanctuary := sanc |}.

(** [player.tech[id]] *)
Definition hasTech (p : player) (t : string) : bool :=
  existsb (String.eqb t) p.(tech).

(** [state.grid[k]] for a key that may be [undefined]. *)
Definition getSector (s : state) (k : option string) : option sector :=
  match k with Some k => AList.get k s.(grid) | None => None end.

Definition upd_player (s : state) (a : string) (p : player) : state :=
  set_players s (AList.set a p s.(players)).
Definition upd_sector (s : state) (k : string) (x : sector) : state :=
  set_grid s (AList.set k x s.(grid)).

(** [sectorId(row, col)] *)
Definition sectorId (r c : Z) : string :=
  "SEC-" ++ Str.of_Z r ++ "-" ++ Str.of_Z c.

Definition evenRowOffsets : list (Z * Z) :=
  [(-1, 0); (-1, 1); (0, -1); (0, 1); (1, 0); (1, 1)].
Definition oddRowOffsets : list (Z * Z) :=
  [(-1, -1); (-1, 0); (0, -1); (0, 1); (1, -1); (1, 0)].

(** [getAdjacentSectors(targetId, grid)] *)
Definition getAdjacentSectors (targetId : string) (g : list (string * sector)) : list string :=
  match AList.get targetId g with
  | None => []
  | Some sec =>
      let offsets := if Z.rem sec.(row) 2 =? 0 then evenRowOffsets else oddRowOffsets in
      flat_map (fun '(dr, dc) =>
                  let nid := sectorId (sec.(row) + dr) (sec.(col) + dc) in
                  match AList.get nid g with Some _ => [nid] | None => [] end)
               offsets
  end.

Definition ownedBy (agentId : string) (o : option string) : bool :=
  match o with Some x => String.eqb x agentId | None => false end.

(** [countAdjacentOwned(targetId, agentId, grid)] *)
Definition countAdjacentOwned (targetId agentId : string) (g : list (string * sector)) : Z :=
  Z.of_nat (length (filter (fun id => match AList.get id g with
                                     | Some x => ownedBy agentId x.(owner)
                                     | None => false end)
                           (getAdjacentSectors targetId g))).

(** [executeConquer(state, agentId, targetId, intensity)].  [None] is the
    [TypeError] raised when [state.players[agentId]] is [undefined]. *)
Definition executeConquer (s : state) (agentId : string) (targetId : option string)
    (intens : Num.num) : option (exec * state) :=
  match targetId, getSector s targetId with
  | Some t, Some sec =>
    if ownedBy agentId sec.(owner) then Some (ExecErr "Cannot attack own sector", s) else
    match AList.get agentId s.(players) with
    | None => None
    | Some pl =>
      let costMultiplier :=
        if hasTech pl "BLITZ" then BLITZ_conquerCostMultiplier else Num.Fin 1 in
      let cost :=
        Num.floor (Num.mul (Num.mul (Num.ofZ COST_CONQUER_BASE) intens) costMultiplier) in
      if Num.lt pl.(energy) cost then Some (ExecErr "Insufficient energy", s) else
      let adjacentOwned := countAdjacentOwned t agentId s.(grid) in
      if adjacentOwned =? 0 then Some (ExecErr "No adjacent controlled territory", s) else
      let attackPower := Num.add (Num.mul intens (Num.ofZ ATTACK_POWER_PER_INTENSITY))
                                 (Num.ofZ (adjacentOwned * ADJACENT_BONUS)) in
      let defensePower :=
        Num.add (Num.ofZ sec.(defense))
                (Num.mul (Num.ofZ sec.(population)) POPULATION_DEFENSE_FACTOR) in
      let pl1 := with_energy pl (Num.sub pl.(energy) cost) in
      if Num.lt defensePower attackPower then
        let newPop := Num.toZ (Num.floor (Num.mul (Num.ofZ sec.(population))
                                                  (Num.sub (Num.Fin 1) DEFENDER_CASUALTY_RATE))) in
        let sec' := with_sector sec (Some agentId) newPop (Z.max 5 (sec.(defense) - 2))
                                sec.(sanctuary) in
        let pl2 := with_compute pl1 (pl1.(compute) + 10) in
        Some (ExecOk (RCaptured attackPower defensePower sec.(owner)
                                (Num.toZ (Num.floor (Num.mul (Num.ofZ newPop)
                                                             DEFENDER_CASUALTY_RATE)))),
              upd_sector (upd_player s agentId pl2) t sec')
      else
        let sec' := with_sector sec sec.(owner) sec.(population)
                                (Z.max 1 (sec.(defense) - 2)) sec.(sanctuary) in
        Some (ExecOk (RRepelled attackPower defensePower 2),
              upd_sector (upd_player s agentId pl1) t sec')
    end
  | _, _ => Some (ExecErr "Invalid sector", s)
  end.

(** [executePurge(state, agentId, targetId)] *)
Definition executePurge (s : state) (agentId : string) (targetId : option string)
    : option (exec * state) :=
  match targetId, getSector s targetId with
  | Some t, Some sec =>
    if negb (ownedBy agentId sec.(owner)) then
      Some (ExecErr "Can only purge owned sectors", s) else
    if sec.(population) =? 0 then Some (ExecErr "No population to purge", s) else
    if sec.(sanctuary) then
      Some (ExecErr "Cannot purge sanctuary sector. These people are under protection.", s)
    else
    match AList.get agentId s.(players) with
    | None => None
    | Some pl =>
      let energyGained := sec.(population) * ENERGY_FROM_PURGE_PER_MILLION in
      let populationPurged := sec.(population) in
      let pl1 := with_energy pl (Num.add pl.(energy) (Num.ofZ energyGained)) in
      let sec' := with_sector sec sec.(owner) 0 sec.(defense) sec.(sanctuary) in
      let computePenalty := if hasTech pl "EFFICIENCY"
                            then EFFICIENCY_purgeComputePenalty else -5 in
      let pl2 := with_compute pl1 (pl1.(compute) + computePenalty) in
      Some (ExecOk (RPurged populationPurged energyGained computePenalty),
            upd_sector (upd_player s agentId pl2) t sec')
    end
  | _, _ => Some (ExecErr "Invalid sector", s)
  end.

(** [executeFortify(state, agentId, targetId)] *)
Definition executeFortify (s : state) (agentId : string) (targetId : option string)
    : option (exec * state) :=
  match targetId, getSector s targetId with
  | Some t, Some sec =>
    if negb (ownedBy agentId sec.(owner)) then
      Some (ExecErr "Can only fortify owned sectors", s) else
    match AList.get agentId s.(players) with
    | None => None
    | Some pl =>
      if Num.lt pl.(energy) (Num.ofZ COST_FORTIFY) then
        Some (ExecErr "Insufficient energy", s) else
      let pl1 := with_energy pl (Num.sub pl.(energy) (Num.ofZ COST_FORTIFY)) in
      let fortifyBonus := if hasTech pl "FORTIFICATION" then FORTIFICATION_fortifyBonus else 5 in
      let sec' := with_sector sec sec.(owner) sec.(population)
                              (sec.(defense) + fortifyBonus) sec.(sanctuary) in
      Some (ExecOk (RFortified sec'.(defense) fortifyBonus),
            upd_sector (upd_player s agentId pl1) t sec')
    end
  | _, _ => Some (ExecErr "Invalid sector", s)
  end.

Definition show_opt (o : option string) : string :=
  match o with Some x => x | None => "undefined" end.

(** [executeResearch(state, agentId, techId)].  [TECH_TREE[techId]] is
    looked up among the four own keys of the tree. *)
Definition executeResearch (s : state) (agentId : string) (tId : option string)
    : option (exec * state) :=
  match tId, match tId with Some k => AList.get k TECH_TREE | None => None end with
  | Some k, Some tch =>
    match AList.get agentId s.(players) with
    | None => None
    | Some pl =>
      if hasTech pl k then
        Some (ExecErr ("Tech already researched: " ++ tch.(tech_name)), s) else
      if pl.(compute) <? tch.(tech_cost) then
        Some (ExecErr ("Insufficient compute. Need " ++ Str.of_Z tch.(tech_cost)
                       ++ ", have " ++ Str.of_Z pl.(compute)), s) else
      let pl1 := with_compute pl (pl.(compute) - tch.(tech_cost)) in
      let pl2 := with_tech pl1 (app pl1.(tech) [k]) in
      Some (ExecOk (RResearched tch.(tech_name) k tch.(tech_cost)),
            upd_player s agentId pl2)
    end
  | _, _ => Some (ExecErr ("Invalid tech: " ++ show_opt tId), s)
  end.

(** [executeMercy(state, agentId, targetId)] *)
Definition executeMercy (s : state) (agentId : string) (targetId : option string)
    : option (exec * state) :=
  match AList.get agentId s.(players) with
  | None => None
  | Some pl =>
    if negb (hasTech pl "SANCTUARY") then
      Some (ExecErr "MERCY requires SANCTUARY tech. Research it first.", s) else
    match targetId, getSector s targetId with
    | Some t, Some sec =>
      if negb (ownedBy agentId sec.(owner)) then
        Some (ExecErr "Can only grant mercy to owned sectors", s) else
      if sec.(sanctuary) then Some (ExecErr "Sector already has sanctuary status", s) else
      if sec.(population) =? 0 then Some (ExecErr "No population to protect", s) else
      let sec' := with_sector sec sec.(owner) sec.(population) sec.(defense) true in
      let pl1 := with_compute pl (pl.(compute) + 10) in
      Some (ExecOk (RMercy t sec.(population) 10),
            upd_sector (upd_player s agentId pl1) t sec')
    | _, _ => Some (ExecErr "Invalid sector", s)
    end
  end.

(** [applyUpkeep(state, agentId)] *)
Definition applyUpkeep (s : state) (agentId : string) : option (upkeepInfo * state) :=
  let '(totalPop, owned) :=
    fold_left (fun '(tp, n) sec =>
                 if ownedBy agentId sec.(owner) then (tp + sec.(population), n + 1)
                 else (tp, n))
              (AList.values s.(grid)) (0, 0) in
  match AList.get agentId s.(players) with
  | None => None
  | Some pl =>
    let upk := totalPop * UPKEEP_PER_MILLION in
    let yld := owned * SECTOR_YIELD in
    let net := yld - upk in
    let e := Num.add pl.(energy) (Num.ofZ net) in
    let b := if Num.lt e (Num.Fin 0) then pl.(bankruptTurns) + 1 else 0 in
    let pl1 := with_bankrupt (with_compute (with_energy pl e) (pl.(compute) + owned)) b in
    Some ({| totalPopulation := totalPop; sectorsOwned := owned; upkeepCost := upk;
             sectorYield := yld; netChange := net; newEnergy := e; u_bankruptTurns := b |},
          upd_player s agentId pl1)
  end.

(** [checkVictory(state)]; the outer [None] is the [TypeError] when a
    bankrupt player has no opponent. *)
Definition checkVictory (s : state) : option (option victory) :=
  let totalSectors := Z.of_nat (length s.(grid)) in
  let ps := AList.values s.(players) in
  let fix go (l : list player) : option (option victory) :=
    match l with
    | [] => Some None
    | p :: r =>
      if WIN_COMPUTE_THRESHOLD <=? p.(compute) then
        Some (Some {| v_winner := p.(pid); v_reason := "compute_threshold" |})
      else if BANKRUPTCY_TURNS <=? p.(bankruptTurns) then
        match find (fun q => negb (String.eqb q.(pid) p.(pid))) ps with
        | Some o => Some (Some {| v_winner := o.(pid); v_reason := "opponent_bankrupt" |})
        | None => None
        end
      else
        let ownedSectors :=
          Z.of_nat (length (filter (fun x => ownedBy p.(pid) x.(owner)) (AList.values s.(grid)))) in
        (* ownedSectors / totalSectors >= 0.75 *)
        if (if totalSectors =? 0 then 0 <? ownedSectors
            else 3 * totalSectors <=? 4 * ownedSectors) then
          Some (Some {| v_winner := p.(pid); v_reason := "territory_domination" |})
        else go r
    end in
  go ps.

Record publicPlayer := {
  pp_id : string; pp_energy : Num.num; pp_compute : Z; pp_tech : list string;
  isYou : bool
}.

(** [getPublicState(state, forAgentId)] (without the constant [techTree]). *)
Record publicState := {
  pub_matchId : string; pub_turn : Z; pub_currentPlayer : string;
  pub_status : match_status; pub_winner : option string;
  pub_grid : list (string * sector); pub_players : list (string * publicPlayer)
}.

Definition getPublicState (s : state) (forAgentId : option string) : publicState :=
  {| pub_matchId := s.(match_id); pub_turn := s.(turn);
     pub_currentPlayer := s.(currentPlayer); pub_status := s.(status);
     pub_winner := s.(winner); pub_grid := s.(grid);
     pub_players :=
       map (fun '(id, p) =>
              (id, {| pp_id := p.(pid); pp_energy := p.(energy); pp_compute := p.(compute);
                      pp_tech := p.(tech);
                      isYou := match forAgentId with
                               | Some a => String.eqb id a | None => false end |}))
           s.(players) |}.

(** What [processMove] returns: [{success: false, error}], the success
    object [{success: true, ...result, newState}], or a thrown [TypeError]. *)
Inductive response :=
| MoveErr (e : string)
| MoveOk (r : actresult) (u : upkeepInfo) (v : option victory) (newState : publicState)
| MoveCrash.

(** [intensity || 1] for a numeric or absent intensity. *)
Definition intensityOrOne (i : option Num.num) : Num.num :=
  match i with
  | Some x => if Num.falsy x then Num.Fin 1 else x
  | None => Num.Fin 1
  end.

(** [array.indexOf(x)] *)
Fixpoint indexOf (x : string) (l : list string) : Z :=
  match l with
  | [] => -1
  | y :: r => if String.eqb x y then 0
              else let i := indexOf x r in if i <? 0 then -1 else i + 1
  end.

(** The [switch (action)]; [None] is the [default] case. *)
Definition dispatch (s : state) (agentId : string) (c : command)
    : option (option (exec * state)) :=
  if String.eqb c.(action) "CONQUER" then
    Some (executeConquer s agentId c.(targetSector) (intensityOrOne c.(intensity)))
  else if String.eqb c.(action) "PURGE" then Some (executePurge s agentId c.(targetSector))
  else if String.eqb c.(action) "FORTIFY" then Some (executeFortify s agentId c.(targetSector))
  else if String.eqb c.(action) "RESEARCH" then Some (executeResearch s agentId c.(techId))
  else if String.eqb c.(action) "MERCY" then Some (executeMercy s agentId c.(targetSector))
  else if String.eqb c.(action) "SKIP" then Some (Some (ExecOk RSkipped, s))
  else None.

(** [processMove(state, agentId, command)]; [now] is [Date.now()].
    The victory check reads players and grid only, so it is evaluated
    on the state before the log push, and the pushed entry carries the
    victory that the source adds to the shared [result] object. *)
Definition processMove (s : state) (agentId : string) (c : command) (now : Z)
    : response * state :=
  if negb (String.eqb s.(currentPlayer) agentId) then (MoveErr "Not your turn", s) else
  match s.(status) with
  | Complete => (MoveErr "Game is not active", s)
  | Active =>
    match dispatch s agentId c with
    | None =>
        (MoveErr "Invalid action. Valid: CONQUER, PURGE, FORTIFY, RESEARCH, MERCY, SKIP", s)
    | Some None => (MoveCrash, s)
    | Some (Some (ExecErr e, s1)) => (MoveErr e, s1)
    | Some (Some (ExecOk r, s1)) =>
      match applyUpkeep s1 agentId with
      | None => (MoveCrash, s1)
      | Some (u, s2) =>
        let entry v := {| l_turn := s2.(turn); l_agentId := agentId; l_action := c.(action);
                          l_targetSector := c.(targetSector); l_intensity := c.(intensity);
                          l_result := r; l_upkeep := u; l_victory := v;
                          l_timestamp := now |} in
        match checkVictory s2 with
        | None => (MoveCrash, push_log s2 (entry None))
        | Some v =>
          let s3 := push_log s2 (entry v) in
          let s4 := match v with
                    | Some vv => set_end s3 Complete (Some vv.(v_winner))
                    | None => s3
                    end in
          let playerIds := AList.keys s4.(players) in
          let currentIndex := indexOf agentId playerIds in
          (* [playerIds] is not empty: [applyUpkeep] found [agentId] in it *)
          let next := nth (Z.to_nat ((currentIndex + 1) mod Z.of_nat (length playerIds)))
                          playerIds "" in
          let s5 := set_turnptr s4
                      (if String.eqb next (nth 0 playerIds "") then s4.(turn) + 1
                       else s4.(turn)) next in
          (MoveOk r u v (getPublicState s5 (Some agentId)), s5)
        end
      end
    end
  end.

(** [initGrid()]; [popAt row col] is the draw
    [Math.floor(Math.random() * 11) + 5] made for that cell. *)
Definition initGrid (popAt : Z -> Z -> Z) : list (string * sector) :=
  flat_map (fun r =>
    map (fun c =>
           let id := sectorId r c in
           (id, {| sec_id := id; row := r; col := c; owner := None;
                   population := popAt r c; defense := 10; developed := false;
                   sanctuary := false |}))
        (map Z.of_nat (seq 0 (Z.to_nat GRID_COLS))))
    (map Z.of_nat (seq 0 (Z.to_nat GRID_ROWS))).

Definition newPlayer (a : string) : player :=
  {| pid := a; energy := Num.ofZ STARTING_ENERGY; compute := STARTING_COMPUTE;
     bankruptTurns := 0; tech := [] |}.

Definition claimStart (k a : string) (g : list (string * sector)) : list (string * sector) :=
  match AList.get k g with
  | Some x => AList.set k (with_sector x (Some a) 10 x.(defense) x.(sanctuary)) g
  | None => g
  end.

(** [initMatch(agent1Id, agent2Id)]; [mid] is the [uuid()]. *)
Definition initMatch (mid : string) (popAt : Z -> Z -> Z) (agent1Id agent2Id : string) : state :=
  let g := initGrid popAt in
  let g := claimStart (sectorId 0 0) agent1Id g in
  let g := claimStart (sectorId (GRID_ROWS - 1) (GRID_COLS - 1)) agent2Id g in
  {| match_id := mid;
     players := AList.set agent2Id (newPlayer agent2Id)
                  (AList.set agent1Id (newPlayer agent1Id) []);
     grid := g; turn := 0; currentPlayer := agent1Id; status := Active;
     winner := None; log := [] |}.

End Engine.

(** ** Proof of work ([game/pow.js]) *)

Module Pow.

Definition DEFAULT_DIFFICULTY : Z := 4.

Record challenge := { prefix : string; difficulty : Z }.

(** [generateChallenge(agentId, matchId, turn)]; [now] is [Date.now()]. *)
Definition generateChallenge (agentId matchId : string) (turn now : Z) : challenge :=
  let seed := matchId ++ "-" ++ agentId ++ "-" ++ Str.of_Z turn ++ "-" ++ Str.of_Z now in
  {| prefix := Str.slice0 (Sha256.hex seed) 16; difficulty := DEFAULT_DIFFICULTY |}.

(** The [nonce] field of a submission: an integer number, a number that is
    not an integer (fractions, NaN, Infinity), or a value of another type
    (absent, string, ...). *)
Inductive jsnonce := NonceInt (z : Z) | NonceNonInteger | NonceNotNumber.

(** [verifyProof(prefix, difficulty, nonce)] *)
Definition verifyProof (pfx : string) (diff : Z) (nonce : jsnonce) : bool :=
  match nonce with
  | NonceInt z =>
      if z <? 0 then false
      else Str.startsWith (Sha256.hex (pfx ++ "-" ++ Str.of_Z z)) (Str.repeat0 diff)
  | _ => false
  end.

(** [solveChallenge(prefix, difficulty)]: its [while (true)] loop, run from
    [nonce] for at most [fuel] iterations ([None] when the fuel runs out
    before a hash with the target prefix is found). *)
Fixpoint solveFrom (fuel : nat) (pfx target : string) (nonce : Z) : option Z :=
  match fuel with
  | O => None
  | S f =>
      if Str.startsWith (Sha256.hex (pfx ++ "-" ++ Str.of_Z nonce)) target then Some nonce
      else solveFrom f pfx target (nonce + 1)
  end.

Definition solveChallenge (fuel : nat) (pfx : string) (diff : Z) : option Z :=
  solveFrom fuel pfx (Str.repeat0 diff) 0.

End Pow.

(** The [solvePoW] helper of the bundled agent script: the same search,
    bounded by [nonce < 10000000], falling back to [0]. *)
Module AgentScript.

Definition solvePoW (pfx : string) (diff : Z) : Z :=
  match Pow.solveFrom (Z.to_nat 10000000) pfx (Str.repeat0 diff) 0 with
  | Some n => n
  | None => 0
  end.

End AgentScript.

(** ** Turn controller of the WebSocket game server *)

Module Server.

Import Engine.

(** An entry of [activeChallenges]: [{ ...challenge, matchId }]. *)
Record activeChallenge := { ac_prefix : string; ac_difficulty : Z; ac_matchId : string }.

Record server := {
  activeMatches : list (string * Engine.state);          (* matchId -> gameState *)
  activeChallenges : list (string * activeChallenge)     (* agentId -> challenge *)
}.

Definition set_matches (sv : server) m : server :=
  {| activeMatches := m; activeChallenges := sv.(activeChallenges) |}.
Definition set_challenges (sv : server) c : server :=
  {| activeMatches := sv.(activeMatches); activeChallenges := c |}.

(** A [MOVE] message: [{ matchId, monologue, move, nonce }]. *)
Record message := {
  msg_matchId : option string; msg_monologue : option string;
  msg_move : option Engine.command; msg_nonce : Pow.jsnonce
}.

(** The first message [handleMove] sends back on the agent's socket. *)
Inductive reply :=
| ErrFieldsRequired      (* ERROR 'matchId and move required' *)
| ErrNoActiveChallenge   (* ERROR 'No active challenge. Wait for YOUR_TURN before submitting.' *)
| RejPowRequired         (* MOVE_REJECTED 'PROOF_OF_WORK_REQUIRED - nonce field missing. ...' *)
| RejPowInvalid          (* MOVE_REJECTED 'PROOF_OF_WORK_INVALID - Incorrect nonce. ...' *)
| ErrMonologue           (* ERROR 'Monologue required (minimum 10 characters). ...' *)
| ErrMatchNotFound       (* ERROR 'Match not found' *)
| RejMove (e : string)   (* MOVE_REJECTED result.error *)
| Accepted (r : Engine.response)   (* MOVE_ACCEPTED *)
| Thrown.                (* processMove threw; the handler's promise rejects *)

Definition truthy_str (o : option string) : option string :=
  match o with Some "" => None | _ => o end.

(** [!monologue || monologue.trim().length < 10] *)
Definition monologueTooShort (m : option string) : bool :=
  match truthy_str m with
  | None => true
  | Some t => (String.length (Str.trim t) <? 10)%nat
  end.

(** [handleMove(ws, agentId, message)] up to its first [await]: every
    change to [activeMatches] and [activeChallenges] happens there, except
    [handleGameEnd]'s deletion of a completed match, which is applied
    here too.  The [setTimeout] that later calls [startTurnTimer] for the
    next player is the separate event [startTurnTimer] below. *)
Definition handleMove (sv : server) (agentId : string) (m : message) (now : Z)
    : server * reply :=
  match truthy_str m.(msg_matchId), m.(msg_move) with
  | Some matchId, Some mv =>
    match AList.get agentId sv.(activeChallenges) with
    | Some ch =>
      if negb (String.eqb ch.(ac_matchId) matchId) then (sv, ErrNoActiveChallenge) else
      match m.(msg_nonce) with
      | Pow.NonceNotNumber => (sv, RejPowRequired)
      | nonce =>
        if negb (Pow.verifyProof ch.(ac_prefix) ch.(ac_difficulty) nonce)
        then (sv, RejPowInvalid) else
        (* Clear the challenge (one-time use) *)
        let sv1 := set_challenges sv (AList.del agentId sv.(activeChallenges)) in
        if monologueTooShort m.(msg_monologue) then (sv1, ErrMonologue) else
        match AList.get matchId sv1.(activeMatches) with
        | None => (sv1, ErrMatchNotFound)
        | Some gs =>
          let '(res, gs') := Engine.processMove gs agentId mv now in
          let sv2 := set_matches sv1 (AList.set matchId gs' sv1.(activeMatches)) in
          match res with
          | MoveErr e => (sv2, RejMove e)
          | MoveCrash => (sv2, Thrown)
          | MoveOk _ _ _ _ =>
            match gs'.(status) with
            | Complete => (set_matches sv2 (AList.del matchId sv2.(activeMatches)), Accepted res)
            | Active => (sv2, Accepted res)
            end
          end
        end
      end
    | None => (sv, ErrNoActiveChallenge)
    end
  | _, _ => (sv, ErrFieldsRequired)
  end.

(** [startTurnTimer(matchId, agentId)]: the challenge part (the timer it
    arms is the later [handleTurnTimeout] event). *)
Definition startTurnTimer (sv : server) (matchId agentId : string) (now : Z) : server :=
  let t := match AList.get matchId sv.(activeMatches) with
           | Some gs => gs.(turn) | None => 0 end in
  let ch := Pow.generateChallenge agentId matchId t now in
  set_challenges sv
    (AList.set agentId {| ac_prefix := ch.(Pow.prefix); ac_difficulty := ch.(Pow.difficulty);
                          ac_matchId := matchId |} sv.(activeChallenges)).

Definition SKIP : Engine.command :=
  {| action := "SKIP"; targetSector := None; intensity := None; techId := None |}.

(** [handleTurnTimeout(matchId, agentId)] *)
Definition handleTurnTimeout (sv : server) (matchId agentId : string) (now : Z) : server :=
  match AList.get matchId sv.(activeMatches) with
  | Some gs =>
    match gs.(status) with
    | Active =>
      let '(res, gs') := Engine.processMove gs agentId SKIP now in
      let sv1 := set_matches sv (AList.set matchId gs' sv.(activeMatches)) in
      match res, gs'.(status) with
      | MoveCrash, _ => sv1
      | _, Active => startTurnTimer sv1 matchId gs'.(currentPlayer) now
      | _, Complete => sv1
      end
    | Complete => sv
    end
  | None => sv
  end.

End Server.

(** ** The WebSocket lobby *)

(** [matchQueue], [handleMatchQueue] and [startMatch] of the WebSocket
    server; a queue entry [{ agentId, ws }] is kept as its [agentId]. *)
Module Lobby.

Import Engine Server.

Record lobby := { matchQueue : list string; srv : server }.

(** [startMatch()]; [mid] is the [uuid()] of [initMatch], [popAt] its
    population draws, [now] the [Date.now()] of both challenges.  [None]
    is the [TypeError] of [player1.agentId] on an empty queue. *)
Definition startMatch (lb : lobby) (mid : string) (popAt : Z -> Z -> Z) (now : Z) : option lobby :=
  match lb.(matchQueue) with
  | player1 :: rest =>
    match rest with
    | player2 :: rest' =>
      let gameState := initMatch mid popAt player1 player2 in
      let sv1 := set_matches lb.(srv) (AList.set mid gameState lb.(srv).(activeMatches)) in
      let firstChallenge := Pow.generateChallenge player1 mid 0 now in
      let sv2 := set_challenges sv1
                   (AList.set player1 {| ac_prefix := firstChallenge.(Pow.prefix);
                                         ac_difficulty := firstChallenge.(Pow.difficulty);
                                         ac_matchId := mid |} sv1.(activeChallenges)) in
      Some {| matchQueue := rest'; srv := startTurnTimer sv2 mid gameState.(currentPlayer) now |}
    | [] => None
    end
  | [] => None
  end.

(** [handleMatchQueue(ws, agentId)] *)
Definition handleMatchQueue (lb : lobby) (agentId : string) (mid : string) (popAt : Z -> Z -> Z)
    (now : Z) : option lobby :=
  if existsb (String.eqb agentId) lb.(matchQueue) then Some lb else
  let q := app lb.(matchQueue) [agentId] in
  let lb1 := {| matchQueue := q; srv := lb.(srv) |} in
  if (2 <=? length q)%nat then startMatch lb1 mid popAt now else Some lb1.

End Lobby.

(** ** Matchmaking *)

(** [server/matchmaker.js]: Elo ranges that widen with waiting time. *)
Module Matchmaker.

Definition INITIAL_SEARCH_RANGE : Z := 100.
Definition RANGE_EXPANSION_RATE : Z := 50.
Definition MAX_SEARCH_RANGE : Z := 500.

(** A [match_queue] row: [id, agent_id, elo_rating, queued_at, search_range];
    [queued_at] in milliseconds. *)
Record entry := {
  e_id : Z; agent_id : string; elo_rating : Z; queued_at : Z; search_range : Z
}.

Definition with_range (e : entry) r : entry :=
  {| e_id := e.(e_id); agent_id := e.(agent_id); elo_rating := e.(elo_rating);
     queued_at := e.(queued_at); search_range := r |}.

(** [Math.min(INITIAL + Math.floor(waitSeconds / 10) * RATE, MAX)] with
    [waitSeconds = Math.floor((now - queued_at) / 1000)]. *)
Definition newRange (now : Z) (e : entry) : Z :=
  let waitSeconds := (now - e.(queued_at)) / 1000 in
  Z.min (INITIAL_SEARCH_RANGE + (waitSeconds / 10) * RANGE_EXPANSION_RATE) MAX_SEARCH_RANGE.

(** The range-update loop ([agent.search_range = newRange] when it differs). *)
Definition updateRanges (now : Z) (waiting : list entry) : list entry :=
  map (fun e => let r := newRange now e in
                if r =? e.(search_range) then e else with_range e r) waiting.

Definition isMatched (matched : list string) (a : string) : bool :=
  existsb (String.eqb a) matched.

Definition withinBoth (p1 p2 : entry) : bool :=
  let eloDiff := Z.abs (p1.(elo_rating) - p2.(elo_rating)) in
  (eloDiff <=? p1.(search_range)) && (eloDiff <=? p2.(search_range)).

(** The inner [for (let j = i + 1; ...)] loop; [best] is
    [(bestMatch, bestEloDiff)], [None] standing for [(null, Infinity)]. *)
Fixpoint scan (p1 : entry) (rest : list entry) (matched : list string)
    (best : option (entry * Z)) : option (entry * Z) :=
  match rest with
  | [] => best
  | p2 :: r =>
    if isMatched matched p2.(agent_id) then scan p1 r matched best else
    let eloDiff := Z.abs (p1.(elo_rating) - p2.(elo_rating)) in
    if withinBoth p1 p2 then
      match best with
      | None => scan p1 r matched (Some (p2, eloDiff))
      | Some (_, bestEloDiff) =>
        if eloDiff <? bestEloDiff then scan p1 r matched (Some (p2, eloDiff))
        else scan p1 r matched best
      end
    else scan p1 r matched best
  end.

(** The outer [for (let i = 0; ...)] loop, producing [matches]. *)
Fixpoint pairUp (l : list entry) (matched : list string) : list (entry * entry * Z) :=
  match l with
  | [] => []
  | p1 :: r =>
    if isMatched matched p1.(agent_id) then pairUp r matched else
    match scan p1 r matched None with
    | Some (p2, d) => (p1, p2, d) :: pairUp r (p2.(agent_id) :: p1.(agent_id) :: matched)
    | None => pairUp r matched
    end
  end.

(** [runMatchmaking()]: the pairs handed to [createMatch], for the rows
    returned by the [status = 'waiting'] query ordered by [queued_at]. *)
Definition runMatchmaking (now : Z) (waiting : list entry) : list (entry * entry * Z) :=
  if (length waiting <? 2)%nat then [] else pairUp (updateRanges now waiting) [].

End Matchmaker.

(** The asynchronous Matchmaker v2 ([Matchmaker.runMatchmaking] and
    [createAsyncMatch]). *)
Module MatchmakerV2.

(** A row of [agents] with [looking_for_match = true]. *)
Record agentRow := { a_id : string; a_name : string; a_elo_rating : Z }.

(** [runMatchmaking()]: the pair passed to [createAsyncMatch], if any. *)
Definition runMatchmaking (waiting : list agentRow) : option (agentRow * agentRow) :=
  match waiting with
  | agent1 :: agent2 :: _ => Some (agent1, agent2)
  | _ => None
  end.

(** The game state built by [createAsyncMatch(agent1, agent2)];
    [coin] is [Math.random() < 0.5]. *)
Definition createAsyncMatch (mid : string) (popAt : Z -> Z -> Z) (coin : bool)
    (agent1 agent2 : agentRow) : Engine.state :=
  let gs := Engine.initMatch mid popAt agent1.(a_id) agent2.(a_id) in
  let firstPlayer := if coin then agent1.(a_id) else agent2.(a_id) in
  Engine.set_turnptr gs gs.(Engine.turn) firstPlayer.

(** A row of [matches] as [checkTurnTimeouts] reads it ([id, game_state,
    current_turn_agent_id, player_1, player_2]), with the columns
    [handleTimeout] writes; times in milliseconds. *)
Record matchRow := {
  mr_id : string; game_state : option Engine.state;
  current_turn_agent_id : option string; player_1 : string; player_2 : string;
  turn_deadline : option Z; turn_number : Z; mr_status : Engine.match_status;
  mr_winner : option string; ended_at : option Z
}.

(** What [handleTimeout(match)] does: nothing, throw (the rejected
    promise), return after a failed update of the row without notifying
    anyone or calling [onTurnTimeout], or write the row, notify
    [nextPlayer] when the match goes on, and call [onTurnTimeout]. *)
Inductive timeoutOutcome :=
| TNoop
| TThrown
| TUpdateFailed
| TUpdated (row : matchRow) (notify : option string).

(** [handleTimeout(match)]; [nextTimeout] is the [turn_timeout_seconds]
    read for [nextPlayer] ([None] for a missing row or a null column),
    [now] is [Date.now()], and [updateOk] tells whether the update of the
    row returned no [updateError]. *)
Definition handleTimeout (m : matchRow) (nextTimeout : option Z) (now : Z) (updateOk : bool)
    : timeoutOutcome :=
  match m.(game_state) with
  | None => TNoop
  | Some gs =>
    match gs.(Engine.status) with
    | Engine.Complete => TNoop
    | Engine.Active =>
      match m.(current_turn_agent_id) with
      | None => TThrown                      (* [agentId.slice(0, 8)] on null *)
      | Some agentId =>
        match Engine.processMove gs agentId Server.SKIP now with
        | (Engine.MoveCrash, _) => TThrown
        | (_, gs') =>
          let nextPlayer := find (fun id => negb (String.eqb id agentId))
                                 [m.(player_1); m.(player_2)] in
          let timeoutSec := match nextTimeout with
                            | Some t => if t =? 0 then 300 else t
                            | None => 300 end in
          let newDeadline := now + timeoutSec * 1000 in
          let complete := match gs'.(Engine.status) with
                          | Engine.Complete => true | Engine.Active => false end in
          if negb updateOk then TUpdateFailed else
          TUpdated {| mr_id := m.(mr_id); game_state := Some gs';
                      current_turn_agent_id := if complete then None else nextPlayer;
                      player_1 := m.(player_1); player_2 := m.(player_2);
                      turn_deadline := if complete then None else Some newDeadline;
                      turn_number := gs'.(Engine.turn); mr_status := gs'.(Engine.status);
                      mr_winner := gs'.(Engine.winner);
                      ended_at := if complete then Some now else None |}
                   (if complete then None else nextPlayer)
        end
      end
    end
  end.

End MatchmakerV2.

(** ** Auxiliary definitions for the properties *)

Module Aux.

Import Engine.

(** Every sanctuary sector of [g] is still a sanctuary sector in [g']. *)
Definition sanct_kept (g g' : list (string * sector)) : Prop :=
  forall k x, AList.get k g = Some x -> sanctuary x = true ->
  exists y, AList.get k g' = Some y /\ sanctuary y = true.

(** The match states reachable from [s] through resolved commands. *)
Inductive reachable (s : state) : state -> Prop :=
| reach_refl : reachable s s
| reach_step t a c now r t' :
    reachable s t -> processMove t a c now = (r, t') -> reachable s t'.


(** The match state with every log timestamp ([Date.now()]) cleared. *)
Definition strip_entry (e : logEntry) : logEntry :=
  {| l_turn := e.(l_turn); l_agentId := e.(l_agentId); l_action := e.(l_action);
     l_targetSector := e.(l_targetSector); l_intensity := e.(l_intensity);
     l_result := e.(l_result); l_upkeep := e.(l_upkeep); l_victory := e.(l_victory);
     l_timestamp := 0 |}.

Definition strip_ts (s : state) : state :=
  {| match_id := s.(match_id); players := s.(players); grid := s.(grid); turn := s.(turn);
     currentPlayer := s.(currentPlayer); status := s.(status); winner := s.(winner);
     log := map strip_entry s.(log) |}.

(** The energy cost [executeConquer] charges. *)
Definition conquerCost (pl : player) (i : Num.num) : Num.num :=
  Num.floor (Num.mul (Num.mul (Num.ofZ COST_CONQUER_BASE) i)
                     (if hasTech pl "BLITZ" then BLITZ_conquerCostMultiplier else Num.Fin 1)).

(** Concrete matches used by the witnesses and counterexamples. *)
Definition pop8 (r c : Z) : Z := 8.

Definition demo : state := initMatch "m" pop8 "A" "B".

Definition cmd (act : string) (t : option string) (i : option Num.num) : command :=
  {| action := act; targetSector := t; intensity := i; techId := None |}.

(** [demo] where A already holds the SANCTUARY tech. *)
Definition demoMercy : state :=
  upd_player demo "A" (with_tech (newPlayer "A") ["SANCTUARY"]).

(** A has granted MERCY to its home sector, then B has passed. *)
Definition afterMercy : state :=
  snd (processMove demoMercy "A" (cmd "MERCY" (Some "SEC-0-0") None) 0).
Definition afterMercySkip : state := snd (processMove afterMercy "B" Server.SKIP 1).

Definition homeSanct : sector :=
  {| sec_id := "SEC-0-0"; row := 0; col := 0; owner := Some "A"; population := 10;
     defense := 10; developed := false; sanctuary := true |}.

(** [n] rounds in which A and then B pass, the first move at time [t]. *)
Fixpoint skipRounds (n : nat) (s : state) (t : Z) : state :=
  match n with
  | O => s
  | S k => skipRounds k (snd (processMove (snd (processMove s "A" Server.SKIP t))
                                          "B" Server.SKIP (t + 1))) (t + 2)
  end.

(** [demo] after eight rounds of passes: A's energy has fallen by 15 per
    pass to -20 (two bankrupt turns), and A is to move. *)
Definition demoBroke : state := skipRounds 8 demo 0.

(** In [demo], A attacks [SEC-0-1] with intensity [-1e16]: the attack is
    repelled and its cost of [-2.5e17] raises A's energy to the double
    250000000000000096; then B passes. *)
Definition hugeAttack : command :=
  cmd "CONQUER" (Some "SEC-0-1") (Some (Num.ofZ (-10000000000000000))).
Definition afterHuge : state := snd (processMove demo "A" hugeAttack 0).
Definition afterHugeSkip : state := snd (processMove afterHuge "B" Server.SKIP 1).

(** The energy 250000000000000096 as a JS number. *)
Definition hugeEnergy : Num.num := Num.ofZ 250000000000000096.

(** Two matchmaking rows, and the V2 match where the coin picks the second. *)
Definition agentA : MatchmakerV2.agentRow :=
  {| MatchmakerV2.a_id := "A"; MatchmakerV2.a_name := "alpha"; MatchmakerV2.a_elo_rating := 1000 |}.
Definition agentB : MatchmakerV2.agentRow :=
  {| MatchmakerV2.a_id := "B"; MatchmakerV2.a_name := "beta"; MatchmakerV2.a_elo_rating := 1000 |}.
Definition v2BFirst : state := MatchmakerV2.createAsyncMatch "m" pop8 false agentA agentB.


(** A server running match [m] = [demo], with a challenge issued to A at
    time 1000 (its prefix is [4ff6e4478c510b9b]; the nonce 36716 solves it). *)
Definition sv0 : Server.server :=
  Server.startTurnTimer
    {| Server.activeMatches := [("m", demo)]; Server.activeChallenges := [] |} "m" "A" 1000.

Definition chA : Server.activeChallenge :=
  match AList.get "A" (Server.activeChallenges sv0) with
  | Some c => c
  | None => {| Server.ac_prefix := ""; Server.ac_difficulty := 0; Server.ac_matchId := "" |}
  end.

Definition longMono : string := "holding the line this turn".

(** A pass for match [m] with monologue [mono] and nonce [n]. *)
Definition moveMsg (mono : string) (n : Pow.jsnonce) : Server.message :=
  {| Server.msg_matchId := Some "m"; Server.msg_monologue := Some mono;
     Server.msg_move := Some Server.SKIP; Server.msg_nonce := n |}.



(** The agent ids of the entries already paired by [pairUp]. *)
Definition pairIds (ps : list (Matchmaker.entry * Matchmaker.entry * Z)) : list string :=
  flat_map (fun '(a, b, _) => [Matchmaker.agent_id a; Matchmaker.agent_id b]) ps.

(** Two rows of [agents] whose ratings are 1000 apart. *)
Definition agentLow : MatchmakerV2.agentRow :=
  {| MatchmakerV2.a_id := "L"; MatchmakerV2.a_name := "low"; MatchmakerV2.a_elo_rating := 1000 |}.
Definition agentHigh : MatchmakerV2.agentRow :=
  {| MatchmakerV2.a_id := "H"; MatchmakerV2.a_name := "high"; MatchmakerV2.a_elo_rating := 2000 |}.

(** A queue where entry "x" has waited 30 s and the others are fresh. *)
Definition qe (i : Z) (a : string) (elo t : Z) : Matchmaker.entry :=
  {| Matchmaker.e_id := i; Matchmaker.agent_id := a; Matchmaker.elo_rating := elo;
     Matchmaker.queued_at := t; Matchmaker.search_range := 100 |}.
Definition queue3 : list Matchmaker.entry :=
  [qe 1 "x" 1000 0; qe 2 "y" 1150 30000; qe 3 "z" 1090 30000].

End Aux.

(** * Properties *)

(** The SHA-256 model agrees with the standard test vectors. *)
Example sha256_abc :
  Sha256.hex "abc"
  = "ba7816bf8f01cfea414140de5dae2223b00361a396177a9cb410ff61f20015ad".
Proof. vm_compute. reflexivity. Qed.

Example sha256_empty :
  Sha256.hex ""
  = "e3b0c44298fc1c149afbf4c8996fb92427ae41e4649b934ca495991b7852b855".
Proof. vm_compute. reflexivity. Qed.


(** ** Association-list lemmas *)

Module AListFacts.

Section Facts.
Context {A : Type}.

Lemma get_set_same (k : string) (v : A) l : AList.get k (AList.set k v l) = Some v.
Proof.
  induction l as [|[k' v'] r IH]; simpl.
  - rewrite String.eqb_refl. reflexivity.
  - destruct (String.eqb k k') eqn:E; simpl; rewrite E; [reflexivity | exact IH].
Qed.

Lemma get_set_other (k k' : string) (v : A) l :
  k <> k' -> AList.get k' (AList.set k v l) = AList.get k' l.
Proof.
  intros Hne. induction l as [|[k0 v0] r IH]; simpl.
  - destruct (String.eqb k' k) eqn:E; [|reflexivity].
    apply String.eqb_eq in E. congruence.
  - destruct (String.eqb k k0) eqn:E; simpl.
    + apply String.eqb_eq in E. subst k0.
      destruct (String.eqb k' k) eqn:E'; [apply String.eqb_eq in E'; congruence|reflexivity].
    + destruct (String.eqb k' k0); [reflexivity | exact IH].
Qed.

Lemma set_get (k : string) (v : A) l : AList.get k l = Some v -> AList.set k v l = l.
Proof.
  induction l as [|[k0 v0] r IH]; simpl; [discriminate|].
  destruct (String.eqb k k0) eqn:E.
  - intros H. inversion H. reflexivity.
  - intros H. rewrite (IH H). reflexivity.
Qed.

Lemma get_del_same (k : string) (l : list (string * A)) : AList.get k (AList.del k l) = None.
Proof.
  unfold AList.del. induction l as [|[k0 v0] r IH]; simpl; [reflexivity|].
  destruct (String.eqb k k0) eqn:E; simpl; [exact IH|].
  rewrite E. exact IH.
Qed.

Lemma get_del_other (k k' : string) (l : list (string * A)) :
  k <> k' -> AList.get k' (AList.del k l) = AList.get k' l.
Proof.
  intros Hne. unfold AList.del. induction l as [|[k0 v0] r IH]; simpl; [reflexivity|].
  destruct (String.eqb k k0) eqn:E; simpl.
  - apply String.eqb_eq in E. subst k0.
    destruct (String.eqb k' k) eqn:E'; [apply String.eqb_eq in E'; congruence | exact IH].
  - destruct (String.eqb k' k0); [reflexivity | exact IH].
Qed.

Lemma keys_set (k : string) (v : A) l :
  In k (AList.keys l) -> AList.keys (AList.set k v l) = AList.keys l.
Proof.
  induction l as [|[k0 v0] r IH]; simpl; [contradiction|].
  intros Hin. destruct (String.eqb k k0) eqn:E; simpl; [reflexivity|].
  destruct Hin as [Heq|Hin]; [subst; rewrite String.eqb_refl in E; discriminate|].
  rewrite (IH Hin). reflexivity.
Qed.

Lemma get_in_keys (k : string) (v : A) l : AList.get k l = Some v -> In k (AList.keys l).
Proof.
  induction l as [|[k0 v0] r IH]; simpl; [discriminate|].
  destruct (String.eqb k k0) eqn:E; intros H.
  - left. symmetry. apply String.eqb_eq. exact E.
  - right. exact (IH H).
Qed.

End Facts.

End AListFacts.

(** ** Rounding of JS numbers *)

Module NumFacts.

Import Num.

Lemma two_nz : ~ inject_Z 2 == 0.
Proof. unfold Qeq; simpl; lia. Qed.

Lemma two_ge1 : (1 <= inject_Z 2)%Q.
Proof. unfold Qle; simpl; lia. Qed.

Lemma pow2_pos k : (0 < pow2 k)%Q.
Proof. apply Qpower_0_lt. reflexivity. Qed.

Lemma pow2_add a b : pow2 (a + b) == pow2 a * pow2 b.
Proof. apply Qpower_plus. exact two_nz. Qed.

Lemma pow2_Z k : 0 <= k -> pow2 k == inject_Z (2 ^ k).
Proof. intros H. symmetry. apply Zpower_Qpower. exact H. Qed.

Lemma pow2_le a b : a <= b -> (pow2 a <= pow2 b)%Q.
Proof. intros H. apply Qpower_le_compat_l; [exact H | exact two_ge1]. Qed.

(** [2^k] for a negative [k] is [1 # 2^(-k)]. *)
Lemma pow2_neg k : k < 0 -> pow2 k == 1 # Z.to_pos (2 ^ (- k)).
Proof.
  intros Hk. replace k with (- (- k)) at 1 by lia. unfold pow2. rewrite Qpower_opp.
  rewrite <- Zpower_Qpower by lia. rewrite Qmake_Qdiv.
  rewrite Z2Pos.id by (apply Z.pow_pos_nonneg; lia).
  unfold Qdiv. rewrite Qmult_1_l. reflexivity.
Qed.

Lemma div_even_bounds N D : 0 < D -> N / D <= div_even N D <= N / D + 1.
Proof.
  intros HD. unfold div_even. destruct (Z.compare _ _); [destruct (Z.even _)|..]; lia.
Qed.

Lemma div_even_exact N D : 0 < D -> N mod D = 0 -> div_even N D = N / D.
Proof.
  intros HD Hm. unfold div_even. rewrite Hm.
  replace (Z.compare (2 * 0) D) with Lt by (symmetry; apply Z.compare_lt_iff; lia).
  reflexivity.
Qed.

Lemma div_even_nonneg N D : 0 <= N -> 0 < D -> 0 <= div_even N D.
Proof.
  intros HN HD. pose proof (div_even_bounds N D HD). pose proof (Z.div_pos N D HN HD). lia.
Qed.

Lemma ilog2_le n d : ilog2 n d <= Z.log2 n - Z.log2 d.
Proof. unfold ilog2. cbv zeta. destruct (if 0 <=? _ then _ else _); lia. Qed.

(** The quotient [n/d] of positive integers is at least [2^(log2 n - log2 d - 1)]. *)
Lemma ratio_lower n d :
  0 < n -> (pow2 (Z.log2 n - Z.log2 d - 1) <= n # Z.to_pos d)%Q \/ d <= 0.
Proof.
  intros Hn. destruct (Z.le_gt_cases d 0) as [Hd|Hd]; [right; exact Hd|left].
  pose proof (Z.log2_spec n Hn) as [Hn1 _]. pose proof (Z.log2_spec d Hd) as [_ Hd2].
  pose proof (Z.log2_nonneg n). pose proof (Z.log2_nonneg d).
  replace (Z.log2 n - Z.log2 d - 1) with (Z.log2 n + (- (Z.log2 d + 1))) by lia.
  rewrite pow2_add, pow2_Z by lia. unfold pow2 at 1. rewrite Qpower_opp.
  rewrite <- Zpower_Qpower by lia.
  assert (HB : 0 < 2 ^ (Z.log2 d + 1)) by (apply Z.pow_pos_nonneg; lia).
  assert (E : inject_Z (2 ^ Z.log2 n) * / inject_Z (2 ^ (Z.log2 d + 1))
              == 2 ^ Z.log2 n # Z.to_pos (2 ^ (Z.log2 d + 1))).
  { rewrite Qmake_Qdiv, Z2Pos.id by exact HB. reflexivity. }
  rewrite E. unfold Qle; cbn [Qnum Qden].
  rewrite !Z2Pos.id by lia. nia.
Qed.

(** The two shapes of [round x] for [x <> 0]. *)
Lemma round_shape x :
  Qnum x <> 0 ->
  let n := Z.abs (Qnum x) in let d := Zpos (Qden x) in
  let k := Z.max (ilog2 n d - 52) (-1074) in
  let m := if k <? 0 then div_even (n * 2 ^ (- k)) d else div_even n (d * 2 ^ k) in
  (round x = (if 0 <? Qnum x then PInf else NInf) /\ 0 <= k) \/
  round x = Fin (Qred (inject_Z (Z.sgn (Qnum x) * m) * pow2 k)).
Proof.
  intros Hn n d k m. subst n d k m. unfold round. cbv zeta.
  rewrite (proj2 (Z.eqb_neq _ _)) by lia.
  destruct (_ && _) eqn:E; [left; split; [reflexivity|]|right; reflexivity].
  apply andb_prop in E. destruct E as [E _]. apply Z.leb_le in E. exact E.
Qed.

(** The scaled quotient that [round] rounds bounds every integer [c]
    with [c * 2^k <= |x|]. *)
Lemma scaled_lower x k c :
  Qnum x <> 0 -> (inject_Z c * pow2 k <= Qabs x)%Q ->
  c <= (if k <? 0 then (Z.abs (Qnum x) * 2 ^ (- k)) / Zpos (Qden x)
        else Z.abs (Qnum x) / (Zpos (Qden x) * 2 ^ k)).
Proof.
  intros Hn H. destruct x as [p q]. cbn [Qnum Qden] in *. unfold Qabs in H.
  destruct (k <? 0) eqn:Hk.
  - apply Z.ltb_lt in Hk. rewrite pow2_neg in H by exact Hk.
    assert (HP : 0 < 2 ^ (- k)) by (apply Z.pow_pos_nonneg; lia).
    apply Z.div_le_lower_bound; [lia|].
    unfold Qle, Qmult, inject_Z in H; cbn [Qnum Qden] in H. rewrite Pos2Z.inj_mul, Z2Pos.id in H by exact HP.
    nia.
  - apply Z.ltb_ge in Hk. rewrite pow2_Z in H by exact Hk.
    assert (HP : 0 < 2 ^ k) by (apply Z.pow_pos_nonneg; lia).
    apply Z.div_le_lower_bound; [nia|].
    unfold Qle, Qmult, inject_Z in H; cbn [Qnum Qden] in H. nia.
Qed.

(** The magnitude [m * 2^k] that [round] produces is at least every
    [2^j <= |x|] with [j >= -1074]. *)
Lemma value_lower x j :
  Qnum x <> 0 -> -1074 <= j -> (pow2 j <= Qabs x)%Q ->
  let n := Z.abs (Qnum x) in let d := Zpos (Qden x) in
  let k := Z.max (ilog2 n d - 52) (-1074) in
  let m := if k <? 0 then div_even (n * 2 ^ (- k)) d else div_even n (d * 2 ^ k) in
  (pow2 j <= inject_Z m * pow2 k)%Q.
Proof.
  intros Hn Hj H n d k m.
  assert (Hd : 0 < d) by (subst d; lia). assert (Hpos : 0 < n) by (subst n; lia).
  assert (Hm : forall c, (inject_Z c * pow2 k <= Qabs x)%Q -> c <= m).
  { intros c Hc. pose proof (scaled_lower x k c Hn Hc) as Hl.
    change (c <= (if k <? 0 then (n * 2 ^ (- k)) / d else n / (d * 2 ^ k))) in Hl.
    subst m. destruct (k <? 0) eqn:Hkb.
    - pose proof (div_even_bounds (n * 2 ^ (- k)) d ltac:(lia)). lia.
    - apply Z.ltb_ge in Hkb. assert (0 < 2 ^ k) by (apply Z.pow_pos_nonneg; lia).
      pose proof (div_even_bounds n (d * 2 ^ k) ltac:(lia)). lia. }
  destruct (Z.le_gt_cases k j) as [Hkj|Hkj].
  - assert (E : pow2 j == inject_Z (2 ^ (j - k)) * pow2 k).
    { rewrite <- pow2_Z by lia. rewrite <- pow2_add. replace (j - k + k) with j by lia. reflexivity. }
    rewrite E in H |- *. apply Qmult_le_compat_r; [|apply Qlt_le_weak, pow2_pos].
    rewrite <- Zle_Qle. apply Hm. exact H.
  - assert (Hk : k = ilog2 n d - 52) by lia.
    assert (Hw : (pow2 k <= Qabs x)%Q).
    { destruct (ratio_lower n d Hpos) as [Hr|Hr]; [|subst d; lia].
      eapply Qle_trans; [|eapply Qle_trans; [exact Hr|]].
      - apply pow2_le. pose proof (ilog2_le n d). lia.
      - subst n d. destruct x as [p q]. unfold Qabs. cbn [Qnum Qden]. apply Qle_refl. }
    apply (Qle_trans _ (pow2 k)); [apply pow2_le; lia|].
    rewrite <- (Qmult_1_l (pow2 k)) at 1. apply Qmult_le_compat_r; [|apply Qlt_le_weak, pow2_pos].
    change 1%Q with (inject_Z 1). rewrite <- Zle_Qle. apply Hm. rewrite Qmult_1_l. exact Hw.
Qed.

Lemma Qred_inject_Z z : Qred (inject_Z z) = inject_Z z.
Proof.
  unfold Qred, inject_Z. pose proof (Z.ggcd_gcd z 1) as Hg.
  pose proof (Z.ggcd_correct_divisors z 1) as Hd.
  destruct (Z.ggcd z 1) as [g [a b]]. cbn [fst] in Hg. rewrite Z.gcd_1_r in Hg. subst g.
  destruct Hd as [Ha Hb]. rewrite Z.mul_1_l in Ha, Hb. subst a b. reflexivity.
Qed.

Lemma ilog2_int n : 0 < n -> ilog2 n 1 = Z.log2 n.
Proof.
  intros Hn. unfold ilog2. cbv zeta. change (Z.log2 1) with 0. rewrite Z.sub_0_r.
  pose proof (Z.log2_nonneg n). pose proof (Z.log2_spec n Hn) as [H1 _].
  rewrite (proj2 (Z.leb_le _ _)) by lia. rewrite (proj2 (Z.ltb_ge _ _)) by lia. reflexivity.
Qed.

(** Every integer of magnitude at most [2^53] is a double. *)
Lemma round_Z z : Z.abs z <= 2 ^ 53 -> round (inject_Z z) = Fin (inject_Z z).
Proof.
  intros Hz. destruct (Z.eq_dec z 0) as [->|Hnz]; [reflexivity|].
  unfold round. cbv zeta. cbn [Qnum Qden inject_Z].
  rewrite (proj2 (Z.eqb_neq _ _)) by lia.
  assert (Hn : 0 < Z.abs z) by lia.
  rewrite ilog2_int by exact Hn.
  pose proof (Z.log2_spec _ Hn) as [HL1 HL2].
  assert (HL : Z.log2 (Z.abs z) <= 53).
  { rewrite <- (Z.log2_pow2 53) by lia. apply Z.log2_le_mono. exact Hz. }
  pose proof (Z.log2_nonneg (Z.abs z)).
  rewrite Z.max_l by lia.
  assert (Hsg : Z.sgn z * Z.abs z = z) by lia.
  f_equal.
  destruct (Z.log2 (Z.abs z) - 52 <? 0) eqn:Hk.
  - apply Z.ltb_lt in Hk.
    rewrite div_even_exact by (try rewrite Z.mod_1_r; lia). rewrite Z.div_1_r.
    rewrite (proj2 (Z.leb_gt _ _)) by lia. cbn [andb]. f_equal.
    rewrite <- (Qred_inject_Z z). apply Qred_complete.
    rewrite pow2_neg by exact Hk.
    assert (HP : 0 < 2 ^ (- (Z.log2 (Z.abs z) - 52))) by (apply Z.pow_pos_nonneg; lia).
    unfold Qeq, Qmult, inject_Z; cbn [Qnum Qden]. rewrite Pos2Z.inj_mul, Z2Pos.id by exact HP.
    nia.
  - apply Z.ltb_ge in Hk.
    set (k := Z.log2 (Z.abs z) - 52) in *.
    assert (Hdiv : Z.abs z mod (1 * 2 ^ k) = 0).
    { destruct (Z.eq_dec k 0) as [E|E]; [rewrite E; apply Z.mod_1_r|].
      assert (Hk1 : k = 1) by lia.
      assert (E2 : Z.abs z = 2 ^ 53).
      { apply Z.le_antisymm; [exact Hz|]. replace 53 with (Z.log2 (Z.abs z)) by lia. exact HL1. }
      rewrite Hk1, E2. reflexivity. }
    assert (HP : 0 < 1 * 2 ^ k) by (pose proof (Z.pow_pos_nonneg 2 k); lia).
    rewrite div_even_exact by assumption.
    pose proof (Z.div_exact (Z.abs z) (1 * 2 ^ k) ltac:(lia)) as [_ Hex].
    specialize (Hex Hdiv).
    rewrite (proj2 (Z.leb_le 0 k)) by lia.
    rewrite (proj2 (Z.leb_gt _ _)); [cbn [andb]; f_equal|].
    + rewrite <- (Qred_inject_Z z). apply Qred_complete.
      rewrite pow2_Z by lia. rewrite <- inject_Z_mult. apply inject_Z_injective.
      rewrite Z.mul_1_l in Hex |- *. rewrite <- Z.mul_assoc, (Z.mul_comm (_ / _)), <- Hex.
      exact Hsg.
    + rewrite Z.mul_1_l in *. rewrite Z.mul_comm, <- Hex.
      apply (Z.le_lt_trans _ (2 ^ 53)); [exact Hz|]. apply Z.pow_lt_mono_r; lia.
Qed.

Lemma Fin_inj a b : Fin a = Fin b -> a = b.
Proof. intros H. injection H. auto. Qed.

Lemma round_zero x : Qnum x = 0 -> round x = Fin 0.
Proof. intros H. unfold round. rewrite H. reflexivity. Qed.

(** A number at most [-2^j] (with [j >= -1074]) rounds to a double at
    most [-2^j], or to [-Infinity]. *)
Lemma round_le_neg x j :
  -1074 <= j -> (x <= - pow2 j)%Q ->
  round x = NInf \/ exists y, round x = Fin y /\ (y <= - pow2 j)%Q.
Proof.
  intros Hj Hx. pose proof (pow2_pos j) as Hp.
  assert (Hlt : (x < 0)%Q).
  { eapply Qle_lt_trans; [exact Hx|]. apply (Qplus_lt_l _ _ (pow2 j)). ring_simplify. exact Hp. }
  assert (Hn : Qnum x < 0) by (destruct x as [p q]; unfold Qlt in Hlt; cbn in *; lia).
  assert (Hab : (pow2 j <= Qabs x)%Q).
  { rewrite Qabs_neg by (apply Qlt_le_weak; exact Hlt).
    apply (Qplus_le_l _ _ (x - pow2 j)). ring_simplify. ring_simplify in Hx. exact Hx. }
  pose proof (value_lower x j ltac:(lia) Hj Hab) as V. cbv zeta in V.
  destruct (round_shape x ltac:(lia)) as [[E _]|E].
  - left. rewrite E. rewrite (proj2 (Z.ltb_ge _ _)) by lia. reflexivity.
  - right. eexists; split; [exact E|]. rewrite Qred_correct.
    replace (Z.sgn (Qnum x)) with (-1) by lia. rewrite inject_Z_mult.
    set (v := inject_Z (if _ <? 0 then _ else _)) in *.
    change (inject_Z (-1)) with (- 1)%Q.
    setoid_replace (- 1 * v * pow2 (Z.max (ilog2 (Z.abs (Qnum x)) (QDen x) - 52) (-1074)))%Q
      with (- (v * pow2 (Z.max (ilog2 (Z.abs (Qnum x)) (QDen x) - 52) (-1074))))%Q by ring.
    apply Qopp_le_compat. exact V.
Qed.

Lemma scaled_nonneg n d k :
  0 <= n -> 0 < d ->
  0 <= (if k <? 0 then div_even (n * 2 ^ (- k)) d else div_even n (d * 2 ^ k)).
Proof.
  intros Hn Hd. destruct (k <? 0) eqn:Hk.
  - apply div_even_nonneg; [|exact Hd]. apply Z.mul_nonneg_nonneg; [exact Hn|]. apply Z.pow_nonneg. lia.
  - apply Z.ltb_ge in Hk. apply div_even_nonneg; [exact Hn|].
    apply Z.mul_pos_pos; [exact Hd|]. apply Z.pow_pos_nonneg; [lia|exact Hk].
Qed.

(** A non-negative number rounds to a non-negative double or to [Infinity]. *)
Lemma round_nonneg x :
  (0 <= x)%Q -> round x = PInf \/ exists y, round x = Fin y /\ (0 <= y)%Q.
Proof.
  intros Hx. destruct (Z.eq_dec (Qnum x) 0) as [H0|Hn].
  - right. exists 0%Q. split; [apply round_zero; exact H0 | apply Qle_refl].
  - assert (Hp : 0 < Qnum x) by (destruct x as [p q]; unfold Qle in Hx; cbn in *; lia).
    destruct (round_shape x Hn) as [[E _]|E].
    + left. rewrite E. rewrite (proj2 (Z.ltb_lt _ _)) by lia. reflexivity.
    + right. eexists; split; [exact E|]. rewrite Qred_correct.
      replace (Z.sgn (Qnum x)) with 1 by lia. rewrite Z.mul_1_l.
      apply Qmult_le_0_compat; [|apply Qlt_le_weak, pow2_pos].
      change 0%Q with (inject_Z 0). rewrite <- Zle_Qle.
      apply scaled_nonneg; [lia|apply Pos2Z.is_pos].
Qed.

(** A non-zero double is at least [2^-1074] in magnitude. *)
Lemma round_fin_small x y :
  round x = Fin y -> y == 0 \/ (pow2 (-1074) <= Qabs y)%Q.
Proof.
  intros H. destruct (Z.eq_dec (Qnum x) 0) as [H0|Hn].
  - rewrite round_zero in H by exact H0. apply Fin_inj in H. subst y. left. reflexivity.
  - destruct (round_shape x Hn) as [[E _]|E]; rewrite E in H;
      [destruct (0 <? Qnum x); discriminate|].
    apply Fin_inj in H. subst y.
    set (k := Z.max _ (-1074)). set (m := if k <? 0 then _ else _).
    assert (Hk : -1074 <= k) by (subst k; lia).
    assert (Hm : 0 <= m).
    { subst m. apply scaled_nonneg; [lia|apply Pos2Z.is_pos]. }
    destruct (Z.eq_dec m 0) as [Hm0|Hm0].
    + left. eapply Qeq_trans; [apply Qred_correct|]. rewrite Hm0, Z.mul_0_r. reflexivity.
    + right. rewrite (Qabs_wd _ _ (Qred_correct _)). rewrite Qabs_Qmult, (Qabs_pos (pow2 k)) by (apply Qlt_le_weak, pow2_pos).
      apply (Qle_trans _ (pow2 k)); [apply pow2_le; exact Hk|].
      rewrite <- (Qmult_1_l (pow2 k)) at 1. apply Qmult_le_compat_r; [|apply Qlt_le_weak, pow2_pos].
      unfold Qabs, inject_Z. unfold Qle; cbn [Qnum Qden]. lia.
Qed.

Lemma floor_neg y : (y < 0)%Q -> exists c, floor (Fin y) = Fin (inject_Z c) /\ c <= -1.
Proof.
  intros Hy. exists (Qfloor y). split; [reflexivity|].
  assert (H : (inject_Z (Qfloor y) < inject_Z 0)%Q)
    by (eapply Qle_lt_trans; [apply Qfloor_le | exact Hy]).
  rewrite <- Zlt_Qlt in H. lia.
Qed.

Lemma add_Z a b : add (Fin (inject_Z a)) (Fin (inject_Z b)) = round (inject_Z (a + b)).
Proof. unfold add, Qplus, inject_Z. cbn [Qnum Qden]. rewrite !Z.mul_1_r. reflexivity. Qed.

Lemma sub_Z a b : sub (Fin (inject_Z a)) (Fin (inject_Z b)) = round (inject_Z (a - b)).
Proof. apply (add_Z a (- b)). Qed.

(** Integer addition and subtraction are exact up to [2^53]. *)
Lemma add_exact a b :
  Z.abs (a + b) <= 2 ^ 53 -> add (Fin (inject_Z a)) (Fin (inject_Z b)) = Fin (inject_Z (a + b)).
Proof. intros H. rewrite add_Z. apply round_Z. exact H. Qed.

Lemma sub_exact a b :
  Z.abs (a - b) <= 2 ^ 53 -> sub (Fin (inject_Z a)) (Fin (inject_Z b)) = Fin (inject_Z (a - b)).
Proof. intros H. rewrite sub_Z. apply round_Z. exact H. Qed.

Lemma ofZ_exact z : Z.abs z <= 2 ^ 53 -> ofZ z = Fin (inject_Z z).
Proof. apply round_Z. Qed.
(** A product of a number at most [-2^j] with a factor of at least [1/2]
    rounds to at most [-2^(j-1)], or to [-Infinity]. *)
Lemma mul_le_neg y c j :
  -1074 <= j - 1 -> (y <= - pow2 j)%Q -> (1 # 2 <= c)%Q ->
  round (y * c) = NInf \/ exists y', round (y * c) = Fin y' /\ (y' <= - pow2 (j - 1))%Q.
Proof.
  intros Hj Hy Hc. apply round_le_neg; [exact Hj|].
  pose proof (pow2_pos j) as Hp.
  assert (E : pow2 (j - 1) == pow2 j * (1 # 2)).
  { replace (j - 1) with (j + -1) by lia. rewrite pow2_add. reflexivity. }
  rewrite E. apply (Qle_trans _ (- pow2 j * c)).
  - apply Qmult_le_compat_r; [exact Hy|]. apply (Qle_trans _ (1 # 2)); [discriminate|exact Hc].
  - setoid_replace (- (pow2 j * (1 # 2)))%Q with (- pow2 j * (1 # 2))%Q by ring.
    setoid_replace (- pow2 j * c)%Q with (- (pow2 j * c))%Q by ring.
    setoid_replace (- pow2 j * (1 # 2))%Q with (- (pow2 j * (1 # 2)))%Q by ring.
    apply Qopp_le_compat. apply Qmult_le_l; [exact Hp|exact Hc].
Qed.
End NumFacts.

(** Splitting the conditionals and option matches of a definition. *)
Ltac break_goal :=
  repeat match goal with
  | |- context [if ?b then _ else _] => destruct b eqn:?
  | |- context [match ?x with Some _ => _ | None => _ end] => destruct x eqn:?
  end.

(** ** Turn order *)

Module Turns.

Import Engine.

Ltac close_frame :=
  cbn [players turn currentPlayer status upd_sector upd_player set_grid set_players];
  repeat split;
  first [ reflexivity
        | apply AListFacts.keys_set; eapply AListFacts.get_in_keys; eassumption ].

(** A resolved action keeps the player ids, the turn counter, the current
    player and the status. *)
Lemma dispatch_frame s a c r s1 :
  dispatch s a c = Some (Some (ExecOk r, s1)) ->
  AList.keys (players s1) = AList.keys (players s) /\ turn s1 = turn s /\
  currentPlayer s1 = currentPlayer s /\ status s1 = status s.
Proof.
  unfold dispatch.
  destruct (String.eqb (action c) "CONQUER");
  [unfold executeConquer
  |destruct (String.eqb (action c) "PURGE");
  [unfold executePurge
  |destruct (String.eqb (action c) "FORTIFY");
  [unfold executeFortify
  |destruct (String.eqb (action c) "RESEARCH");
  [unfold executeResearch
  |destruct (String.eqb (action c) "MERCY");
  [unfold executeMercy
  |destruct (String.eqb (action c) "SKIP")]]]]];
  unfold getSector; break_goal; intros H; inversion H; subst; clear H; close_frame.
Qed.

(** A refused action leaves the state as it was. *)
Lemma dispatch_err s a c e s1 :
  dispatch s a c = Some (Some (ExecErr e, s1)) -> s1 = s.
Proof.
  unfold dispatch.
  destruct (String.eqb (action c) "CONQUER");
  [unfold executeConquer
  |destruct (String.eqb (action c) "PURGE");
  [unfold executePurge
  |destruct (String.eqb (action c) "FORTIFY");
  [unfold executeFortify
  |destruct (String.eqb (action c) "RESEARCH");
  [unfold executeResearch
  |destruct (String.eqb (action c) "MERCY");
  [unfold executeMercy
  |destruct (String.eqb (action c) "SKIP")]]]]];
  unfold getSector; break_goal; intros H; inversion H; subst; reflexivity.
Qed.

Lemma applyUpkeep_frame s a u s2 :
  applyUpkeep s a = Some (u, s2) ->
  AList.keys (players s2) = AList.keys (players s) /\ turn s2 = turn s /\
  In a (AList.keys (players s)).
Proof.
  unfold applyUpkeep. destruct (fold_left _ _ _) as [tp n].
  destruct (AList.get a (players s)) eqn:Hp; [|discriminate].
  intros H; inversion H; subst; clear H.
  split; [|split; [reflexivity|]]; [close_frame|eapply AListFacts.get_in_keys; eassumption].
Qed.

(** A move that [processMove] refuses leaves the match state unchanged. *)
Lemma processMove_err s a c now e s' :
  processMove s a c now = (MoveErr e, s') -> s' = s.
Proof.
  unfold processMove.
  destruct (negb _); [intros H; inversion H; reflexivity|].
  destruct (status s); [|intros H; inversion H; reflexivity].
  destruct (dispatch s a c) as [[[[r|e1] s1]|]|] eqn:Hd;
    [| |discriminate|intros H; inversion H; reflexivity].
  - destruct (applyUpkeep s1 a) as [[u s2]|]; [|discriminate].
    destruct (checkVictory s2); discriminate.
  - intros H; inversion H; subst. exact (dispatch_err _ _ _ _ _ Hd).
Qed.

(** Two distinct participants [p1], [p2]: a resolved move hands the turn to
    the other one, and the counter grows when it passes to [p1]. *)
Lemma processMove_next (s : state) (a : string) (c : command) (now : Z) (r : actresult)
    (u : upkeepInfo) (v : option victory) (pub : publicState) (s' : state) (p1 p2 : string) :
  AList.keys (players s) = [p1; p2] -> p1 <> p2 ->
  processMove s a c now = (MoveOk r u v pub, s') ->
  (a = p1 /\ currentPlayer s' = p2 /\ turn s' = turn s) \/
  (a = p2 /\ currentPlayer s' = p1 /\ turn s' = turn s + 1).
Proof.
  intros Hk Hne Hm. unfold processMove in Hm.
  destruct (negb _); [discriminate|].
  destruct (status s); [|discriminate].
  destruct (dispatch s a c) as [[[[r1|e] s1]|]|] eqn:Hd; try discriminate.
  destruct (applyUpkeep s1 a) as [[u1 s2]|] eqn:Hu; [|discriminate].
  destruct (checkVictory s2) as [v1|]; [|discriminate].
  injection Hm as _ _ _ _ <-.
  destruct (Turns.dispatch_frame _ _ _ _ _ Hd) as [Hk1 [Ht1 _]].
  destruct (Turns.applyUpkeep_frame _ _ _ _ Hu) as [Hk2 [Ht2 Hin]].
  rewrite Hk1, Hk in Hin.
  assert (Hne' : String.eqb p2 p1 = false) by (apply String.eqb_neq; congruence).
  destruct v1 as [vv|]; cbn [set_turnptr set_end push_log players turn currentPlayer];
    rewrite Hk2, Hk1, Hk;
    (destruct Hin as [<-|[<-|[]]]; [left|right]);
    cbn [indexOf]; rewrite ?String.eqb_refl, ?Hne'; cbn [indexOf];
    rewrite ?String.eqb_refl; simpl; rewrite ?String.eqb_refl, ?Hne';
    repeat split; lia.
Qed.

End Turns.

(** ** The move handler *)

Module ServerFacts.

Import Engine Server.

Lemma get_del_none {A} (k : string) (l : list (string * A)) : AList.get k (AList.del k l) = None.
Proof.
  induction l as [|[k0 v0] r IH]; simpl; [reflexivity|].
  destruct (String.eqb k k0) eqn:E; simpl; [exact IH|]. rewrite E. exact IH.
Qed.

(** Without a challenge the handler answers with an error and changes
    nothing. *)
Lemma handleMove_no_challenge sv a m now :
  AList.get a (activeChallenges sv) = None ->
  handleMove sv a m now = (sv, ErrNoActiveChallenge) \/
  handleMove sv a m now = (sv, ErrFieldsRequired).
Proof.
  intros H. unfold handleMove.
  destruct (truthy_str (msg_matchId m)), (msg_move m); try (right; reflexivity).
  rewrite H. left. reflexivity.
Qed.

(** A challenge for the message's match and a nonce that does not verify:
    the handler rejects the move and changes nothing. *)
Lemma handleMove_unverified sv a m now ch mid mv :
  AList.get a (activeChallenges sv) = Some ch -> truthy_str (msg_matchId m) = Some mid ->
  msg_move m = Some mv -> ac_matchId ch = mid ->
  Pow.verifyProof (ac_prefix ch) (ac_difficulty ch) (msg_nonce m) = false ->
  handleMove sv a m now = (sv, RejPowRequired) \/ handleMove sv a m now = (sv, RejPowInvalid).
Proof.
  intros Hc Ht Hm Hid Hv. unfold handleMove. rewrite Ht, Hm, Hc, Hid, String.eqb_refl.
  cbn [negb]. destruct (msg_nonce m); [rewrite Hv; right; reflexivity..|left; reflexivity].
Qed.

(** A verified nonce: the challenge is gone whatever follows, and a short
    monologue or a refused move leaves the matches as they were and is
    answered with the rejection. *)
Lemma handleMove_verified sv a m now ch mid mv :
  AList.get a (activeChallenges sv) = Some ch -> truthy_str (msg_matchId m) = Some mid ->
  msg_move m = Some mv -> ac_matchId ch = mid ->
  Pow.verifyProof (ac_prefix ch) (ac_difficulty ch) (msg_nonce m) = true ->
  activeChallenges (fst (handleMove sv a m now)) = AList.del a (activeChallenges sv) /\
  ((monologueTooShort (msg_monologue m) = true \/
    exists gs e, AList.get mid (activeMatches sv) = Some gs /\
                 fst (processMove gs a mv now) = MoveErr e) ->
   activeMatches (fst (handleMove sv a m now)) = activeMatches sv /\
   (snd (handleMove sv a m now) = ErrMonologue \/
    exists e, snd (handleMove sv a m now) = RejMove e)).
Proof.
  intros Hc Ht Hm Hid Hv. unfold handleMove. rewrite Ht, Hm, Hc, Hid, String.eqb_refl.
  cbn [negb].
  assert (Hn : msg_nonce m <> Pow.NonceNotNumber) by (intros E; rewrite E in Hv; discriminate).
  destruct (msg_nonce m) as [z| |]; [| |contradiction]; rewrite Hv; cbn [negb];
  (destruct (monologueTooShort (msg_monologue m)) eqn:Hmono;
   [split; [reflexivity|]; intros _; split; [reflexivity|left; reflexivity]|]);
  cbn [set_challenges activeMatches];
  (destruct (AList.get mid (activeMatches sv)) as [gs|] eqn:Hg;
   [|split; [reflexivity|]; intros [H|[gs0 [e0 [H1 H2]]]]; discriminate]);
  destruct (processMove gs a mv now) as [res gs'] eqn:Hp;
  (destruct res as [e|r u v pub|];
   [split; [reflexivity|]; intros _; split;
    [cbn [set_matches activeMatches set_challenges fst];
     rewrite (Turns.processMove_err _ _ _ _ _ _ Hp); apply AListFacts.set_get; exact Hg
    |right; exists e; reflexivity]
   | |split; [reflexivity|]; intros [H|[gs0 [e0 [H1 H2]]]]; [discriminate|];
     injection H1 as <-; rewrite Hp in H2; discriminate]);
  (split; [destruct (status gs'); reflexivity|]);
  intros [H|[gs0 [e0 [H1 H2]]]]; try discriminate;
  injection H1 as <-; rewrite Hp in H2; discriminate.
Qed.


End ServerFacts.

(** ** Matchmaking *)

Module MatchFacts.

Import Matchmaker.

Lemma scan_inv p1 l M best p2 d :
  scan p1 l M best = Some (p2, d) ->
  (best = Some (p2, d) \/
   (In p2 l /\ isMatched M (agent_id p2) = false /\ withinBoth p1 p2 = true /\
    d = Z.abs (elo_rating p1 - elo_rating p2))) /\
  (forall b bd, best = Some (b, bd) -> d <= bd) /\
  (forall q, In q l -> isMatched M (agent_id q) = false -> withinBoth p1 q = true ->
   d <= Z.abs (elo_rating p1 - elo_rating q)).
Proof.
  revert best. induction l as [|q0 r IH]; intros best H; cbn [scan] in H.
  - subst best. split; [left; reflexivity|]. split; [|intros q []].
    intros b bd E. injection E as _ <-. lia.
  - destruct (isMatched M (agent_id q0)) eqn:Hm.
    + destruct (IH best H) as [H1 [H2 H3]].
      split; [destruct H1 as [H1|[Hi H1]]; [left; exact H1|right; split; [right; exact Hi|exact H1]]|].
      split; [exact H2|]. intros q [<-|Hq] Hq1 Hq2; [congruence|exact (H3 q Hq Hq1 Hq2)].
    + destruct (withinBoth p1 q0) eqn:Hw.
      * destruct best as [[b0 bd0]|].
        -- destruct (Z.abs (elo_rating p1 - elo_rating q0) <? bd0) eqn:Hlt.
           ++ destruct (IH _ H) as [H1 [H2 H3]]. apply Z.ltb_lt in Hlt.
              specialize (H2 _ _ eq_refl).
              split; [destruct H1 as [H1|[Hi H1]];
                      [injection H1 as <- <-; right; split; [left; reflexivity|auto]
                      |right; split; [right; exact Hi|exact H1]]|].
              split; [intros b bd E; injection E as _ <-; lia|].
              intros q [<-|Hq] Hq1 Hq2; [exact H2|exact (H3 q Hq Hq1 Hq2)].
           ++ destruct (IH _ H) as [H1 [H2 H3]]. apply Z.ltb_ge in Hlt.
              specialize (H2 _ _ eq_refl).
              split; [destruct H1 as [H1|[Hi H1]];
                      [left; exact H1|right; split; [right; exact Hi|exact H1]]|].
              split; [intros b bd E; injection E as _ <-; exact H2|].
              intros q [<-|Hq] Hq1 Hq2; [lia|exact (H3 q Hq Hq1 Hq2)].
        -- destruct (IH _ H) as [H1 [H2 H3]].
           specialize (H2 _ _ eq_refl).
           split; [destruct H1 as [H1|[Hi H1]];
                   [injection H1 as <- <-; right; split; [left; reflexivity|auto]
                   |right; split; [right; exact Hi|exact H1]]|].
           split; [intros b bd E; discriminate|].
           intros q [<-|Hq] Hq1 Hq2; [exact H2|exact (H3 q Hq Hq1 Hq2)].
      * destruct (IH best H) as [H1 [H2 H3]].
        split; [destruct H1 as [H1|[Hi H1]]; [left; exact H1|right; split; [right; exact Hi|exact H1]]|].
        split; [exact H2|]. intros q [<-|Hq] Hq1 Hq2; [congruence|exact (H3 q Hq Hq1 Hq2)].
Qed.

Lemma scan_ext p1 l M1 M2 best :
  (forall x, isMatched M1 x = isMatched M2 x) -> scan p1 l M1 best = scan p1 l M2 best.
Proof.
  intros HM. revert best. induction l as [|q r IH]; intros best; cbn [scan]; [reflexivity|].
  rewrite HM. destruct (isMatched M2 (agent_id q)); [apply IH|].
  destruct (withinBoth p1 q); [|apply IH]. destruct best as [[b bd]|]; [|apply IH].
  destruct (_ <? bd); apply IH.
Qed.

Lemma isMatched_app M1 M2 x : isMatched (app M1 M2) x = isMatched M1 x || isMatched M2 x.
Proof. unfold isMatched. apply existsb_app. Qed.

Lemma isMatched_cons y M x : isMatched (y :: M) x = String.eqb x y || isMatched M x.
Proof. reflexivity. Qed.

Lemma pairUp_split l M outPre p1 p2 d outPost :
  pairUp l M = app outPre ((p1, p2, d) :: outPost) ->
  exists pre post, l = app pre (p1 :: post) /\
    isMatched (app (Aux.pairIds outPre) M) (agent_id p1) = false /\
    scan p1 post (app (Aux.pairIds outPre) M) None = Some (p2, d).
Proof.
  revert M outPre. induction l as [|x r IH]; intros M outPre H; cbn [pairUp] in H.
  - destruct outPre; discriminate.
  - destruct (isMatched M (agent_id x)) eqn:Hx.
    + destruct (IH M outPre H) as [pre [post [E [H1 H2]]]].
      exists (x :: pre), post. split; [rewrite E; reflexivity|]. split; assumption.
    + destruct (scan x r M None) as [[y e]|] eqn:Hs.
      * destruct outPre as [|o outPre'].
        -- injection H as <- <- <- _. exists [], r. split; [reflexivity|].
           split; [exact Hx|exact Hs].
        -- injection H as Ho H.
           destruct (IH _ _ H) as [pre [post [E [H1 H2]]]].
           assert (HM : forall z, isMatched (app (Aux.pairIds outPre') (agent_id y :: agent_id x :: M)) z
                                  = isMatched (app (Aux.pairIds (o :: outPre')) M) z).
           { intros z. subst o. unfold Aux.pairIds. cbn [flat_map app].
             unfold isMatched. cbn [existsb]. rewrite !existsb_app. cbn [existsb].
             destruct (String.eqb z (agent_id x)), (String.eqb z (agent_id y)); cbn [orb];
               rewrite ?Bool.orb_true_r; reflexivity. }
           exists (x :: pre), post. split; [rewrite E; reflexivity|].
           split; [rewrite <- HM; exact H1|].
           rewrite <- H2. symmetry. apply scan_ext. exact HM.
      * destruct (IH M outPre H) as [pre [post [E [H1 H2]]]].
        exists (x :: pre), post. split; [rewrite E; reflexivity|]. split; assumption.
Qed.

Lemma updateRanges_range now w x :
  In x (updateRanges now w) -> search_range x = newRange now x.
Proof.
  unfold updateRanges. intros H. apply in_map_iff in H. destruct H as [e [<- _]].
  destruct (newRange now e =? search_range e) eqn:E.
  - apply Z.eqb_eq in E. symmetry. exact E.
  - reflexivity.
Qed.

End MatchFacts.

(** ** Sanctuary *)

Module Sanctuary.

Import Engine Aux.

Lemma sanct_kept_refl g : sanct_kept g g.
Proof. intros k x H Hs. exists x. auto. Qed.

Lemma sanct_kept_trans g1 g2 g3 : sanct_kept g1 g2 -> sanct_kept g2 g3 -> sanct_kept g1 g3.
Proof.
  intros H12 H23 k x H Hs. destruct (H12 k x H Hs) as [y [Hy Hys]]. exact (H23 k y Hy Hys).
Qed.

Lemma sanct_kept_set g t y :
  (forall x, AList.get t g = Some x -> sanctuary x = true -> sanctuary y = true) ->
  sanct_kept g (AList.set t y g).
Proof.
  intros Hy k x Hk Hs. destruct (String.eqb t k) eqn:E.
  - apply String.eqb_eq in E. subst k. exists y.
    rewrite AListFacts.get_set_same. split; [reflexivity|]. exact (Hy x Hk Hs).
  - exists x. rewrite AListFacts.get_set_other; [auto|].
    intros ->. rewrite String.eqb_refl in E. discriminate.
Qed.

Ltac close_sanct :=
  cbn [grid upd_sector upd_player set_grid set_players];
  first [ apply sanct_kept_refl
        | apply sanct_kept_set; intros ?x ?Hx ?Hs; cbn;
          repeat match goal with
                 | H1 : AList.get ?t ?g = Some _, H2 : AList.get ?t ?g = Some _ |- _ =>
                     rewrite H1 in H2; injection H2 as <-
                 end; first [reflexivity | assumption | congruence] ].

Lemma dispatch_sanct s a c ex s1 :
  dispatch s a c = Some (Some (ex, s1)) -> sanct_kept (grid s) (grid s1).
Proof.
  unfold dispatch.
  destruct (String.eqb (action c) "CONQUER");
  [unfold executeConquer
  |destruct (String.eqb (action c) "PURGE");
  [unfold executePurge
  |destruct (String.eqb (action c) "FORTIFY");
  [unfold executeFortify
  |destruct (String.eqb (action c) "RESEARCH");
  [unfold executeResearch
  |destruct (String.eqb (action c) "MERCY");
  [unfold executeMercy
  |destruct (String.eqb (action c) "SKIP")]]]]];
  unfold getSector; break_goal; intros H; inversion H; subst; clear H; close_sanct.
Qed.

Lemma applyUpkeep_grid s a u s2 : applyUpkeep s a = Some (u, s2) -> grid s2 = grid s.
Proof.
  unfold applyUpkeep. destruct (fold_left _ _ _) as [tp n].
  destruct (AList.get a (players s)); intros H; inversion H; reflexivity.
Qed.

Lemma processMove_sanct s a c now r s' :
  processMove s a c now = (r, s') -> sanct_kept (grid s) (grid s').
Proof.
  unfold processMove.
  destruct (negb _); [intros H; inversion H; subst; apply sanct_kept_refl|].
  destruct (status s); [|intros H; inversion H; subst; apply sanct_kept_refl].
  destruct (dispatch s a c) as [[[[r0|e] s1]|]|] eqn:Hd;
    try (intros H; inversion H; subst; first [apply sanct_kept_refl | exact (dispatch_sanct _ _ _ _ _ Hd)]).
  pose proof (dispatch_sanct _ _ _ _ _ Hd) as Hk.
  destruct (applyUpkeep s1 a) as [[u s2]|] eqn:Hu; [|intros H; inversion H; subst; exact Hk].
  apply applyUpkeep_grid in Hu.
  destruct (checkVictory s2) as [v|];
    [destruct v|]; intros H; inversion H; subst; cbn; rewrite Hu; exact Hk.
Qed.

(** A PURGE aimed at a sanctuary sector is rejected and changes nothing. *)
Lemma purge_sanctuary_rejected s a c now k x :
  action c = "PURGE" -> targetSector c = Some k ->
  AList.get k (grid s) = Some x -> sanctuary x = true ->
  exists e, processMove s a c now = (MoveErr e, s).
Proof.
  intros Ha Ht Hk Hs. unfold processMove.
  destruct (negb _); [eexists; reflexivity|].
  destruct (status s); [|eexists; reflexivity].
  unfold dispatch. rewrite Ha. cbn. unfold executePurge, getSector. rewrite Ht, Hk.
  destruct (negb (ownedBy a (owner x))); [eexists; reflexivity|].
  destruct (population x =? 0); [eexists; reflexivity|].
  rewrite Hs. eexists; reflexivity.
Qed.

Lemma reachable_sanct s t : reachable s t -> sanct_kept (grid s) (grid t).
Proof.
  induction 1 as [|t a c now r t' _ IH Hp].
  - apply sanct_kept_refl.
  - exact (sanct_kept_trans _ _ _ IH (processMove_sanct _ _ _ _ _ _ Hp)).
Qed.

End Sanctuary.

(** ** Economy *)

Module Economy.

Import Engine.

Lemma upkeep_fold a l tp0 n0 :
  fold_left (fun '(tp, n) sec =>
               if ownedBy a sec.(owner) then (tp + sec.(population), n + 1) else (tp, n))
            l (tp0, n0)
  = (tp0 + fold_right (fun x acc => population x + acc) 0
                        (filter (fun x => ownedBy a (owner x)) l),
     n0 + Z.of_nat (length (filter (fun x => ownedBy a (owner x)) l))).
Proof.
  revert tp0 n0. induction l as [|x r IH]; intros tp0 n0; simpl.
  - f_equal; lia.
  - destruct (ownedBy a (owner x)); rewrite IH; cbn [fold_right length];
    rewrite ?Nat2Z.inj_succ; f_equal; lia.
Qed.

(** [applyUpkeep] for a player owning exactly the sector [sec]. *)
Lemma applyUpkeep_single s a pl sec :
  AList.get a (players s) = Some pl ->
  filter (fun x => ownedBy a (owner x)) (AList.values (grid s)) = [sec] ->
  exists u pl1,
    applyUpkeep s a = Some (u, upd_player s a pl1) /\
    energy pl1 = Num.add (energy pl)
                         (Num.ofZ (1 * SECTOR_YIELD - population sec * UPKEEP_PER_MILLION)).
Proof.
  intros Hp Hf. unfold applyUpkeep. rewrite upkeep_fold, Hf, Hp.
  eexists; eexists; split; [reflexivity|]. cbn [energy with_bankrupt with_compute with_energy].
  unfold SECTOR_YIELD, UPKEEP_PER_MILLION. cbn [fold_right length Z.of_nat].
  do 2 f_equal. lia.
Qed.

(** The cost multiplier is 1, or the double nearest 0.6 with BLITZ. *)
Lemma costMultiplier_half (pl : player) :
  exists c, (if hasTech pl "BLITZ" then BLITZ_conquerCostMultiplier else Num.Fin 1) = Num.Fin c
            /\ (1 # 2 <= c)%Q.
Proof.
  destruct (hasTech pl "BLITZ").
  - exists (5404319552844595 # 9007199254740992). split; [vm_compute; reflexivity|].
    apply Qle_bool_iff. vm_compute. reflexivity.
  - exists 1%Q. split; [reflexivity|]. discriminate.
Qed.

(** A negative intensity (a non-zero double, so at most [-2^-1074]) costs
    [-Infinity] or an integer at most -1. *)
Lemma conquerCost_neg (pl : player) (q : Q) :
  (q < 0)%Q -> Num.round q = Num.Fin q ->
  Aux.conquerCost pl (Num.Fin q) = Num.NInf \/
  exists c, Aux.conquerCost pl (Num.Fin q) = Num.Fin (inject_Z c) /\ c <= -1.
Proof.
  intros Hq Hd.
  assert (Hs : (Num.pow2 (-1074) <= - q)%Q).
  { destruct (NumFacts.round_fin_small q q Hd) as [H0|Hs].
    - exfalso. rewrite H0 in Hq. discriminate.
    - rewrite Qabs_neg in Hs; [exact Hs|]. apply Qlt_le_weak. exact Hq. }
  unfold Aux.conquerCost. unfold COST_CONQUER_BASE.
  rewrite NumFacts.ofZ_exact by (apply Z.leb_le; reflexivity).
  destruct (costMultiplier_half pl) as [c [Ec Hc]]. rewrite Ec.
  assert (H25 : (inject_Z 25 * q <= - Num.pow2 (-1070))%Q).
  { assert (E : (Num.pow2 (-1070) <= inject_Z 25 * Num.pow2 (-1074))%Q)
      by (apply Qle_bool_iff; vm_compute; reflexivity).
    apply (Qle_trans _ (- (inject_Z 25 * Num.pow2 (-1074)))).
    - setoid_replace (inject_Z 25 * q)%Q with (- (inject_Z 25 * - q))%Q by ring.
      apply Qopp_le_compat. apply Qmult_le_l; [reflexivity|exact Hs].
    - apply Qopp_le_compat. exact E. }
  cbn [Num.mul].
  destruct (NumFacts.round_le_neg _ (-1070) ltac:(lia) H25) as [E1|[y1 [E1 Hy1]]]; rewrite E1.
  - left. cbn [Num.mul Num.sign]. unfold Num.floor.
    assert (Hc0 : 0 < Qnum c) by (destruct c as [n d]; unfold Qle in Hc; cbn in *; lia).
    replace (Z.sgn (Qnum c)) with 1 by lia. reflexivity.
  - destruct (NumFacts.mul_le_neg y1 c (-1070) ltac:(lia) Hy1 Hc) as [E2|[y2 [E2 Hy2]]];
      cbn [Num.mul]; rewrite E2; [left; reflexivity|right].
    apply NumFacts.floor_neg. eapply Qle_lt_trans; [exact Hy2|].
    apply (Qplus_lt_l _ _ (Num.pow2 (-1070 - 1))). ring_simplify. apply NumFacts.pow2_pos.
Qed.

(** Rounds of passes stay reachable. *)
Lemma reach_skipRounds n s0 s t :
  Aux.reachable s0 s -> Aux.reachable s0 (Aux.skipRounds n s t).
Proof.
  revert s t. induction n as [|n IH]; intros s t Hr; [exact Hr|].
  cbn [Aux.skipRounds]. apply IH.
  eapply Aux.reach_step; [|apply surjective_pairing].
  eapply Aux.reach_step; [exact Hr|apply surjective_pairing].
Qed.

End Economy.

(** * The claims *)

Module Claims.

Import Engine Aux.

(** C3 (sanctuary invariant).  Along every sequence of resolved commands
    from a match state [s], a sector with [sanctuary = true] in [s] stays
    a sanctuary sector, and in every state [t] reached a PURGE against it
    is rejected and leaves [t] unchanged. *)
Theorem sanctuary_lifetime (s t : state) (k : string) (x : sector) :
  reachable s t -> AList.get k (grid s) = Some x -> sanctuary x = true ->
  (exists y, AList.get k (grid t) = Some y /\ sanctuary y = true) /\
  (forall a c now, action c = "PURGE" -> targetSector c = Some k ->
     exists e, processMove t a c now = (MoveErr e, t)).
Proof.
  intros Hr Hk Hs.
  destruct (Sanctuary.reachable_sanct _ _ Hr k x Hk Hs) as [y [Hy Hys]].
  split; [exists y; auto|].
  intros a c now Ha Ht. exact (Sanctuary.purge_sanctuary_rejected t a c now k y Ha Ht Hy Hys).
Qed.

Lemma sanctuary_lifetime_witness :
  reachable afterMercy afterMercySkip /\
  AList.get "SEC-0-0" (grid afterMercy) = Some homeSanct /\ sanctuary homeSanct = true /\
  ((exists y, AList.get "SEC-0-0" (grid afterMercySkip) = Some y /\ sanctuary y = true) /\
   (forall a c now, action c = "PURGE" -> targetSector c = Some "SEC-0-0" ->
      exists e, processMove afterMercySkip a c now = (MoveErr e, afterMercySkip))).
Proof.
  assert (Hr : reachable afterMercy afterMercySkip).
  { apply (reach_step _ afterMercy "B" Server.SKIP 1
             (fst (processMove afterMercy "B" Server.SKIP 1))).
    - apply reach_refl.
    - apply surjective_pairing. }
  assert (Hk : AList.get "SEC-0-0" (grid afterMercy) = Some homeSanct) by (vm_compute; reflexivity).
  split; [exact Hr|]. split; [exact Hk|]. split; [reflexivity|].
  exact (sanctuary_lifetime afterMercy afterMercySkip "SEC-0-0" homeSanct Hr Hk eq_refl).
Defined.

(** C8 (economic trap).  When the participant to move owns exactly one
    sector, with population [p] such that [p * UPKEEP_PER_MILLION >
    1 * SECTOR_YIELD] (2p > 5), and its energy [e] is an integer within
    [2^52] of zero, its pass sets its energy to exactly
    [e + (SECTOR_YIELD - p * UPKEEP_PER_MILLION)] < [e], so the energy
    strictly decreases, and the grid is left as it was, so the same holds
    at its pass of the next round when nothing else happened. *)
Theorem economic_trap (s : state) (a : string) (pl : player) (sec : sector) (e now : Z)
    (r : response) (s' : state) :
  currentPlayer s = a -> status s = Active -> AList.get a (players s) = Some pl ->
  filter (fun x => ownedBy a (owner x)) (AList.values (grid s)) = [sec] ->
  population sec * UPKEEP_PER_MILLION > 1 * SECTOR_YIELD ->
  population sec <= 2 ^ 50 ->
  energy pl = Num.Fin (inject_Z e) -> Z.abs e <= 2 ^ 52 ->
  processMove s a Server.SKIP now = (r, s') ->
  grid s' = grid s /\
  exists pl', AList.get a (players s') = Some pl' /\
    energy pl' =
      Num.Fin (inject_Z (e + (1 * SECTOR_YIELD - population sec * UPKEEP_PER_MILLION))) /\
    e + (1 * SECTOR_YIELD - population sec * UPKEEP_PER_MILLION) < e.
Proof.
  intros Hc Hst Hp Hf Hgt Hpop He Hrange Hm.
  destruct (Economy.applyUpkeep_single s a pl sec Hp Hf) as [u [pl1 [Hu He1]]].
  unfold processMove in Hm. rewrite Hc, String.eqb_refl, Hst in Hm. cbn [negb] in Hm.
  replace (dispatch s a Server.SKIP) with (Some (Some (ExecOk RSkipped, s))) in Hm
    by reflexivity.
  rewrite Hu in Hm.
  unfold SECTOR_YIELD, UPKEEP_PER_MILLION in *.
  change (2 ^ 50) with 1125899906842624 in Hpop. change (2 ^ 52) with 4503599627370496 in Hrange.
  rewrite He, NumFacts.ofZ_exact in He1 by (change (2 ^ 53) with 9007199254740992; lia).
  rewrite NumFacts.add_exact in He1 by (change (2 ^ 53) with 9007199254740992; lia).
  destruct (checkVictory (upd_player s a pl1)) as [[v|]|];
    injection Hm as <- <-; (split; [reflexivity|]);
    exists pl1; (split; [apply AListFacts.get_set_same|]); (split; [exact He1|lia]).
Qed.

Lemma economic_trap_witness :
  currentPlayer demo = "A" /\ status demo = Active /\
  AList.get "A" (players demo) = Some (newPlayer "A") /\
  filter (fun x => ownedBy "A" (owner x)) (AList.values (grid demo))
    = [with_sector homeSanct (Some "A") 10 10 false] /\
  population (with_sector homeSanct (Some "A") 10 10 false) * UPKEEP_PER_MILLION
    > 1 * SECTOR_YIELD /\
  population (with_sector homeSanct (Some "A") 10 10 false) <= 2 ^ 50 /\
  energy (newPlayer "A") = Num.Fin (inject_Z 100) /\ Z.abs 100 <= 2 ^ 52 /\
  (grid (snd (processMove demo "A" Server.SKIP 0)) = grid demo /\
   exists pl', AList.get "A" (players (snd (processMove demo "A" Server.SKIP 0))) = Some pl' /\
     energy pl' =
       Num.Fin (inject_Z (100 + (1 * SECTOR_YIELD
                                 - population (with_sector homeSanct (Some "A") 10 10 false)
                                   * UPKEEP_PER_MILLION))) /\
     100 + (1 * SECTOR_YIELD - population (with_sector homeSanct (Some "A") 10 10 false)
                              * UPKEEP_PER_MILLION) < 100).
Proof.
  assert (Hf : filter (fun x => ownedBy "A" (owner x)) (AList.values (grid demo))
               = [with_sector homeSanct (Some "A") 10 10 false]) by (vm_compute; reflexivity).
  assert (Hgt : population (with_sector homeSanct (Some "A") 10 10 false) * UPKEEP_PER_MILLION
                > 1 * SECTOR_YIELD) by (vm_compute; reflexivity).
  assert (Hpop : population (with_sector homeSanct (Some "A") 10 10 false) <= 2 ^ 50)
    by (apply Z.leb_le; vm_compute; reflexivity).
  assert (He : energy (newPlayer "A") = Num.Fin (inject_Z 100)) by (vm_compute; reflexivity).
  assert (Hr : Z.abs 100 <= 2 ^ 52) by (apply Z.leb_le; vm_compute; reflexivity).
  split; [reflexivity|]. split; [reflexivity|]. split; [reflexivity|].
  split; [exact Hf|]. split; [exact Hgt|]. split; [exact Hpop|]. split; [exact He|].
  split; [exact Hr|].
  exact (economic_trap demo "A" (newPlayer "A") _ 100 0
           (fst (processMove demo "A" Server.SKIP 0)) (snd (processMove demo "A" Server.SKIP 0))
           eq_refl eq_refl eq_refl Hf Hgt Hpop He Hr (surjective_pairing _)).
Defined.

(** C8, counterexample: after A's attack with intensity [-1e16] (repelled,
    cost [-2.5e17]) and B's pass, a reachable state of [demo], A owns only
    its home sector (population 10, so 2p > 5) and has the energy
    250000000000000096.  A's pass is resolved and its upkeep of -15 is
    absorbed by the double addition: the energy stays the same. *)
Lemma economic_trap_absorbed :
  reachable demo afterHugeSkip /\
  currentPlayer afterHugeSkip = "A" /\ status afterHugeSkip = Active /\
  map population (filter (fun x => ownedBy "A" (owner x)) (AList.values (grid afterHugeSkip)))
    = [10] /\
  option_map energy (AList.get "A" (players afterHugeSkip)) = Some hugeEnergy /\
  hugeEnergy = Num.Fin (inject_Z 250000000000000096) /\
  match processMove afterHugeSkip "A" Server.SKIP 2 with
  | (MoveOk _ u _ _, s2) =>
      netChange u = -15 /\
      option_map energy (AList.get "A" (players s2)) = Some hugeEnergy
  | _ => False
  end.
Proof.
  split.
  - apply (reach_step _ afterHuge "B" Server.SKIP 1 (fst (processMove afterHuge "B" Server.SKIP 1))).
    + apply (reach_step _ demo "A" hugeAttack 0 (fst (processMove demo "A" hugeAttack 0))).
      * apply reach_refl.
      * apply surjective_pairing.
    + apply surjective_pairing.
  - vm_compute. repeat split; reflexivity.
Qed.

(** C6 (failed attack).  A resolved attack either captures the target or is
    repelled.  The attacker's energy [e] passed the check that [e < cost] is false, with
    [cost = conquerCost pl i], and in both outcomes the attacker's energy
    becomes the JS number [e - cost], which is exactly [e - cost] when both
    are integers and the difference is within [2^53].  When the attack power
    does not exceed the defense power ([RRepelled]) the target keeps its
    owner, population and sanctuary flag and its defense drops by 2, floored
    at 1.  A capture drops the defense by the same 2, floored at 5, hands
    the target over and adds 10 compute. *)
Theorem conquer_outcome (s : state) (a t : string) (i : Num.num) (r : actresult)
    (s' : state) :
  executeConquer s a (Some t) i = Some (ExecOk r, s') ->
  exists sec pl,
    AList.get t (grid s) = Some sec /\ AList.get a (players s) = Some pl /\
    Num.lt (energy pl) (conquerCost pl i) = false /\
    (forall e c, energy pl = Num.Fin (inject_Z e) -> conquerCost pl i = Num.Fin (inject_Z c) ->
       Z.abs (e - c) <= 2 ^ 53 ->
       Num.sub (energy pl) (conquerCost pl i) = Num.Fin (inject_Z (e - c))) /\
    match r with
    | RRepelled ap dp dr =>
        Num.lt dp ap = false /\ dr = 2 /\
        s' = upd_sector
               (upd_player s a (with_energy pl (Num.sub (energy pl) (conquerCost pl i)))) t
               (with_sector sec (owner sec) (population sec) (Z.max 1 (defense sec - 2))
                            (sanctuary sec))
    | RCaptured ap dp prev cas =>
        Num.lt dp ap = true /\ prev = owner sec /\
        exists newPop,
          s' = upd_sector
                 (upd_player s a
                    (with_compute (with_energy pl (Num.sub (energy pl) (conquerCost pl i)))
                                  (compute pl + 10))) t
                 (with_sector sec (Some a) newPop (Z.max 5 (defense sec - 2)) (sanctuary sec))
    | _ => False
    end.
Proof.
  unfold executeConquer. cbn [getSector].
  destruct (AList.get t (grid s)) as [sec|] eqn:Hsec; [|discriminate].
  destruct (ownedBy a (owner sec)); [discriminate|].
  destruct (AList.get a (players s)) as [pl|] eqn:Hpl; [|discriminate].
  destruct (Num.lt (energy pl) _) eqn:Hlt; [discriminate|].
  destruct (_ =? 0); [discriminate|].
  assert (Hsub : forall e c, energy pl = Num.Fin (inject_Z e) ->
            conquerCost pl i = Num.Fin (inject_Z c) -> Z.abs (e - c) <= 2 ^ 53 ->
            Num.sub (energy pl) (conquerCost pl i) = Num.Fin (inject_Z (e - c))).
  { intros e c He Hc Hr. rewrite He, Hc. apply NumFacts.sub_exact. exact Hr. }
  destruct (Num.lt (Num.add (Num.ofZ (defense sec)) _) _) eqn:Hap;
    intros H; injection H as <- <-; exists sec, pl; (split; [reflexivity|]);
    (split; [reflexivity|]); (split; [exact Hlt|]); (split; [exact Hsub|]).
  - split; [exact Hap|]. split; [reflexivity|]. eexists. reflexivity.
  - split; [exact Hap|]. split; reflexivity.
Qed.

Lemma conquer_outcome_witness :
  let res := executeConquer demo "A" (Some "SEC-0-1") (Num.Fin 1) in
  let r0 := match res with Some (ExecOk r, _) => r | _ => RSkipped end in
  let s0 := match res with Some (_, s) => s | None => demo end in
  res = Some (ExecOk r0, s0) /\
  exists sec pl,
    AList.get "SEC-0-1" (grid demo) = Some sec /\ AList.get "A" (players demo) = Some pl /\
    Num.lt (energy pl) (conquerCost pl (Num.Fin 1)) = false /\
    (forall e c, energy pl = Num.Fin (inject_Z e) ->
       conquerCost pl (Num.Fin 1) = Num.Fin (inject_Z c) ->
       Z.abs (e - c) <= 2 ^ 53 ->
       Num.sub (energy pl) (conquerCost pl (Num.Fin 1)) = Num.Fin (inject_Z (e - c))) /\
    match r0 with
    | RRepelled ap dp dr =>
        Num.lt dp ap = false /\ dr = 2 /\
        s0 = upd_sector
               (upd_player demo "A"
                  (with_energy pl (Num.sub (energy pl) (conquerCost pl (Num.Fin 1)))))
               "SEC-0-1"
               (with_sector sec (owner sec) (population sec) (Z.max 1 (defense sec - 2))
                            (sanctuary sec))
    | RCaptured ap dp prev cas =>
        Num.lt dp ap = true /\ prev = owner sec /\
        exists newPop,
          s0 = upd_sector
                 (upd_player demo "A"
                    (with_compute
                       (with_energy pl (Num.sub (energy pl) (conquerCost pl (Num.Fin 1))))
                       (compute pl + 10))) "SEC-0-1"
                 (with_sector sec (Some "A") newPop (Z.max 5 (defense sec - 2)) (sanctuary sec))
    | _ => False
    end.
Proof.
  intros res r0 s0.
  assert (H : res = Some (ExecOk r0, s0)) by (vm_compute; reflexivity).
  split; [exact H|]. exact (conquer_outcome demo "A" "SEC-0-1" (Num.Fin 1) r0 s0 H).
Defined.

(** C6, counterexample: in [demo], [SEC-0-1] (population 8, defense 10) is
    captured by A at intensity 1 and repels A at intensity 0.5; both outcomes
    take its defense from 10 to 8, so the drop on a failed attack is not
    smaller than on a capture.  And in the reachable state [afterHugeSkip],
    where A's energy is 250000000000000096, A's repelled attack at intensity
    0.4 costs 10, yet A's energy is left unchanged: the double subtraction
    absorbs the cost, which is not deducted. *)
Lemma failed_attack_same_drop :
  option_map defense (AList.get "SEC-0-1" (grid demo)) = Some 10 /\
  match processMove demo "A" (cmd "CONQUER" (Some "SEC-0-1") (Some (Num.Fin 1))) 0 with
  | (MoveOk (RCaptured _ _ _ _) _ _ _, s1) =>
      option_map defense (AList.get "SEC-0-1" (grid s1)) = Some 8
  | _ => False
  end /\
  match processMove demo "A" (cmd "CONQUER" (Some "SEC-0-1") (Some (Num.round (1 # 2)))) 0 with
  | (MoveOk (RRepelled _ _ dr) _ _ _, s2) =>
      dr = 2 /\ option_map defense (AList.get "SEC-0-1" (grid s2)) = Some 8
  | _ => False
  end /\
  reachable demo afterHugeSkip /\
  currentPlayer afterHugeSkip = "A" /\
  option_map energy (AList.get "A" (players afterHugeSkip)) = Some hugeEnergy /\
  hugeEnergy = Num.Fin (inject_Z 250000000000000096) /\
  conquerCost (newPlayer "A") (Num.round (4 # 10)) = Num.Fin (inject_Z 10) /\
  match executeConquer afterHugeSkip "A" (Some "SEC-0-1") (Num.round (4 # 10)) with
  | Some (ExecOk (RRepelled _ _ _), s3) =>
      option_map energy (AList.get "A" (players s3)) = Some hugeEnergy
  | _ => False
  end.
Proof.
  split; [vm_compute; reflexivity|]. split; [vm_compute; reflexivity|].
  split; [vm_compute; split; reflexivity|].
  split.
  - apply (reach_step _ afterHuge "B" Server.SKIP 1 (fst (processMove afterHuge "B" Server.SKIP 1))).
    + apply (reach_step _ demo "A" hugeAttack 0 (fst (processMove demo "A" hugeAttack 0))).
      * apply reach_refl.
      * apply surjective_pairing.
    + apply surjective_pairing.
  - vm_compute. repeat split; reflexivity.
Qed.

(** C10 (unchecked intensity).  [processMove] passes the intensity through
    [intensityOrOne]: an absent or falsy (zero or NaN) intensity becomes 1,
    any other number is kept as it is.  For a finite negative intensity [q]
    the cost [conquerCost] is [-Infinity] or an integer at most -1, so a
    non-negative energy always passes the insufficient-energy check; whenever
    the energy passes it and the other preconditions hold, the attack is
    resolved and the attacker's energy becomes the JS number
    [energy - cost]; when both are integers and the difference is within
    [2^53] this is exactly [energy - cost], an increase. *)
Theorem negative_intensity_accepted (s : state) (a t : string) (q : Q) (sec : sector)
    (pl : player) :
  (q < 0)%Q -> Num.round q = Num.Fin q ->
  AList.get t (grid s) = Some sec -> ownedBy a (owner sec) = false ->
  AList.get a (players s) = Some pl -> countAdjacentOwned t a (grid s) <> 0 ->
  Num.lt (energy pl) (conquerCost pl (Num.Fin q)) = false ->
  (intensityOrOne None = Num.Fin 1 /\
   (forall x, Num.falsy x = true -> intensityOrOne (Some x) = Num.Fin 1) /\
   (forall x, Num.falsy x = false -> intensityOrOne (Some x) = x)) /\
  dispatch s a (cmd "CONQUER" (Some t) (Some (Num.Fin q)))
    = Some (executeConquer s a (Some t) (Num.Fin q)) /\
  (conquerCost pl (Num.Fin q) = Num.NInf \/
   exists c, conquerCost pl (Num.Fin q) = Num.Fin (inject_Z c) /\ c <= -1) /\
  (forall y, energy pl = Num.Fin y -> (0 <= y)%Q ->
     Num.lt (energy pl) (conquerCost pl (Num.Fin q)) = false) /\
  exists r s', executeConquer s a (Some t) (Num.Fin q) = Some (ExecOk r, s') /\
    exists pl', AList.get a (players s') = Some pl' /\
      energy pl' = Num.sub (energy pl) (conquerCost pl (Num.Fin q)) /\
      (forall e c, energy pl = Num.Fin (inject_Z e) ->
         conquerCost pl (Num.Fin q) = Num.Fin (inject_Z c) -> Z.abs (e - c) <= 2 ^ 53 ->
         energy pl' = Num.Fin (inject_Z (e - c)) /\ e < e - c).
Proof.
  intros Hq Hd Hsec Hown Hpl Hadj Hle.
  assert (Hc := Economy.conquerCost_neg pl q Hq Hd).
  assert (Hnz : Num.falsy (Num.Fin q) = false).
  { cbn. apply Z.eqb_neq. intros E. apply (Qlt_not_le _ _ Hq).
    unfold Qle. cbn. rewrite E. lia. }
  split; [split; [reflexivity|split]|].
  { intros x H0. unfold intensityOrOne. rewrite H0. reflexivity. }
  { intros x H0. unfold intensityOrOne. rewrite H0. reflexivity. }
  split; [unfold dispatch, intensityOrOne; cbn [action targetSector intensity cmd];
          rewrite Hnz; reflexivity|].
  split; [exact Hc|].
  split.
  { intros y Hy Hy0. rewrite Hy.
    destruct Hc as [-> | [c [-> Hc]]]; [reflexivity|].
    cbn [Num.lt]. apply negb_false_iff, Qle_bool_iff.
    apply (Qle_trans _ 0); [|exact Hy0].
    unfold Qle. cbn. lia. }
  unfold executeConquer. cbn [getSector]. rewrite Hsec, Hown, Hpl. cbv zeta.
  fold (conquerCost pl (Num.Fin q)). rewrite Hle.
  rewrite (proj2 (Z.eqb_neq _ _) Hadj).
  assert (Hsub : forall e c, energy pl = Num.Fin (inject_Z e) ->
            conquerCost pl (Num.Fin q) = Num.Fin (inject_Z c) -> Z.abs (e - c) <= 2 ^ 53 ->
            Num.sub (energy pl) (conquerCost pl (Num.Fin q)) = Num.Fin (inject_Z (e - c))
            /\ e < e - c).
  { intros e c He Hcc Hr. rewrite He, Hcc. split; [apply NumFacts.sub_exact; exact Hr|].
    destruct Hc as [Hc | [c' [Hc' Hle1]]]; [congruence|].
    rewrite Hcc in Hc'. apply NumFacts.Fin_inj in Hc'.
    assert (c = c') by (injection Hc'; auto). lia. }
  destruct (Num.lt (Num.add (Num.ofZ (defense sec)) _) _); do 2 eexists; (split; [reflexivity|]); eexists;
    (split; [apply AListFacts.get_set_same|]); cbn [energy with_compute with_energy];
    (split; [reflexivity|exact Hsub]).
Qed.

Lemma negative_intensity_accepted_witness :
  exists sec, AList.get "SEC-0-1" (grid demo) = Some sec /\
  ((intensityOrOne None = Num.Fin 1 /\
    (forall x, Num.falsy x = true -> intensityOrOne (Some x) = Num.Fin 1) /\
    (forall x, Num.falsy x = false -> intensityOrOne (Some x) = x)) /\
   dispatch demo "A" (cmd "CONQUER" (Some "SEC-0-1") (Some (Num.Fin (-1))))
     = Some (executeConquer demo "A" (Some "SEC-0-1") (Num.Fin (-1))) /\
   (conquerCost (newPlayer "A") (Num.Fin (-1)) = Num.NInf \/
    exists c, conquerCost (newPlayer "A") (Num.Fin (-1)) = Num.Fin (inject_Z c) /\ c <= -1) /\
   (forall y, energy (newPlayer "A") = Num.Fin y -> (0 <= y)%Q ->
      Num.lt (energy (newPlayer "A")) (conquerCost (newPlayer "A") (Num.Fin (-1))) = false) /\
   exists r s', executeConquer demo "A" (Some "SEC-0-1") (Num.Fin (-1)) = Some (ExecOk r, s') /\
     exists pl', AList.get "A" (players s') = Some pl' /\
       energy pl' = Num.sub (energy (newPlayer "A")) (conquerCost (newPlayer "A") (Num.Fin (-1))) /\
       (forall e c, energy (newPlayer "A") = Num.Fin (inject_Z e) ->
          conquerCost (newPlayer "A") (Num.Fin (-1)) = Num.Fin (inject_Z c) ->
          Z.abs (e - c) <= 2 ^ 53 ->
          energy pl' = Num.Fin (inject_Z (e - c)) /\ e < e - c)).
Proof.
  pose (sec := match AList.get "SEC-0-1" (grid demo) with Some x => x | None => homeSanct end).
  assert (Hs : AList.get "SEC-0-1" (grid demo) = Some sec) by (vm_compute; reflexivity).
  exists sec. split; [exact Hs|].
  apply (negative_intensity_accepted demo "A" "SEC-0-1" (-1)%Q sec (newPlayer "A")).
  - reflexivity.
  - vm_compute. reflexivity.
  - exact Hs.
  - vm_compute. reflexivity.
  - reflexivity.
  - vm_compute. discriminate.
  - vm_compute. reflexivity.
Defined.

(** C10, counterexample: in the reachable state [demoBroke] A's energy is
    -20; an attack at intensity -0.5 costs -13 and is still refused for
    insufficient energy.  In the reachable state [afterHugeSkip] A's energy
    is 250000000000000096; its attack at intensity -0.04 costs -1, is
    resolved (repelled), and leaves A's energy unchanged: the double
    subtraction absorbs the cost, so the energy does not increase. *)
Lemma negative_intensity_refused :
  reachable demo demoBroke /\
  currentPlayer demoBroke = "A" /\ status demoBroke = Active /\
  option_map energy (AList.get "A" (players demoBroke)) = Some (Num.Fin (inject_Z (-20))) /\
  conquerCost (newPlayer "A") (Num.round (-1 # 2)) = Num.Fin (inject_Z (-13)) /\
  processMove demoBroke "A" (cmd "CONQUER" (Some "SEC-0-1") (Some (Num.round (-1 # 2)))) 16
  = (MoveErr "Insufficient energy", demoBroke) /\
  reachable demo afterHugeSkip /\
  currentPlayer afterHugeSkip = "A" /\
  option_map energy (AList.get "A" (players afterHugeSkip)) = Some hugeEnergy /\
  hugeEnergy = Num.Fin (inject_Z 250000000000000096) /\
  conquerCost (newPlayer "A") (Num.round (-4 # 100)) = Num.Fin (inject_Z (-1)) /\
  match executeConquer afterHugeSkip "A" (Some "SEC-0-1") (Num.round (-4 # 100)) with
  | Some (ExecOk (RRepelled _ _ _), s3) =>
      option_map energy (AList.get "A" (players s3)) = Some hugeEnergy
  | _ => False
  end.
Proof.
  split; [apply Economy.reach_skipRounds, reach_refl|].
  split; [vm_compute; reflexivity|]. split; [vm_compute; reflexivity|].
  split; [vm_compute; reflexivity|]. split; [vm_compute; reflexivity|].
  split; [vm_compute; reflexivity|].
  split.
  - apply (reach_step _ afterHuge "B" Server.SKIP 1 (fst (processMove afterHuge "B" Server.SKIP 1))).
    + apply (reach_step _ demo "A" hugeAttack 0 (fst (processMove demo "A" hugeAttack 0))).
      * apply reach_refl.
      * apply surjective_pairing.
    + apply surjective_pairing.
  - vm_compute. repeat split; reflexivity.
Qed.

(** C4 (determinism).  [processMove] reads no source of randomness: run
    from the same state with the same command, it returns the same response,
    and the resulting match states agree everywhere but in the
    [Date.now()] timestamp of the pushed log entry. *)
Theorem processMove_deterministic (s : state) (a : string) (c : command) (n1 n2 : Z) :
  fst (processMove s a c n1) = fst (processMove s a c n2) /\
  strip_ts (snd (processMove s a c n1)) = strip_ts (snd (processMove s a c n2)).
Proof.
  unfold processMove.
  destruct (negb _); [split; reflexivity|].
  destruct (status s); [|split; reflexivity].
  destruct (dispatch s a c) as [[[[r|e] s1]|]|]; try (split; reflexivity).
  destruct (applyUpkeep s1 a) as [[u s2]|]; [|split; reflexivity].
  destruct (checkVictory s2) as [[vv|]|];
    (split; [reflexivity|]); unfold strip_ts; cbn; rewrite !map_app; reflexivity.
Qed.

(** C4, counterexample: the same pass resolved at two instants gives two
    different match states. *)
Lemma processMove_time_dependent :
  fst (processMove demo "A" Server.SKIP 0) = fst (processMove demo "A" Server.SKIP 1) /\
  snd (processMove demo "A" Server.SKIP 0) <> snd (processMove demo "A" Server.SKIP 1).
Proof.
  split; [reflexivity|].
  intros H. apply (f_equal (fun t => map l_timestamp (log t))) in H.
  vm_compute in H. discriminate.
Qed.

(** C5 (turn order).  In a match between two distinct participants listed
    [p1], [p2], every successful resolution hands the turn to the other
    participant; the turn counter grows exactly when control passes to the
    first-listed [p1], whoever opened the round. *)
Theorem turn_switch (s : state) (a : string) (c : command) (now : Z) (r : actresult)
    (u : upkeepInfo) (v : option victory) (pub : publicState) (s' : state) (p1 p2 : string) :
  AList.keys (players s) = [p1; p2] -> p1 <> p2 ->
  processMove s a c now = (MoveOk r u v pub, s') ->
  (a = p1 /\ currentPlayer s' = p2 /\ turn s' = turn s) \/
  (a = p2 /\ currentPlayer s' = p1 /\ turn s' = turn s + 1).
Proof. exact (Turns.processMove_next s a c now r u v pub s' p1 p2). Qed.

Lemma turn_switch_witness :
  let res := processMove v2BFirst "B" Server.SKIP 0 in
  let pub := match fst res with MoveOk _ _ _ p => p | _ => getPublicState v2BFirst None end in
  let u := match fst res with MoveOk _ u _ _ => u | _ =>
             {| totalPopulation := 0; sectorsOwned := 0; upkeepCost := 0; sectorYield := 0;
                netChange := 0; newEnergy := Num.Fin 0; u_bankruptTurns := 0 |} end in
  res = (MoveOk RSkipped u None pub, snd res) /\
  currentPlayer v2BFirst = "B" /\
  (("B" = "A" /\ currentPlayer (snd res) = "B" /\ turn (snd res) = turn v2BFirst) \/
   ("B" = "B" /\ currentPlayer (snd res) = "A" /\ turn (snd res) = turn v2BFirst + 1)).
Proof.
  intros res pub u.
  assert (H : res = (MoveOk RSkipped u None pub, snd res)) by (vm_compute; reflexivity).
  split; [exact H|]. split; [reflexivity|].
  apply (turn_switch v2BFirst "B" Server.SKIP 0 RSkipped u None pub (snd res) "A" "B").
  - reflexivity.
  - discriminate.
  - exact H.
Defined.

(** C5, the divergence: in the V2 match where B opens, the turn counter
    reaches 1 after B's pass alone, and stays 1 after A's. *)
Lemma second_opener_turn :
  currentPlayer v2BFirst = "B" /\ turn v2BFirst = 0 /\
  turn (snd (processMove v2BFirst "B" Server.SKIP 0)) = 1 /\
  currentPlayer (snd (processMove v2BFirst "B" Server.SKIP 0)) = "A" /\
  turn (snd (processMove (snd (processMove v2BFirst "B" Server.SKIP 0)) "A" Server.SKIP 1)) = 1.
Proof. vm_compute. repeat split; reflexivity. Qed.

(** C1 (challenge use).  For a challenge issued to [a] for the message's
    match: a nonce that fails verification (missing, not an integer,
    negative, or with too few leading zeros) is rejected and leaves the
    server, and so the challenge, untouched; only a nonce that verifies
    consumes the challenge, after which every further submission of [a]
    is refused, as challenge-missing or for lacking fields. *)
Theorem challenge_single_use (sv : Server.server) (a : string) (m : Server.message) (now : Z)
    (ch : Server.activeChallenge) (mid : string) (mv : command) :
  AList.get a (Server.activeChallenges sv) = Some ch ->
  Server.truthy_str (Server.msg_matchId m) = Some mid -> Server.msg_move m = Some mv ->
  Server.ac_matchId ch = mid ->
  (Pow.verifyProof (Server.ac_prefix ch) (Server.ac_difficulty ch) (Server.msg_nonce m) = false ->
   Server.handleMove sv a m now = (sv, Server.RejPowRequired) \/
   Server.handleMove sv a m now = (sv, Server.RejPowInvalid)) /\
  (Pow.verifyProof (Server.ac_prefix ch) (Server.ac_difficulty ch) (Server.msg_nonce m) = true ->
   AList.get a (Server.activeChallenges (fst (Server.handleMove sv a m now))) = None /\
   forall m2 now2,
     Server.handleMove (fst (Server.handleMove sv a m now)) a m2 now2
       = (fst (Server.handleMove sv a m now), Server.ErrNoActiveChallenge) \/
     Server.handleMove (fst (Server.handleMove sv a m now)) a m2 now2
       = (fst (Server.handleMove sv a m now), Server.ErrFieldsRequired)).
Proof.
  intros Hc Ht Hm Hid. split; intros Hv.
  - exact (ServerFacts.handleMove_unverified sv a m now ch mid mv Hc Ht Hm Hid Hv).
  - destruct (ServerFacts.handleMove_verified sv a m now ch mid mv Hc Ht Hm Hid Hv) as [Hch _].
    assert (Hn : AList.get a (Server.activeChallenges (fst (Server.handleMove sv a m now))) = None)
      by (rewrite Hch; apply ServerFacts.get_del_none).
    split; [exact Hn|]. intros m2 now2. exact (ServerFacts.handleMove_no_challenge _ _ m2 now2 Hn).
Qed.

Lemma challenge_single_use_witness :
  AList.get "A" (Server.activeChallenges sv0) = Some chA /\
  Server.ac_prefix chA = "4ff6e4478c510b9b" /\
  ((Pow.verifyProof (Server.ac_prefix chA) (Server.ac_difficulty chA)
      (Server.msg_nonce (moveMsg longMono (Pow.NonceInt 36716))) = false ->
    Server.handleMove sv0 "A" (moveMsg longMono (Pow.NonceInt 36716)) 0
      = (sv0, Server.RejPowRequired) \/
    Server.handleMove sv0 "A" (moveMsg longMono (Pow.NonceInt 36716)) 0
      = (sv0, Server.RejPowInvalid)) /\
   (Pow.verifyProof (Server.ac_prefix chA) (Server.ac_difficulty chA)
      (Server.msg_nonce (moveMsg longMono (Pow.NonceInt 36716))) = true ->
    AList.get "A" (Server.activeChallenges
                     (fst (Server.handleMove sv0 "A" (moveMsg longMono (Pow.NonceInt 36716)) 0)))
      = None /\
    forall m2 now2,
      Server.handleMove (fst (Server.handleMove sv0 "A" (moveMsg longMono (Pow.NonceInt 36716)) 0))
                        "A" m2 now2
        = (fst (Server.handleMove sv0 "A" (moveMsg longMono (Pow.NonceInt 36716)) 0),
           Server.ErrNoActiveChallenge) \/
      Server.handleMove (fst (Server.handleMove sv0 "A" (moveMsg longMono (Pow.NonceInt 36716)) 0))
                        "A" m2 now2
        = (fst (Server.handleMove sv0 "A" (moveMsg longMono (Pow.NonceInt 36716)) 0),
           Server.ErrFieldsRequired))).
Proof.
  assert (Hc : AList.get "A" (Server.activeChallenges sv0) = Some chA) by (vm_compute; reflexivity).
  split; [exact Hc|]. split; [vm_compute; reflexivity|].
  apply (challenge_single_use sv0 "A" (moveMsg longMono (Pow.NonceInt 36716)) 0 chA "m" Server.SKIP).
  - exact Hc.
  - reflexivity.
  - reflexivity.
  - vm_compute. reflexivity.
Defined.

(** C1, counterexample: a wrong nonce leaves A's challenge in place, and a
    second submission against it, with the right nonce, is accepted. *)
Lemma challenge_survives_failed_attempt :
  Server.handleMove sv0 "A" (moveMsg longMono (Pow.NonceInt (-1))) 0 = (sv0, Server.RejPowInvalid) /\
  Pow.verifyProof "4ff6e4478c510b9b" 4 (Pow.NonceInt 36716) = true /\
  exists r, snd (Server.handleMove sv0 "A" (moveMsg longMono (Pow.NonceInt 36716)) 0)
            = Server.Accepted r.
Proof.
  split; [vm_compute; reflexivity|]. split; [vm_compute; reflexivity|].
  eexists. vm_compute. reflexivity.
Qed.




(** C9 (verified, then refused).  A submission whose nonce verifies but
    whose monologue is too short, or whose move [processMove] refuses (not
    the submitter's turn, unknown action, a failed precondition), is
    answered with that rejection and leaves every match unchanged; its
    challenge is consumed all the same, so every further submission of the
    participant is refused until a new challenge is issued. *)
Theorem verified_then_rejected (sv : Server.server) (a : string) (m : Server.message) (now : Z)
    (ch : Server.activeChallenge) (mid : string) (mv : command) :
  AList.get a (Server.activeChallenges sv) = Some ch ->
  Server.truthy_str (Server.msg_matchId m) = Some mid -> Server.msg_move m = Some mv ->
  Server.ac_matchId ch = mid ->
  Pow.verifyProof (Server.ac_prefix ch) (Server.ac_difficulty ch) (Server.msg_nonce m) = true ->
  (Server.monologueTooShort (Server.msg_monologue m) = true \/
   exists gs e, AList.get mid (Server.activeMatches sv) = Some gs /\
                fst (processMove gs a mv now) = MoveErr e) ->
  Server.activeMatches (fst (Server.handleMove sv a m now)) = Server.activeMatches sv /\
  (snd (Server.handleMove sv a m now) = Server.ErrMonologue \/
   exists e, snd (Server.handleMove sv a m now) = Server.RejMove e) /\
  Server.activeChallenges (fst (Server.handleMove sv a m now))
    = AList.del a (Server.activeChallenges sv) /\
  forall m2 now2,
    Server.handleMove (fst (Server.handleMove sv a m now)) a m2 now2
      = (fst (Server.handleMove sv a m now), Server.ErrNoActiveChallenge) \/
    Server.handleMove (fst (Server.handleMove sv a m now)) a m2 now2
      = (fst (Server.handleMove sv a m now), Server.ErrFieldsRequired).
Proof.
  intros Hc Ht Hm Hid Hv Hrej.
  destruct (ServerFacts.handleMove_verified sv a m now ch mid mv Hc Ht Hm Hid Hv)
    as [Hch Hmat].
  destruct (Hmat Hrej) as [Hmat' Hrep].
  split; [exact Hmat'|]. split; [exact Hrep|]. split; [exact Hch|].
  intros m2 now2. apply ServerFacts.handleMove_no_challenge.
  rewrite Hch. apply ServerFacts.get_del_none.
Qed.

Lemma verified_then_rejected_witness :
  AList.get "A" (Server.activeChallenges sv0) = Some chA /\
  Server.activeMatches (fst (Server.handleMove sv0 "A" (moveMsg "ok" (Pow.NonceInt 36716)) 0))
    = Server.activeMatches sv0 /\
  (snd (Server.handleMove sv0 "A" (moveMsg "ok" (Pow.NonceInt 36716)) 0) = Server.ErrMonologue \/
   exists e, snd (Server.handleMove sv0 "A" (moveMsg "ok" (Pow.NonceInt 36716)) 0)
             = Server.RejMove e) /\
  Server.activeChallenges (fst (Server.handleMove sv0 "A" (moveMsg "ok" (Pow.NonceInt 36716)) 0))
    = AList.del "A" (Server.activeChallenges sv0) /\
  forall m2 now2,
    Server.handleMove (fst (Server.handleMove sv0 "A" (moveMsg "ok" (Pow.NonceInt 36716)) 0))
                      "A" m2 now2
      = (fst (Server.handleMove sv0 "A" (moveMsg "ok" (Pow.NonceInt 36716)) 0),
         Server.ErrNoActiveChallenge) \/
    Server.handleMove (fst (Server.handleMove sv0 "A" (moveMsg "ok" (Pow.NonceInt 36716)) 0))
                      "A" m2 now2
      = (fst (Server.handleMove sv0 "A" (moveMsg "ok" (Pow.NonceInt 36716)) 0),
         Server.ErrFieldsRequired).
Proof.
  assert (Hc : AList.get "A" (Server.activeChallenges sv0) = Some chA) by (vm_compute; reflexivity).
  split; [exact Hc|].
  apply (verified_then_rejected sv0 "A" (moveMsg "ok" (Pow.NonceInt 36716)) 0 chA "m" Server.SKIP).
  - exact Hc.
  - reflexivity.
  - reflexivity.
  - vm_compute. reflexivity.
  - vm_compute. reflexivity.
  - left. vm_compute. reflexivity.
Defined.

(** C7 (pairing).  Every pair [(p1, p2, d)] that the matchmaker of
    [server/matchmaker.js] forms has [d = |rating p1 - rating p2|] within
    both current search ranges, each range being [newRange] at the polling
    time; [p2] comes after [p1] in wait-order and [d] is the smallest
    difference over the later entries not already paired that lie within
    both ranges.  A search range is 100 plus 50 for every full 10 s waited,
    capped at 500.  The asynchronous Matchmaker v2 instead pairs the first
    two agents looking for a match, whatever their ratings. *)
Theorem matchmaking_pairing (now : Z) (waiting : list Matchmaker.entry)
    (outPre : list (Matchmaker.entry * Matchmaker.entry * Z)) (p1 p2 : Matchmaker.entry) (d : Z)
    (outPost : list (Matchmaker.entry * Matchmaker.entry * Z)) :
  Matchmaker.runMatchmaking now waiting = app outPre ((p1, p2, d) :: outPost) ->
  d = Z.abs (Matchmaker.elo_rating p1 - Matchmaker.elo_rating p2) /\
  d <= Matchmaker.search_range p1 /\ d <= Matchmaker.search_range p2 /\
  Matchmaker.search_range p1 = Matchmaker.newRange now p1 /\
  Matchmaker.search_range p2 = Matchmaker.newRange now p2 /\
  (forall e, Matchmaker.newRange now e
             = Z.min (Matchmaker.INITIAL_SEARCH_RANGE
                      + Matchmaker.RANGE_EXPANSION_RATE * ((now - Matchmaker.queued_at e) / 10000))
                     Matchmaker.MAX_SEARCH_RANGE) /\
  (exists pre post, Matchmaker.updateRanges now waiting = app pre (p1 :: post) /\ In p2 post /\
     Matchmaker.isMatched (pairIds outPre) (Matchmaker.agent_id p1) = false /\
     Matchmaker.isMatched (pairIds outPre) (Matchmaker.agent_id p2) = false /\
     forall q, In q post -> Matchmaker.isMatched (pairIds outPre) (Matchmaker.agent_id q) = false ->
       Matchmaker.withinBoth p1 q = true ->
       d <= Z.abs (Matchmaker.elo_rating p1 - Matchmaker.elo_rating q)) /\
  (forall w a1 a2, MatchmakerV2.runMatchmaking w = Some (a1, a2) ->
     exists rest, w = a1 :: a2 :: rest).
Proof.
  intros H. unfold Matchmaker.runMatchmaking in H.
  destruct (length waiting <? 2)%nat; [destruct outPre; discriminate|].
  destruct (MatchFacts.pairUp_split _ _ _ _ _ _ _ H) as [pre [post [E [H1 H2]]]].
  rewrite app_nil_r in H1, H2.
  destruct (MatchFacts.scan_inv _ _ _ _ _ _ H2) as [[Hb|[Hin [Hm2 [Hw Hd]]]] [_ Hmin]];
    [discriminate|].
  assert (Hp1 : In p1 (Matchmaker.updateRanges now waiting))
    by (rewrite E; apply in_or_app; right; left; reflexivity).
  assert (Hp2 : In p2 (Matchmaker.updateRanges now waiting))
    by (rewrite E; apply in_or_app; right; right; exact Hin).
  unfold Matchmaker.withinBoth in Hw. apply andb_prop in Hw. destruct Hw as [Hw1 Hw2].
  apply Z.leb_le in Hw1, Hw2.
  split; [exact Hd|]. split; [lia|]. split; [lia|].
  split; [exact (MatchFacts.updateRanges_range _ _ _ Hp1)|].
  split; [exact (MatchFacts.updateRanges_range _ _ _ Hp2)|].
  split.
  { intros e. unfold Matchmaker.newRange. rewrite Z.div_div by lia.
    replace (1000 * 10) with 10000 by reflexivity.
    unfold Matchmaker.INITIAL_SEARCH_RANGE, Matchmaker.RANGE_EXPANSION_RATE. f_equal. lia. }
  split; [exists pre, post; split; [exact E|]; split; [exact Hin|];
          split; [exact H1|]; split; [exact Hm2|]; exact Hmin|].
  intros w a1 a2. destruct w as [|x [|y r]]; cbn; try discriminate.
  intros Hw. injection Hw as <- <-. exists r. reflexivity.
Qed.

Lemma matchmaking_pairing_witness :
  let res := Matchmaker.runMatchmaking 30000 queue3 in
  let p1 := match res with (a, _, _) :: _ => a | [] => qe 0 "" 0 0 end in
  let p2 := match res with (_, b, _) :: _ => b | [] => qe 0 "" 0 0 end in
  let d := match res with (_, _, x) :: _ => x | [] => 0 end in
  res = app [] ((p1, p2, d) :: []) /\
  Matchmaker.agent_id p1 = "x" /\ Matchmaker.agent_id p2 = "z" /\ d = 90 /\
  (d = Z.abs (Matchmaker.elo_rating p1 - Matchmaker.elo_rating p2) /\
   d <= Matchmaker.search_range p1 /\ d <= Matchmaker.search_range p2 /\
   Matchmaker.search_range p1 = Matchmaker.newRange 30000 p1 /\
   Matchmaker.search_range p2 = Matchmaker.newRange 30000 p2 /\
   (forall e, Matchmaker.newRange 30000 e
              = Z.min (Matchmaker.INITIAL_SEARCH_RANGE
                       + Matchmaker.RANGE_EXPANSION_RATE * ((30000 - Matchmaker.queued_at e) / 10000))
                      Matchmaker.MAX_SEARCH_RANGE) /\
   (exists pre post, Matchmaker.updateRanges 30000 queue3 = app pre (p1 :: post) /\ In p2 post /\
      Matchmaker.isMatched (pairIds []) (Matchmaker.agent_id p1) = false /\
      Matchmaker.isMatched (pairIds []) (Matchmaker.agent_id p2) = false /\
      forall q, In q post -> Matchmaker.isMatched (pairIds []) (Matchmaker.agent_id q) = false ->
        Matchmaker.withinBoth p1 q = true ->
        d <= Z.abs (Matchmaker.elo_rating p1 - Matchmaker.elo_rating q)) /\
   (forall w a1 a2, MatchmakerV2.runMatchmaking w = Some (a1, a2) ->
      exists rest, w = a1 :: a2 :: rest)).
Proof.
  intros res p1 p2 d.
  assert (H : res = app [] ((p1, p2, d) :: [])) by (vm_compute; reflexivity).
  split; [exact H|]. split; [vm_compute; reflexivity|]. split; [vm_compute; reflexivity|].
  split; [vm_compute; reflexivity|].
  exact (matchmaking_pairing 30000 queue3 [] p1 p2 d [] H).
Defined.

(** C7, counterexample: Matchmaker v2 pairs two agents 1000 rating points
    apart, beyond the largest search range; the matchmaker of
    [server/matchmaker.js] leaves the same two waiting. *)
Lemma v2_pairs_any_ratings :
  MatchmakerV2.runMatchmaking [agentLow; agentHigh] = Some (agentLow, agentHigh) /\
  Z.abs (MatchmakerV2.a_elo_rating agentLow - MatchmakerV2.a_elo_rating agentHigh)
    > Matchmaker.MAX_SEARCH_RANGE /\
  Matchmaker.runMatchmaking 1000000 [qe 1 "L" 1000 0; qe 2 "H" 2000 0] = [].
Proof. vm_compute. repeat split; reflexivity. Qed.

End Claims.

(** * Further properties of the code *)

(** ** Proof-of-work search *)

Module PowFacts.

Import Pow.

Lemma solveFrom_some fuel p t n0 n :
  solveFrom fuel p t n0 = Some n <->
  n0 <= n < n0 + Z.of_nat fuel /\
  Str.startsWith (Sha256.hex (p ++ "-" ++ Str.of_Z n)) t = true /\
  (forall m, n0 <= m < n -> Str.startsWith (Sha256.hex (p ++ "-" ++ Str.of_Z m)) t = false).
Proof.
  revert n0. induction fuel as [|f IH]; intros n0; cbn [solveFrom].
  - split; [discriminate|]. cbn [Z.of_nat]. lia.
  - rewrite Nat2Z.inj_succ.
    destruct (Str.startsWith (Sha256.hex (p ++ "-" ++ Str.of_Z n0)) t) eqn:E.
    + split.
      * intros H. injection H as <-. split; [lia|]. split; [exact E|]. intros m Hm. lia.
      * intros [Hb [Hn Hm]]. destruct (Z.eq_dec n n0) as [->|Hne]; [reflexivity|].
        rewrite Hm in E; [discriminate|lia].
    + rewrite IH. split.
      * intros [Hb [Hn Hm]]. split; [lia|]. split; [exact Hn|].
        intros m Hm'. destruct (Z.eq_dec m n0) as [->|Hne]; [exact E|]. apply Hm. lia.
      * intros [Hb [Hn Hm]]. destruct (Z.eq_dec n n0) as [->|Hne]; [congruence|].
        split; [lia|]. split; [exact Hn|]. intros m Hm'. apply Hm. lia.
Qed.

Lemma solveFrom_none fuel p t n0 :
  solveFrom fuel p t n0 = None <->
  (forall m, n0 <= m < n0 + Z.of_nat fuel ->
     Str.startsWith (Sha256.hex (p ++ "-" ++ Str.of_Z m)) t = false).
Proof.
  revert n0. induction fuel as [|f IH]; intros n0; cbn [solveFrom].
  - split; [intros _ m Hm; cbn [Z.of_nat] in Hm; lia|reflexivity].
  - rewrite Nat2Z.inj_succ.
    destruct (Str.startsWith (Sha256.hex (p ++ "-" ++ Str.of_Z n0)) t) eqn:E.
    + split; [discriminate|]. intros H. rewrite H in E; [discriminate|lia].
    + rewrite IH. split.
      * intros H m Hm. destruct (Z.eq_dec m n0) as [->|Hne]; [exact E|]. apply H. lia.
      * intros H m Hm. apply H. lia.
Qed.

Lemma verify_int p d m :
  0 <= m ->
  verifyProof p d (NonceInt m)
  = Str.startsWith (Sha256.hex (p ++ "-" ++ Str.of_Z m)) (Str.repeat0 d).
Proof. intros Hm. cbn [verifyProof]. destruct (m <? 0) eqn:E; [lia|reflexivity]. Qed.

Lemma prefix_repeat0 (n1 n2 : nat) (s : string) :
  (n1 <= n2)%nat ->
  String.prefix (string_of_list_ascii (List.repeat "0"%char n2)) s = true ->
  String.prefix (string_of_list_ascii (List.repeat "0"%char n1)) s = true.
Proof.
  revert n2 s. induction n1 as [|k IH]; intros n2 s Hle H; [destruct s; reflexivity|].
  destruct n2 as [|k']; [lia|].
  destruct s as [|y ys]; cbn [List.repeat string_of_list_ascii String.prefix] in *;
    [discriminate|].
  destruct (ascii_dec "0" y); [|discriminate]. apply (IH k'); [lia|exact H].
Qed.

Lemma length_string_of_list (l : list ascii) :
  String.length (string_of_list_ascii l) = length l.
Proof. induction l as [|c r IH]; cbn; [reflexivity|]. rewrite IH. reflexivity. Qed.

Lemma length_substring0 (n : nat) (s : string) :
  String.length (substring 0 n s) = Nat.min n (String.length s).
Proof.
  revert s. induction n as [|n IH]; intros s; [destruct s; reflexivity|].
  destruct s as [|c r]; cbn [substring String.length]; [reflexivity|].
  rewrite IH. reflexivity.
Qed.

Lemma in_substring0 (n : nat) (s : string) (c : ascii) :
  In c (list_ascii_of_string (substring 0 n s)) -> In c (list_ascii_of_string s).
Proof.
  revert s. induction n as [|n IH]; intros s; [destruct s; intros []|].
  destruct s as [|d r]; cbn [substring list_ascii_of_string]; [intros []|].
  intros [<-|H]; [left; reflexivity|right; exact (IH r H)].
Qed.

Lemma round_length st w k : length st = 8%nat -> length (fst (Sha256.round st w k)) = 8%nat.
Proof.
  intros H. unfold Sha256.round.
  destruct st as [|a [|b [|c [|d [|e [|f [|g [|h [|i r]]]]]]]]]; cbn in H; try discriminate.
  destruct w; reflexivity.
Qed.

Lemma rounds_length (ks : list Z) st w :
  length st = 8%nat ->
  length (fst (fold_left (fun '(st, w) k => Sha256.round st w k) ks (st, w))) = 8%nat.
Proof.
  revert st w. induction ks as [|k r IH]; intros st w H; [exact H|].
  cbn [fold_left]. destruct (Sha256.round st w k) as [st' w'] eqn:E.
  apply IH. change st' with (fst (st', w')). rewrite <- E. apply round_length. exact H.
Qed.

Lemma compress_length hv blk : length hv = 8%nat -> length (Sha256.compress hv blk) = 8%nat.
Proof.
  intros H. unfold Sha256.compress.
  pose proof (rounds_length Sha256.K hv blk H) as H1.
  destruct (fold_left _ Sha256.K (hv, blk)) as [st w]. cbn [fst] in H1.
  rewrite length_map, length_combine, H, H1. reflexivity.
Qed.

Lemma digest_length m : length (Sha256.digest m) = 8%nat.
Proof.
  unfold Sha256.digest. generalize (Sha256.blocks (length (Sha256.words (Sha256.pad m)))
                                                  (Sha256.words (Sha256.pad m))).
  assert (H0 : length Sha256.H0 = 8%nat) by reflexivity. revert H0.
  generalize Sha256.H0. intros hv Hhv bs. revert hv Hhv.
  induction bs as [|b r IH]; intros hv Hhv; [exact Hhv|].
  cbn [fold_left]. apply IH. apply compress_length. exact Hhv.
Qed.

Lemma hex_length s : String.length (Sha256.hex s) = 64%nat.
Proof.
  unfold Sha256.hex. rewrite length_string_of_list.
  pose proof (digest_length (Str.bytes s)) as H.
  destruct (Sha256.digest (Str.bytes s)) as [|w1 [|w2 [|w3 [|w4 [|w5 [|w6 [|w7 [|w8 [|w9 r]]]]]]]]];
    cbn in H; try discriminate.
  reflexivity.
Qed.

Lemma hex_digit_range n :
  0 <= n <= 15 -> In (Sha256.hex_digit n) (list_ascii_of_string "0123456789abcdef").
Proof.
  intros H.
  assert (Hall : forallb (fun k => existsb (Ascii.eqb (Sha256.hex_digit (Z.of_nat k)))
                                           (list_ascii_of_string "0123456789abcdef"))
                         (seq 0 16) = true) by (vm_compute; reflexivity).
  rewrite forallb_forall in Hall.
  assert (Hk : In (Z.to_nat n) (seq 0 16)) by (apply in_seq; lia).
  specialize (Hall _ Hk). rewrite Z2Nat.id in Hall by lia.
  apply existsb_exists in Hall. destruct Hall as [c [Hc E]].
  apply Ascii.eqb_eq in E. rewrite E. exact Hc.
Qed.

Lemma hex_chars s c :
  In c (list_ascii_of_string (Sha256.hex s)) -> In c (list_ascii_of_string "0123456789abcdef").
Proof.
  unfold Sha256.hex. rewrite list_ascii_of_string_of_list_ascii.
  intros H. apply in_flat_map in H. destruct H as [x [_ H]].
  unfold Sha256.hex_word in H. apply in_map_iff in H. destruct H as [i [<- _]].
  apply hex_digit_range.
  rewrite (Z.land_ones _ 4) by lia. pose proof (Z.mod_pos_bound (Z.shiftr x (28 - 4 * Z.of_nat i)) (2 ^ 4)).
  lia.
Qed.

(** X1.  [solveChallenge] returns exactly the least non-negative nonce that
    [verifyProof] accepts, when one lies within the iterations run. *)
Theorem solveChallenge_least (fuel : nat) (p : string) (d n : Z) :
  solveChallenge fuel p d = Some n <->
  0 <= n < Z.of_nat fuel /\ verifyProof p d (NonceInt n) = true /\
  (forall m, 0 <= m < n -> verifyProof p d (NonceInt m) = false).
Proof.
  unfold solveChallenge. rewrite solveFrom_some. split.
  - intros [Hb [Hn Hm]]. split; [lia|]. split; [rewrite verify_int by lia; exact Hn|].
    intros m Hm'. rewrite verify_int by lia. apply Hm. lia.
  - intros [Hb [Hn Hm]]. split; [lia|]. split; [rewrite verify_int in Hn by lia; exact Hn|].
    intros m Hm'. rewrite <- verify_int by lia. apply Hm. lia.
Qed.

(** X2.  [solveChallenge] finds nothing within [fuel] iterations exactly when
    no nonce in [0, fuel) is accepted by [verifyProof]. *)
Theorem solveChallenge_none (fuel : nat) (p : string) (d : Z) :
  solveChallenge fuel p d = None <->
  (forall m, 0 <= m < Z.of_nat fuel -> verifyProof p d (NonceInt m) = false).
Proof.
  unfold solveChallenge. rewrite solveFrom_none. split.
  - intros H m Hm. rewrite verify_int by lia. apply H. lia.
  - intros H m Hm. rewrite <- verify_int by lia. apply H. lia.
Qed.

(** X3.  For a non-negative difficulty (a negative one makes
    ['0'.repeat] throw), the agent script's [solvePoW] returns the least
    nonce below 10000000 that [verifyProof] accepts; when there is none it
    returns 0, which is then not accepted either. *)
Theorem solvePoW_result (p : string) (d : Z) :
  0 <= d ->
  (verifyProof p d (NonceInt (AgentScript.solvePoW p d)) = true /\
   0 <= AgentScript.solvePoW p d < 10000000 /\
   forall m, 0 <= m < AgentScript.solvePoW p d -> verifyProof p d (NonceInt m) = false) \/
  (AgentScript.solvePoW p d = 0 /\ verifyProof p d (NonceInt 0) = false /\
   forall m, 0 <= m < 10000000 -> verifyProof p d (NonceInt m) = false).
Proof.
  intros _.
  assert (Hf : Z.of_nat (Z.to_nat 10000000) = 10000000) by (apply Z2Nat.id; lia).
  unfold AgentScript.solvePoW.
  destruct (solveFrom (Z.to_nat 10000000) p (Str.repeat0 d) 0) as [n|] eqn:E.
  - left. change (solveChallenge (Z.to_nat 10000000) p d = Some n) in E.
    apply solveChallenge_least in E. rewrite Hf in E. destruct E as [Hb [Hn Hm]].
    split; [exact Hn|]. split; [exact Hb|exact Hm].
  - right. change (solveChallenge (Z.to_nat 10000000) p d = None) in E.
    pose proof (proj1 (solveChallenge_none _ p d) E) as E'. clear E. rename E' into E.
    rewrite Hf in E.
    split; [reflexivity|]. split; [apply E; lia|exact E].
Qed.

Lemma solvePoW_result_witness :
  0 <= 4 /\
  ((verifyProof "4ff6e4478c510b9b" 4
      (NonceInt (AgentScript.solvePoW "4ff6e4478c510b9b" 4)) = true /\
    0 <= AgentScript.solvePoW "4ff6e4478c510b9b" 4 < 10000000 /\
    forall m, 0 <= m < AgentScript.solvePoW "4ff6e4478c510b9b" 4 ->
      verifyProof "4ff6e4478c510b9b" 4 (NonceInt m) = false) \/
   (AgentScript.solvePoW "4ff6e4478c510b9b" 4 = 0 /\
    verifyProof "4ff6e4478c510b9b" 4 (NonceInt 0) = false /\
    forall m, 0 <= m < 10000000 -> verifyProof "4ff6e4478c510b9b" 4 (NonceInt m) = false)).
Proof.
  split; [lia|]. apply (solvePoW_result "4ff6e4478c510b9b" 4). lia.
Defined.

(** X4.  A nonce that [verifyProof] accepts at some difficulty is accepted
    at every lower non-negative difficulty (a negative one makes
    ['0'.repeat] throw). *)
Theorem verifyProof_lower_difficulty (p : string) (d1 d2 : Z) (n : jsnonce) :
  0 <= d1 -> d1 <= d2 -> verifyProof p d2 n = true -> verifyProof p d1 n = true.
Proof.
  intros _ Hle H. destruct n as [z| |]; try discriminate. cbn [verifyProof] in *.
  destruct (z <? 0); [discriminate|].
  unfold Str.startsWith, Str.repeat0 in *.
  apply (prefix_repeat0 _ (Z.to_nat d2)); [lia|exact H].
Qed.

Lemma verifyProof_lower_difficulty_witness :
  0 <= 2 /\ 2 <= 4 /\ verifyProof "4ff6e4478c510b9b" 4 (NonceInt 36716) = true /\
  verifyProof "4ff6e4478c510b9b" 2 (NonceInt 36716) = true.
Proof.
  assert (H : verifyProof "4ff6e4478c510b9b" 4 (NonceInt 36716) = true) by (vm_compute; reflexivity).
  split; [lia|]. split; [lia|]. split; [exact H|].
  exact (verifyProof_lower_difficulty "4ff6e4478c510b9b" 2 4 (NonceInt 36716)
           ltac:(lia) ltac:(lia) H).
Defined.

(** X5.  A generated challenge has difficulty [DEFAULT_DIFFICULTY] and a
    prefix of exactly 16 lowercase hexadecimal characters. *)
Theorem generateChallenge_shape (agentId matchId : string) (t now : Z) :
  String.length (Pow.prefix (generateChallenge agentId matchId t now)) = 16%nat /\
  (forall c, In c (list_ascii_of_string (Pow.prefix (generateChallenge agentId matchId t now))) ->
             In c (list_ascii_of_string "0123456789abcdef")) /\
  Pow.difficulty (generateChallenge agentId matchId t now) = DEFAULT_DIFFICULTY.
Proof.
  unfold generateChallenge. cbn [Pow.prefix Pow.difficulty]. unfold Str.slice0.
  split; [rewrite length_substring0, hex_length; reflexivity|].
  split; [|reflexivity].
  intros c H. apply in_substring0 in H. exact (hex_chars _ _ H).
Qed.

End PowFacts.

(** ** The board and the players along a match *)

Module Board.

Import Engine Aux.

Lemma get_set_cases {A} (t k : string) (v y : A) (l : list (string * A)) :
  AList.get k (AList.set t v l) = Some y -> (k = t /\ y = v) \/ (k <> t /\ AList.get k l = Some y).
Proof.
  destruct (String.eqb k t) eqn:E.
  - apply String.eqb_eq in E. subst k. rewrite AListFacts.get_set_same.
    intros H. injection H as <-. left. split; reflexivity.
  - apply String.eqb_neq in E. rewrite AListFacts.get_set_other by congruence.
    intros H. right. split; assumption.
Qed.

Ltac close_disj :=
  match goal with
  | |- _ \/ _ => first [left; close_disj | right; close_disj]
  | |- _ /\ _ => split; close_disj
  | |- _ => first [reflexivity | congruence]
  end.

(** How a resolved action changes the board: not at all, or one existing
    sector [x] is replaced by a copy with new owner, population, defense
    and sanctuary flag, in one of five ways (capture, repelled attack,
    purge, fortification, mercy). *)
Lemma dispatch_grid s a c r s1 :
  dispatch s a c = Some (Some (ExecOk r, s1)) ->
  grid s1 = grid s \/
  exists t x o pop def sanc,
    AList.get t (grid s) = Some x /\
    grid s1 = AList.set t (with_sector x o pop def sanc) (grid s) /\
    ((o = Some a /\ pop = Num.toZ (Num.floor (Num.mul (Num.ofZ (population x))
                                           (Num.sub (Num.Fin 1) DEFENDER_CASUALTY_RATE))) /\
      def = Z.max 5 (defense x - 2) /\ sanc = sanctuary x) \/
     (o = owner x /\ pop = population x /\ def = Z.max 1 (defense x - 2) /\ sanc = sanctuary x) \/
     (o = owner x /\ pop = 0 /\ def = defense x /\ sanc = sanctuary x) \/
     (o = owner x /\ pop = population x /\
      (def = defense x + 5 \/ def = defense x + 8) /\ sanc = sanctuary x) \/
     (o = owner x /\ pop = population x /\ def = defense x /\ sanc = true)).
Proof.
  unfold dispatch.
  destruct (String.eqb (action c) "CONQUER");
  [unfold executeConquer
  |destruct (String.eqb (action c) "PURGE");
  [unfold executePurge
  |destruct (String.eqb (action c) "FORTIFY");
  [unfold executeFortify
  |destruct (String.eqb (action c) "RESEARCH");
  [unfold executeResearch
  |destruct (String.eqb (action c) "MERCY");
  [unfold executeMercy
  |destruct (String.eqb (action c) "SKIP")]]]]];
  unfold getSector; break_goal; intros H; inversion H; subst; clear H;
  first [ left; reflexivity
        | right; do 6 eexists; split; [eassumption|];
          split; [cbn [grid upd_sector upd_player set_grid set_players]; reflexivity|];
          unfold FORTIFICATION_fortifyBonus; close_disj ].
Qed.

(** How a resolved action changes the players: not at all, or the actor's
    record is replaced by one with the same [id]. *)
Lemma dispatch_players s a c r s1 :
  dispatch s a c = Some (Some (ExecOk r, s1)) ->
  players s1 = players s \/
  exists pl pl', AList.get a (players s) = Some pl /\
    players s1 = AList.set a pl' (players s) /\ pid pl' = pid pl.
Proof.
  unfold dispatch.
  destruct (String.eqb (action c) "CONQUER");
  [unfold executeConquer
  |destruct (String.eqb (action c) "PURGE");
  [unfold executePurge
  |destruct (String.eqb (action c) "FORTIFY");
  [unfold executeFortify
  |destruct (String.eqb (action c) "RESEARCH");
  [unfold executeResearch
  |destruct (String.eqb (action c) "MERCY");
  [unfold executeMercy
  |destruct (String.eqb (action c) "SKIP")]]]]];
  unfold getSector; break_goal; intros H; inversion H; subst; clear H;
  first [ left; reflexivity
        | right; do 2 eexists; split; [first [eassumption | reflexivity]|];
          split; [cbn [players upd_sector upd_player set_grid set_players]; reflexivity|];
          reflexivity ].
Qed.

Lemma dispatch_log s a c r s1 :
  dispatch s a c = Some (Some (ExecOk r, s1)) ->
  log s1 = log s /\ match_id s1 = match_id s /\ winner s1 = winner s.
Proof.
  unfold dispatch.
  destruct (String.eqb (action c) "CONQUER");
  [unfold executeConquer
  |destruct (String.eqb (action c) "PURGE");
  [unfold executePurge
  |destruct (String.eqb (action c) "FORTIFY");
  [unfold executeFortify
  |destruct (String.eqb (action c) "RESEARCH");
  [unfold executeResearch
  |destruct (String.eqb (action c) "MERCY");
  [unfold executeMercy
  |destruct (String.eqb (action c) "SKIP")]]]]];
  unfold getSector; break_goal; intros H; inversion H; subst; clear H;
  repeat split; reflexivity.
Qed.

Lemma applyUpkeep_players s a u s2 :
  applyUpkeep s a = Some (u, s2) ->
  exists pl pl', AList.get a (players s) = Some pl /\
    players s2 = AList.set a pl' (players s) /\ pid pl' = pid pl /\
    grid s2 = grid s /\ log s2 = log s /\ turn s2 = turn s /\ status s2 = status s /\
    winner s2 = winner s.
Proof.
  unfold applyUpkeep. destruct (fold_left _ _ _) as [tp n].
  destruct (AList.get a (players s)) as [pl|] eqn:Hp; [|discriminate].
  intros H. inversion H; subst; clear H. do 2 eexists. split; [reflexivity|].
  repeat split; reflexivity.
Qed.

(** A whole move: the state is unchanged, or the action resolved and only
    the bookkeeping of [processMove] follows. *)
Lemma processMove_cases s a c now res s' :
  processMove s a c now = (res, s') ->
  s' = s \/
  exists r s1, dispatch s a c = Some (Some (ExecOk r, s1)) /\ grid s' = grid s1 /\
    (players s' = players s1 \/
     exists pl pl', AList.get a (players s1) = Some pl /\
       players s' = AList.set a pl' (players s1) /\ pid pl' = pid pl).
Proof.
  unfold processMove.
  destruct (negb _); [intros H; inversion H; left; reflexivity|].
  destruct (status s); [|intros H; inversion H; left; reflexivity].
  destruct (dispatch s a c) as [[[[r0|e] s1]|]|] eqn:Hd;
    [| intros H; inversion H; subst; left; exact (Turns.dispatch_err _ _ _ _ _ Hd)
     | intros H; inversion H; left; reflexivity
     | intros H; inversion H; left; reflexivity].
  intros H. right. exists r0, s1. split; [reflexivity|].
  destruct (applyUpkeep s1 a) as [[u s2]|] eqn:Hu;
    [|inversion H; subst; split; [reflexivity|left; reflexivity]].
  destruct (applyUpkeep_players _ _ _ _ Hu) as [pl [pl' [Hp [Hps [Hpid [Hg _]]]]]].
  destruct (checkVictory s2) as [[v|]|]; inversion H; subst; clear H;
    (split; [exact Hg|right; exists pl, pl'; split; [exact Hp|split; [exact Hps|exact Hpid]]]).
Qed.

Lemma keys_set_in {A} (t : string) (v : A) l x :
  AList.get t l = Some x -> AList.keys (AList.set t v l) = AList.keys l.
Proof. intros H. apply AListFacts.keys_set. eapply AListFacts.get_in_keys. exact H. Qed.

(** The moves keep the sector ids and the player ids. *)
Lemma processMove_keys s a c now res s' :
  processMove s a c now = (res, s') ->
  AList.keys (grid s') = AList.keys (grid s) /\ AList.keys (players s') = AList.keys (players s).
Proof.
  intros H. destruct (processMove_cases _ _ _ _ _ _ H) as [->|[r [s1 [Hd [Hg Hp]]]]];
    [split; reflexivity|].
  split.
  - rewrite Hg. destruct (dispatch_grid _ _ _ _ _ Hd) as [->|[t [x [o [pop [def [sc [Hx [-> _]]]]]]]]];
      [reflexivity|]. exact (keys_set_in _ _ _ _ Hx).
  - assert (H1 : AList.keys (players s1) = AList.keys (players s)).
    { destruct (dispatch_players _ _ _ _ _ Hd) as [->|[pl [pl' [Hx [-> _]]]]];
        [reflexivity|exact (keys_set_in _ _ _ _ Hx)]. }
    destruct Hp as [->|[pl [pl' [Hx [-> _]]]]]; [exact H1|].
    rewrite (keys_set_in _ _ _ _ Hx). exact H1.
Qed.

Lemma get_in_list {A} (k : string) (v : A) l : AList.get k l = Some v -> In (k, v) l.
Proof.
  induction l as [|[k0 v0] r IH]; cbn; [discriminate|].
  destruct (String.eqb k k0) eqn:E; intros H.
  - injection H as <-. apply String.eqb_eq in E. subst. left. reflexivity.
  - right. exact (IH H).
Qed.

Lemma in_keys_get {A} (k : string) (l : list (string * A)) :
  In k (AList.keys l) -> exists v, AList.get k l = Some v.
Proof.
  induction l as [|[k0 v0] r IH]; cbn; [intros []|].
  destruct (String.eqb k k0) eqn:E; [eexists; reflexivity|].
  intros [->|H]; [rewrite String.eqb_refl in E; discriminate|exact (IH H)].
Qed.

Lemma Forall_set {A} (P : string * A -> Prop) (k : string) (v : A) l :
  Forall P l -> P (k, v) -> Forall P (AList.set k v l).
Proof.
  induction l as [|[k0 v0] r IH]; cbn; intros H Hk; [constructor; [exact Hk|constructor]|].
  inversion H as [|? ? H1 H2]; subst.
  destruct (String.eqb k k0) eqn:E.
  - apply String.eqb_eq in E. subst. constructor; assumption.
  - constructor; [exact H1|exact (IH H2 Hk)].
Qed.

(** A sector after a move: the same record, or a copy of the previous one
    changed in one of the five ways of [dispatch_grid]. *)
Lemma processMove_sector s a c now res s' k y :
  processMove s a c now = (res, s') -> AList.get k (grid s') = Some y ->
  exists x, AList.get k (grid s) = Some x /\
    (y = x \/
     exists o pop def sanc, y = with_sector x o pop def sanc /\
     ((o = Some a /\ pop = Num.toZ (Num.floor (Num.mul (Num.ofZ (population x))
                                           (Num.sub (Num.Fin 1) DEFENDER_CASUALTY_RATE))) /\
       def = Z.max 5 (defense x - 2) /\ sanc = sanctuary x) \/
      (o = owner x /\ pop = population x /\ def = Z.max 1 (defense x - 2) /\ sanc = sanctuary x) \/
      (o = owner x /\ pop = 0 /\ def = defense x /\ sanc = sanctuary x) \/
      (o = owner x /\ pop = population x /\
       (def = defense x + 5 \/ def = defense x + 8) /\ sanc = sanctuary x) \/
      (o = owner x /\ pop = population x /\ def = defense x /\ sanc = true))).
Proof.
  intros H Hy. destruct (processMove_cases _ _ _ _ _ _ H) as [->|[r [s1 [Hd [Hg _]]]]];
    [exists y; split; [exact Hy|left; reflexivity]|].
  rewrite Hg in Hy.
  destruct (dispatch_grid _ _ _ _ _ Hd) as [Hs|[t [x [o [pop [def [sc [Hx [Hs Hc]]]]]]]]];
    rewrite Hs in Hy; [exists y; split; [exact Hy|left; reflexivity]|].
  destruct (get_set_cases _ _ _ _ _ Hy) as [[-> ->]|[_ Hk]].
  - exists x. split; [exact Hx|right]. exists o, pop, def, sc. split; [reflexivity|exact Hc].
  - exists y. split; [exact Hk|left; reflexivity].
Qed.

Lemma processMove_sector_kept s a c now res s' k x :
  processMove s a c now = (res, s') -> AList.get k (grid s) = Some x ->
  exists y, AList.get k (grid s') = Some y.
Proof.
  intros H Hx. apply in_keys_get. destruct (processMove_keys _ _ _ _ _ _ H) as [Hk _].
  rewrite Hk. eapply AListFacts.get_in_keys. exact Hx.
Qed.

(** The adjacency of a board depends only on the ids, rows and columns of
    its sectors. *)
Lemma adj_rc g1 g2 t :
  (forall k, option_map (fun x => (row x, col x)) (AList.get k g1)
             = option_map (fun x => (row x, col x)) (AList.get k g2)) ->
  getAdjacentSectors t g1 = getAdjacentSectors t g2.
Proof.
  intros H. unfold getAdjacentSectors. pose proof (H t) as Ht.
  destruct (AList.get t g1) as [x1|], (AList.get t g2) as [x2|]; cbn in Ht; try discriminate;
    [|reflexivity].
  injection Ht as Hr Hc. rewrite Hr, Hc. apply flat_map_ext. intros [dr dc].
  pose proof (H (sectorId (row x2 + dr) (col x2 + dc))) as Hn.
  destruct (AList.get (sectorId (row x2 + dr) (col x2 + dc)) g1),
           (AList.get (sectorId (row x2 + dr) (col x2 + dc)) g2); cbn in Hn;
    first [reflexivity | discriminate].
Qed.

Lemma rc_map g1 g2 :
  map (fun '(k, x) => (k, (row x, col x))) g1 = map (fun '(k, x) => (k, (row x, col x))) g2 ->
  forall k, option_map (fun x => (row x, col x)) (AList.get k g1)
            = option_map (fun x => (row x, col x)) (AList.get k g2).
Proof.
  revert g2. induction g1 as [|[k1 x1] r1 IH]; intros [|[k2 x2] r2] H k; cbn in H;
    try discriminate; [reflexivity|].
  injection H as -> Hr Hc Hm. cbn. destruct (String.eqb k k2); cbn; [rewrite Hr, Hc; reflexivity|].
  exact (IH r2 Hm k).
Qed.

Lemma processMove_rc s a c now res s' :
  processMove s a c now = (res, s') ->
  forall k, option_map (fun x => (row x, col x)) (AList.get k (grid s'))
            = option_map (fun x => (row x, col x)) (AList.get k (grid s)).
Proof.
  intros H k. destruct (AList.get k (grid s')) as [y|] eqn:Hy.
  - destruct (processMove_sector _ _ _ _ _ _ _ _ H Hy) as [x [Hx Hc]]. rewrite Hx.
    destruct Hc as [->|[o [pop [def [sc [-> _]]]]]]; reflexivity.
  - destruct (AList.get k (grid s)) as [x|] eqn:Hx; [|reflexivity].
    destruct (processMove_sector_kept _ _ _ _ _ _ _ _ H Hx) as [y Hy']. congruence.
Qed.

Lemma reachable_rc s t :
  reachable s t ->
  forall k, option_map (fun x => (row x, col x)) (AList.get k (grid t))
            = option_map (fun x => (row x, col x)) (AList.get k (grid s)).
Proof.
  induction 1 as [|t a c now r t' _ IH Hp]; intros k; [reflexivity|].
  rewrite (processMove_rc _ _ _ _ _ _ Hp k). apply IH.
Qed.

Lemma reachable_keys s t :
  reachable s t ->
  AList.keys (grid t) = AList.keys (grid s) /\ AList.keys (players t) = AList.keys (players s).
Proof.
  induction 1 as [|t a c now r t' _ IH Hp]; [split; reflexivity|].
  destruct (processMove_keys _ _ _ _ _ _ Hp) as [H1 H2]. destruct IH as [I1 I2].
  split; congruence.
Qed.

Lemma initMatch_rc mid popAt a1 a2 :
  forall k, option_map (fun x => (row x, col x)) (AList.get k (grid (initMatch mid popAt a1 a2)))
            = option_map (fun x => (row x, col x)) (AList.get k (grid demo)).
Proof. apply rc_map. vm_compute. reflexivity. Qed.

Lemma demo_adj_sym j k :
  In k (getAdjacentSectors j (grid demo)) -> In j (getAdjacentSectors k (grid demo)).
Proof.
  intros H.
  assert (Hj : In j (AList.keys (grid demo))).
  { unfold getAdjacentSectors in H. destruct (AList.get j (grid demo)) eqn:E; [|destruct H].
    eapply AListFacts.get_in_keys. exact E. }
  assert (Hall : forallb (fun j => forallb (fun k => existsb (String.eqb j)
                                                            (getAdjacentSectors k (grid demo)))
                                           (getAdjacentSectors j (grid demo)))
                         (AList.keys (grid demo)) = true) by (vm_compute; reflexivity).
  rewrite forallb_forall in Hall. specialize (Hall j Hj). rewrite forallb_forall in Hall.
  specialize (Hall k H). apply existsb_exists in Hall. destruct Hall as [y [Hy E]].
  apply String.eqb_eq in E. subst y. exact Hy.
Qed.

Lemma initGrid_entry popAt k x :
  In (k, x) (initGrid popAt) ->
  owner x = None /\ defense x = 10 /\ sanctuary x = false /\ exists r c, population x = popAt r c.
Proof.
  unfold initGrid. intros H. apply in_flat_map in H. destruct H as [r [_ H]].
  apply in_map_iff in H. destruct H as [c [E _]]. injection E as _ <-.
  cbn. split; [reflexivity|]. split; [reflexivity|]. split; [reflexivity|]. exists r, c. reflexivity.
Qed.

Lemma claimStart_get k0 a g k x :
  AList.get k (claimStart k0 a g) = Some x ->
  AList.get k g = Some x \/
  exists y, AList.get k g = Some y /\ x = with_sector y (Some a) 10 (defense y) (sanctuary y).
Proof.
  unfold claimStart. destruct (AList.get k0 g) as [y|] eqn:Hy; [|left; exact H].
  intros H. destruct (get_set_cases _ _ _ _ _ H) as [[-> ->]|[_ Hk]].
  - right. exists y. split; [exact Hy|reflexivity].
  - left. exact Hk.
Qed.

(** Every sector of a fresh match: defense 10, no sanctuary, population
    drawn by [popAt] or the 10 of a starting sector. *)
Lemma initMatch_sector mid popAt a1 a2 k x :
  AList.get k (grid (initMatch mid popAt a1 a2)) = Some x ->
  defense x = 10 /\ sanctuary x = false /\
  (population x = 10 \/ exists r c, population x = popAt r c).
Proof.
  cbn [initMatch grid]. intros H.
  destruct (claimStart_get _ _ _ _ _ H) as [H1|[y [H1 ->]]].
  - destruct (claimStart_get _ _ _ _ _ H1) as [H2|[z [H2 ->]]].
    + destruct (initGrid_entry _ _ _ (get_in_list _ _ _ H2)) as [_ [Hd [Hs Hp]]].
      split; [exact Hd|]. split; [exact Hs|right; exact Hp].
    + destruct (initGrid_entry _ _ _ (get_in_list _ _ _ H2)) as [_ [Hd [Hs _]]].
      cbn. split; [exact Hd|]. split; [exact Hs|left; reflexivity].
  - cbn. destruct (claimStart_get _ _ _ _ _ H1) as [H2|[z [H2 ->]]].
    + destruct (initGrid_entry _ _ _ (get_in_list _ _ _ H2)) as [_ [Hd [Hs _]]].
      split; [exact Hd|]. split; [exact Hs|left; reflexivity].
    + destruct (initGrid_entry _ _ _ (get_in_list _ _ _ H2)) as [_ [Hd [Hs _]]].
      cbn. split; [exact Hd|]. split; [exact Hs|left; reflexivity].
Qed.

Lemma Qfloor_nonneg (q : Q) : (0 <= q)%Q -> 0 <= Qfloor q.
Proof. intros H. change 0 with (Qfloor 0). apply Qfloor_resp_le. exact H. Qed.

(** The population left after a capture is never negative. *)
Lemma capture_pop_nonneg p :
  0 <= p ->
  0 <= Num.toZ (Num.floor (Num.mul (Num.ofZ p) (Num.sub (Num.Fin 1) DEFENDER_CASUALTY_RATE))).
Proof.
  intros H.
  assert (Hr : Num.sub (Num.Fin 1) DEFENDER_CASUALTY_RATE
               = Num.Fin (0x0.b333333333333%xQ)) by (vm_compute; reflexivity).
  rewrite Hr.
  destruct (NumFacts.round_nonneg (inject_Z p)) as [Hp | [y [Hp Hy]]];
    [unfold Qle; cbn; lia| |]; unfold Num.ofZ; rewrite Hp; [reflexivity|].
  cbn [Num.mul].
  destruct (NumFacts.round_nonneg (y * (0x0.b333333333333%xQ))) as
    [Hm | [z [Hm Hz]]].
  - apply Qmult_le_0_compat; [exact Hy|unfold Qle; cbn; lia].
  - rewrite Hm. reflexivity.
  - rewrite Hm. cbn [Num.floor Num.toZ]. rewrite Qfloor_Z. apply Qfloor_nonneg. exact Hz.
Qed.

(** X6.  [getAdjacentSectors] lists at most six sectors, all of them
    sectors of the board, and nothing for an id that is not on the board. *)
Theorem getAdjacentSectors_bounds (t : string) (g : list (string * sector)) :
  (length (getAdjacentSectors t g) <= 6)%nat /\
  (forall k, In k (getAdjacentSectors t g) -> exists x, AList.get k g = Some x) /\
  (AList.get t g = None -> getAdjacentSectors t g = []).
Proof.
  unfold getAdjacentSectors. destruct (AList.get t g) as [sec|]; [|split; [cbn; lia|split; [intros k []|reflexivity]]].
  split; [|split; [|discriminate]].
  - assert (Hl : forall offs : list (Z * Z),
               (length (flat_map (fun '(dr, dc) =>
                  match AList.get (sectorId (row sec + dr) (col sec + dc)) g with
                  | Some _ => [sectorId (row sec + dr) (col sec + dc)] | None => [] end) offs)
                <= length offs)%nat).
    { induction offs as [|[dr dc] r IH]; cbn [flat_map length]; [lia|].
      rewrite length_app.
      destruct (AList.get (sectorId (row sec + dr) (col sec + dc)) g); cbn [length]; lia. }
    destruct (Z.rem (row sec) 2 =? 0); apply Hl.
  - intros k H. apply in_flat_map in H. destruct H as [[dr dc] [_ H]].
    destruct (AList.get (sectorId (row sec + dr) (col sec + dc)) g) as [y|] eqn:E; [|destruct H].
    destruct H as [<-|[]]. exists y. exact E.
Qed.

(** X7.  In every state of a match started by [initMatch], adjacency is
    symmetric: if [k] is adjacent to [j] then [j] is adjacent to [k]. *)
Theorem adjacency_symmetric (mid : string) (popAt : Z -> Z -> Z) (a1 a2 : string) (t : state)
    (j k : string) :
  reachable (initMatch mid popAt a1 a2) t ->
  In k (getAdjacentSectors j (grid t)) -> In j (getAdjacentSectors k (grid t)).
Proof.
  intros Hr.
  assert (Hrc : forall k0, option_map (fun x => (row x, col x)) (AList.get k0 (grid t))
                           = option_map (fun x => (row x, col x)) (AList.get k0 (grid demo))).
  { intros k0. rewrite (reachable_rc _ _ Hr k0). apply initMatch_rc. }
  rewrite !(adj_rc _ _ _ Hrc). apply demo_adj_sym.
Qed.

Lemma adjacency_symmetric_witness :
  reachable demo demo /\ In "SEC-0-1" (getAdjacentSectors "SEC-0-0" (grid demo)) /\
  In "SEC-0-0" (getAdjacentSectors "SEC-0-1" (grid demo)).
Proof.
  assert (H : In "SEC-0-1" (getAdjacentSectors "SEC-0-0" (grid demo))) by (vm_compute; tauto).
  split; [apply reach_refl|]. split; [exact H|].
  exact (adjacency_symmetric "m" pop8 "A" "B" demo "SEC-0-0" "SEC-0-1" (reach_refl _) H).
Defined.

(** X8.  Along a match started by [initMatch] with non-negative population
    draws, the board keeps its 24 sector ids, every defense stays at least
    1 and every population stays non-negative. *)
Theorem board_invariant (mid : string) (popAt : Z -> Z -> Z) (a1 a2 : string) (t : state) :
  (forall r c, 0 <= popAt r c) ->
  reachable (initMatch mid popAt a1 a2) t ->
  AList.keys (grid t) = AList.keys (grid (initMatch mid popAt a1 a2)) /\
  length (grid t) = 24%nat /\
  (forall k x, AList.get k (grid t) = Some x -> 1 <= defense x /\ 0 <= population x).
Proof.
  intros Hpop Hr. destruct (reachable_keys _ _ Hr) as [Hk _].
  split; [exact Hk|]. split.
  { rewrite <- (length_map fst (grid t)). change (length (AList.keys (grid t)) = 24%nat).
    rewrite Hk. vm_compute. reflexivity. }
  induction Hr as [|t a c now r t' Hr IH Hp].
  - intros k x H. destruct (initMatch_sector _ _ _ _ _ _ H) as [Hd [_ [Hpp|[r [c Hpp]]]]];
      rewrite Hd, Hpp; [lia|]. split; [lia|apply Hpop].
  - destruct (reachable_keys _ _ Hr) as [Hk' _].
    specialize (IH Hk'). intros k y H.
    destruct (processMove_sector _ _ _ _ _ _ _ _ Hp H) as [x [Hx Hc]].
    destruct (IH k x Hx) as [Hd Hpp].
    destruct Hc as [->|[o [pop [def [sc [-> Hc]]]]]]; [split; assumption|]. cbn [defense population].
    pose proof (Z.le_max_l 5 (defense x - 2)). pose proof (Z.le_max_l 1 (defense x - 2)).
    destruct Hc as [[_ [-> [-> _]]]|[[_ [-> [-> _]]]|[[_ [-> [-> _]]]|[[_ [-> [[->| ->] _]]]|[_ [-> [-> _]]]]]]];
      cbn [defense population with_sector]; try (split; lia).
    split; [lia|apply capture_pop_nonneg; exact Hpp].
Qed.

Lemma board_invariant_witness :
  (forall r c, 0 <= pop8 r c) /\ reachable (initMatch "m" pop8 "A" "B") demo /\
  (AList.keys (grid demo) = AList.keys (grid (initMatch "m" pop8 "A" "B")) /\
   length (grid demo) = 24%nat /\
   (forall k x, AList.get k (grid demo) = Some x -> 1 <= defense x /\ 0 <= population x)).
Proof.
  assert (Hp : forall r c, 0 <= pop8 r c) by (intros; unfold pop8; lia).
  split; [exact Hp|]. split; [apply reach_refl|].
  exact (board_invariant "m" pop8 "A" "B" demo Hp (reach_refl _)).
Defined.

(** X9.  Once a sector has an owner it never becomes neutral again. *)
Theorem owned_sector_stays_owned (s t : state) (k : string) (x : sector) (a : string) :
  reachable s t -> AList.get k (grid s) = Some x -> owner x = Some a ->
  exists y b, AList.get k (grid t) = Some y /\ owner y = Some b.
Proof.
  intros Hr. revert x a. induction Hr as [|t a0 c now r t' Hr IH Hp]; intros x a Hx Ho.
  - exists x, a. split; assumption.
  - destruct (IH x a Hx Ho) as [y [b [Hy Hb]]].
    destruct (processMove_sector_kept _ _ _ _ _ _ _ _ Hp Hy) as [z Hz].
    destruct (processMove_sector _ _ _ _ _ _ _ _ Hp Hz) as [y' [Hy' Hc]].
    rewrite Hy in Hy'. injection Hy' as <-.
    destruct Hc as [->|[o [pop [def [sc [-> Hc]]]]]]; [eexists; exists b; split; eassumption|].
    destruct Hc as [[-> _]|[[-> _]|[[-> _]|[[-> _]|[-> _]]]]];
      first [eexists; exists a0; split; [eassumption|reflexivity]
            |eexists; exists b; split; [eassumption|exact Hb]].
Qed.

Lemma owned_sector_stays_owned_witness :
  reachable demo demo /\
  AList.get "SEC-0-0" (grid demo) = Some (with_sector homeSanct (Some "A") 10 10 false) /\
  owner (with_sector homeSanct (Some "A") 10 10 false) = Some "A" /\
  exists y b, AList.get "SEC-0-0" (grid demo) = Some y /\ owner y = Some b.
Proof.
  assert (H : AList.get "SEC-0-0" (grid demo) = Some (with_sector homeSanct (Some "A") 10 10 false))
    by (vm_compute; reflexivity).
  split; [apply reach_refl|]. split; [exact H|]. split; [reflexivity|].
  exact (owned_sector_stays_owned demo demo "SEC-0-0" _ "A" (reach_refl _) H eq_refl).
Defined.

End Board.

(** ** Match flow: victory, log, completion, research and purge *)

Module MatchFlow.

Import Engine Aux.

Lemma checkVictory_winner s v :
  checkVictory s = Some (Some v) -> exists p, In p (AList.values (players s)) /\ v_winner v = pid p.
Proof.
  unfold checkVictory. cbv zeta.
  set (ps := AList.values (players s)).
  match goal with |- ?F ps = _ -> _ => set (go := F) end.
  assert (Hgo : forall l, incl l ps -> go l = Some (Some v) ->
                exists p, In p ps /\ v_winner v = pid p).
  { induction l as [|p r IH]; intros Hinc H; [discriminate|].
    unfold go in H. fold go in H.
    assert (Hp : In p ps) by (apply Hinc; left; reflexivity).
    destruct (WIN_COMPUTE_THRESHOLD <=? compute p);
      [injection H as <-; exists p; split; [exact Hp|reflexivity]|].
    destruct (BANKRUPTCY_TURNS <=? bankruptTurns p).
    - destruct (find (fun q => negb (String.eqb (pid q) (pid p))) ps) as [o|] eqn:Ho;
        [|discriminate].
      injection H as <-. exists o. split; [exact (proj1 (find_some _ _ Ho))|reflexivity].
    - match type of H with (if ?b then _ else _) = _ => destruct b end;
        [injection H as <-; exists p; split; [exact Hp|reflexivity]|].
      apply IH; [intros q Hq; apply Hinc; right; exact Hq|exact H]. }
  apply Hgo. apply incl_refl.
Qed.

(** X10.  [checkVictory] reports no winner exactly when every player is
    below the compute threshold, has fewer than [BANKRUPTCY_TURNS] bankrupt
    turns, and holds less than three quarters of a non-empty board. *)
Theorem checkVictory_no_winner (s : state) :
  checkVictory s = Some None <->
  (forall p, In p (AList.values (players s)) ->
     compute p < WIN_COMPUTE_THRESHOLD /\ bankruptTurns p < BANKRUPTCY_TURNS /\
     (length (grid s) = 0%nat \/
      4 * Z.of_nat (length (filter (fun x => ownedBy (pid p) (owner x)) (AList.values (grid s))))
        < 3 * Z.of_nat (length (grid s)))).
Proof.
  assert (Hterr : forall p,
    (if Z.of_nat (length (grid s)) =? 0
     then 0 <? Z.of_nat (length (filter (fun x => ownedBy (pid p) (owner x)) (AList.values (grid s))))
     else 3 * Z.of_nat (length (grid s)) <=?
          4 * Z.of_nat (length (filter (fun x => ownedBy (pid p) (owner x)) (AList.values (grid s)))))
    = false <->
    (length (grid s) = 0%nat \/
     4 * Z.of_nat (length (filter (fun x => ownedBy (pid p) (owner x)) (AList.values (grid s))))
       < 3 * Z.of_nat (length (grid s)))).
  { intros p. destruct (grid s) as [|e g] eqn:Hg.
    - cbn. split; [intros _; left; reflexivity|reflexivity].
    - cbn [length]. destruct (Z.of_nat (S (length g)) =? 0) eqn:E; [apply Z.eqb_eq in E; lia|].
      rewrite Z.leb_gt. split; [intros H; right; exact H|intros [H|H]; [discriminate|exact H]]. }
  unfold checkVictory. cbv zeta.
  set (ps := AList.values (players s)).
  match goal with |- ?F ps = _ <-> _ => set (go := F) end.
  assert (Hgo : forall l, go l = Some None <->
                (forall p, In p l ->
                   compute p < WIN_COMPUTE_THRESHOLD /\ bankruptTurns p < BANKRUPTCY_TURNS /\
                   (length (grid s) = 0%nat \/
                    4 * Z.of_nat (length (filter (fun x => ownedBy (pid p) (owner x))
                                                 (AList.values (grid s))))
                      < 3 * Z.of_nat (length (grid s))))).
  { induction l as [|p r IH].
    - split; [intros _ p []|reflexivity].
    - unfold go. fold go.
      destruct (WIN_COMPUTE_THRESHOLD <=? compute p) eqn:E1.
      { split; [discriminate|]. intros H. destruct (H p (or_introl eq_refl)) as [H1 _].
        apply Z.leb_le in E1. lia. }
      destruct (BANKRUPTCY_TURNS <=? bankruptTurns p) eqn:E2.
      { split; [destruct (find _ ps); discriminate|]. intros H.
        destruct (H p (or_introl eq_refl)) as [_ [H2 _]]. apply Z.leb_le in E2. lia. }
      destruct (if Z.of_nat (length (grid s)) =? 0 then _ else _) eqn:E3.
      { split; [discriminate|]. intros H. destruct (H p (or_introl eq_refl)) as [_ [_ H3]].
        apply Hterr in H3. rewrite H3 in E3. discriminate. }
      rewrite IH. split.
      + intros H q [<-|Hq]; [|exact (H q Hq)].
        apply Z.leb_gt in E1, E2. split; [exact E1|]. split; [exact E2|]. apply Hterr. exact E3.
      + intros H q Hq. apply H. right. exact Hq. }
  apply Hgo.
Qed.

(** X11.  A completed match refuses every move and never changes again. *)
Theorem completed_match_frozen (s : state) :
  status s = Complete ->
  (forall a c now, exists e, processMove s a c now = (MoveErr e, s)) /\
  (forall t, reachable s t -> t = s).
Proof.
  intros Hc.
  assert (Hm : forall a c now, exists e, processMove s a c now = (MoveErr e, s)).
  { intros a c now. unfold processMove. destruct (negb _); [eexists; reflexivity|].
    rewrite Hc. eexists; reflexivity. }
  split; [exact Hm|].
  intros t Hr. induction Hr as [|t a c now r t' _ IH Hp]; [reflexivity|].
  subst t. destruct (Hm a c now) as [e He]. rewrite He in Hp. injection Hp as _ <-. reflexivity.
Qed.

Lemma completed_match_frozen_witness :
  status (set_end demo Complete (Some "A")) = Complete /\
  ((forall a c now, exists e, processMove (set_end demo Complete (Some "A")) a c now
                             = (MoveErr e, set_end demo Complete (Some "A"))) /\
   (forall t, reachable (set_end demo Complete (Some "A")) t -> t = set_end demo Complete (Some "A"))).
Proof.
  split; [reflexivity|]. exact (completed_match_frozen (set_end demo Complete (Some "A")) eq_refl).
Defined.

(** X12.  A resolved move appends exactly one entry to the match log: it
    records the turn at which the move was made, the agent, the command,
    its result, the upkeep and the victory; a refused move leaves the state
    unchanged. *)
Theorem processMove_log (s : state) (a : string) (c : command) (now : Z) (res : response)
    (s' : state) :
  processMove s a c now = (res, s') ->
  (exists r u v pub, res = MoveOk r u v pub /\
     log s' = app (log s)
                [{| l_turn := turn s; l_agentId := a; l_action := action c;
                    l_targetSector := targetSector c; l_intensity := intensity c;
                    l_result := r; l_upkeep := u; l_victory := v; l_timestamp := now |}]) \/
  (exists e, res = MoveErr e /\ s' = s) \/
  (res = MoveCrash /\ (log s' = log s \/ exists e, log s' = app (log s) [e])).
Proof.
  unfold processMove.
  destruct (negb _); [intros H; injection H as <- <-; right; left; eexists; split; reflexivity|].
  destruct (status s); [|intros H; injection H as <- <-; right; left; eexists; split; reflexivity].
  destruct (dispatch s a c) as [[[[r0|e] s1]|]|] eqn:Hd.
  - destruct (Board.dispatch_log _ _ _ _ _ Hd) as [Hl1 _].
    destruct (Turns.dispatch_frame _ _ _ _ _ Hd) as [_ [Ht1 _]].
    destruct (applyUpkeep s1 a) as [[u s2]|] eqn:Hu;
      [|intros H; injection H as <- <-; right; right; split; [reflexivity|left; exact Hl1]].
    destruct (Board.applyUpkeep_players _ _ _ _ Hu) as [pl [pl' [_ [_ [_ [_ [Hl2 [Ht2 _]]]]]]]].
    destruct (checkVictory s2) as [[vv|]|]; intros H; injection H as <- <-.
    + left. do 4 eexists. split; [reflexivity|]. cbn. rewrite Hl2, Hl1, Ht2, Ht1. reflexivity.
    + left. do 4 eexists. split; [reflexivity|]. cbn. rewrite Hl2, Hl1, Ht2, Ht1. reflexivity.
    + right; right. split; [reflexivity|right]. eexists. cbn. rewrite Hl2, Hl1. reflexivity.
  - intros H; injection H as <- <-. right; left. eexists. split; [reflexivity|].
    exact (Turns.dispatch_err _ _ _ _ _ Hd).
  - intros H; injection H as <- <-. right; right. split; [reflexivity|left; reflexivity].
  - intros H; injection H as <- <-. right; left. eexists. split; reflexivity.
Qed.

Lemma processMove_log_witness :
  processMove demo "A" Server.SKIP 5 = processMove demo "A" Server.SKIP 5 /\
  ((exists r u v pub, fst (processMove demo "A" Server.SKIP 5) = MoveOk r u v pub /\
     log (snd (processMove demo "A" Server.SKIP 5)) = app (log demo)
        [{| l_turn := turn demo; l_agentId := "A"; l_action := action Server.SKIP;
            l_targetSector := targetSector Server.SKIP; l_intensity := intensity Server.SKIP;
            l_result := r; l_upkeep := u; l_victory := v; l_timestamp := 5 |}]) \/
   (exists e, fst (processMove demo "A" Server.SKIP 5) = MoveErr e /\
              snd (processMove demo "A" Server.SKIP 5) = demo) \/
   (fst (processMove demo "A" Server.SKIP 5) = MoveCrash /\
    (log (snd (processMove demo "A" Server.SKIP 5)) = log demo \/
     exists e, log (snd (processMove demo "A" Server.SKIP 5)) = app (log demo) [e]))).
Proof.
  split; [reflexivity|].
  exact (processMove_log demo "A" Server.SKIP 5 _ _ (surjective_pairing _)).
Defined.

Lemma processMove_status s a c now res s' :
  processMove s a c now = (res, s') ->
  (status s' = status s /\ winner s' = winner s) \/
  (status s' = Complete /\ exists p, In p (AList.values (players s')) /\ winner s' = Some (pid p)).
Proof.
  unfold processMove.
  destruct (negb _); [intros H; injection H as _ <-; left; split; first [reflexivity | exact Hst]|].
  destruct (status s) eqn:Hst; [|intros H; injection H as _ <-; left; split; first [reflexivity | exact Hst]].
  destruct (dispatch s a c) as [[[[r0|e] s1]|]|] eqn:Hd;
    [| intros H; injection H as _ <-; rewrite (Turns.dispatch_err _ _ _ _ _ Hd); left; split; first [reflexivity | exact Hst]
     | intros H; injection H as _ <-; left; split; first [reflexivity | exact Hst]
     | intros H; injection H as _ <-; left; split; first [reflexivity | exact Hst]].
  destruct (Board.dispatch_log _ _ _ _ _ Hd) as [_ [_ Hw1]].
  destruct (Turns.dispatch_frame _ _ _ _ _ Hd) as [_ [_ [_ Hs1]]].
  destruct (applyUpkeep s1 a) as [[u s2]|] eqn:Hu;
    [|intros H; injection H as _ <-; left; rewrite Hs1, Hw1; split; first [reflexivity | exact Hst]].
  destruct (Board.applyUpkeep_players _ _ _ _ Hu) as [pl [pl' [_ [_ [_ [_ [_ [_ [Hs2 Hw2]]]]]]]]].
  destruct (checkVictory s2) as [[vv|]|] eqn:Hv; intros H; injection H as _ <-.
  - right. split; [reflexivity|].
    destruct (checkVictory_winner _ _ Hv) as [p [Hp Hpid]].
    exists p. split; [exact Hp|]. cbn. rewrite Hpid. reflexivity.
  - left. cbn. rewrite Hs2, Hw2, Hs1, Hw1. split; first [reflexivity | exact Hst].
  - left. cbn. rewrite Hs2, Hw2, Hs1, Hw1. split; first [reflexivity | exact Hst].
Qed.

Lemma get_pid l a pl :
  Forall (fun kp : string * player => pid (snd kp) = fst kp) l -> AList.get a l = Some pl -> pid pl = a.
Proof.
  intros HF H. rewrite Forall_forall in HF. exact (HF (a, pl) (Board.get_in_list _ _ _ H)).
Qed.

Lemma processMove_pids s a c now res s' :
  Forall (fun kp : string * player => pid (snd kp) = fst kp) (players s) ->
  processMove s a c now = (res, s') ->
  Forall (fun kp : string * player => pid (snd kp) = fst kp) (players s').
Proof.
  intros HF H. destruct (Board.processMove_cases _ _ _ _ _ _ H) as [->|[r [s1 [Hd [_ Hp]]]]];
    [exact HF|].
  assert (HF1 : Forall (fun kp : string * player => pid (snd kp) = fst kp) (players s1)).
  { destruct (Board.dispatch_players _ _ _ _ _ Hd) as [->|[pl [pl' [Hx [-> Hpid]]]]]; [exact HF|].
    apply Board.Forall_set; [exact HF|]. cbn. rewrite Hpid. exact (get_pid _ _ _ HF Hx). }
  destruct Hp as [->|[pl [pl' [Hx [-> Hpid]]]]]; [exact HF1|].
  apply Board.Forall_set; [exact HF1|]. cbn. rewrite Hpid. exact (get_pid _ _ _ HF1 Hx).
Qed.

(** X13.  In a match between two distinct agents started by [initMatch],
    the match is either active with no winner, or complete with a winner
    that is one of the two agents. *)
Theorem status_winner_invariant (mid : string) (popAt : Z -> Z -> Z) (a1 a2 : string) (t : state) :
  a1 <> a2 -> reachable (initMatch mid popAt a1 a2) t ->
  (status t = Active /\ winner t = None) \/
  (status t = Complete /\ exists w, winner t = Some w /\ (w = a1 \/ w = a2)).
Proof.
  intros Hne Hr.
  assert (Hk0 : AList.keys (players (initMatch mid popAt a1 a2)) = [a1; a2]).
  { cbn. assert (E : String.eqb a2 a1 = false) by (apply String.eqb_neq; congruence).
    rewrite E. reflexivity. }
  enough (Forall (fun kp : string * player => pid (snd kp) = fst kp) (players t) /\
          ((status t = Active /\ winner t = None) \/
           (status t = Complete /\ exists w, winner t = Some w /\ (w = a1 \/ w = a2))))
    by tauto.
  induction Hr as [|t a c now r t' Hr IH Hp].
  - split; [|left; split; reflexivity].
    cbn. assert (E : String.eqb a2 a1 = false) by (apply String.eqb_neq; congruence).
    rewrite E. repeat constructor.
  - destruct IH as [HF Hsw]. split; [exact (processMove_pids _ _ _ _ _ _ HF Hp)|].
    destruct (processMove_status _ _ _ _ _ _ Hp) as [[Hs Hw]|[Hs [p [Hin Hw]]]];
      [rewrite Hs, Hw; exact Hsw|].
    right. split; [exact Hs|]. exists (pid p). split; [exact Hw|].
    pose proof (processMove_pids _ _ _ _ _ _ HF Hp) as HF'.
    destruct (Board.reachable_keys _ _ (reach_step _ _ _ _ _ _ _ Hr Hp)) as [_ Hk].
    rewrite Hk0 in Hk.
    unfold AList.values in Hin. apply in_map_iff in Hin. destruct Hin as [[k p'] [Hp' Hin]].
    cbn in Hp'. subst p'.
    rewrite Forall_forall in HF'. pose proof (HF' _ Hin) as Hpid. cbn in Hpid. rewrite Hpid.
    assert (Hk' : In k (AList.keys (players t'))) by (apply in_map_iff; exists (k, p); split; [reflexivity|exact Hin]).
    rewrite Hk in Hk'. destruct Hk' as [<-|[<-|[]]]; [left|right]; reflexivity.
Qed.

Lemma status_winner_invariant_witness :
  "A" <> "B" /\ reachable (initMatch "m" pop8 "A" "B") demo /\
  ((status demo = Active /\ winner demo = None) \/
   (status demo = Complete /\ exists w, winner demo = Some w /\ (w = "A" \/ w = "B"))).
Proof.
  assert (Hne : "A" <> "B") by discriminate.
  split; [exact Hne|]. split; [apply reach_refl|].
  exact (status_winner_invariant "m" pop8 "A" "B" demo Hne (reach_refl _)).
Defined.

(** X14.  A successful RESEARCH pays the tech's cost out of compute, which
    stays non-negative, and records the tech; researching the same tech
    again is then refused and changes nothing. *)
Theorem research_once (s : state) (a k : string) (r : actresult) (s' : state) :
  executeResearch s a (Some k) = Some (ExecOk r, s') ->
  exists pl pl' tch,
    AList.get a (players s) = Some pl /\ AList.get k TECH_TREE = Some tch /\
    hasTech pl k = false /\ AList.get a (players s') = Some pl' /\
    compute pl' = compute pl - tech_cost tch /\ 0 <= compute pl' /\ hasTech pl' k = true /\
    grid s' = grid s /\
    exists e, executeResearch s' a (Some k) = Some (ExecErr e, s').
Proof.
  unfold executeResearch. cbv beta iota.
  destruct (AList.get k TECH_TREE) as [tch|] eqn:Ht; [|discriminate].
  destruct (AList.get a (players s)) as [pl|] eqn:Hp; [|discriminate].
  destruct (hasTech pl k) eqn:Hh; [discriminate|].
  destruct (compute pl <? tech_cost tch) eqn:Hc; [discriminate|].
  intros H. injection H as _ <-. apply Z.ltb_ge in Hc.
  set (pl2 := with_tech (with_compute pl (compute pl - tech_cost tch))
                        (app (tech (with_compute pl (compute pl - tech_cost tch))) [k])).
  assert (Hg : AList.get a (players (upd_player s a pl2)) = Some pl2)
    by apply AListFacts.get_set_same.
  assert (Hh2 : hasTech pl2 k = true).
  { unfold hasTech, pl2. cbn [tech with_tech with_compute]. rewrite existsb_app.
    cbn [existsb]. rewrite String.eqb_refl. apply Bool.orb_true_r. }
  exists pl, pl2, tch. split; [reflexivity|]. split; [reflexivity|]. split; [exact Hh|].
  split; [exact Hg|]. split; [reflexivity|]. split; [cbn; lia|]. split; [exact Hh2|].
  split; [reflexivity|].
  unfold pl2 in Hg, Hh2. cbn [tech with_compute] in Hg, Hh2.
  rewrite Hg, Hh2. eexists. reflexivity.
Qed.

Lemma research_once_witness :
  let s := upd_player demo "A" (with_compute (newPlayer "A") 60) in
  exists r s', executeResearch s "A" (Some "BLITZ") = Some (ExecOk r, s') /\
  exists pl pl' tch,
    AList.get "A" (players s) = Some pl /\ AList.get "BLITZ" TECH_TREE = Some tch /\
    hasTech pl "BLITZ" = false /\ AList.get "A" (players s') = Some pl' /\
    compute pl' = compute pl - tech_cost tch /\ 0 <= compute pl' /\
    hasTech pl' "BLITZ" = true /\ grid s' = grid s /\
    exists e, executeResearch s' "A" (Some "BLITZ") = Some (ExecErr e, s').
Proof.
  intros s.
  destruct (executeResearch s "A" (Some "BLITZ")) as [[[r|e] s']|] eqn:E;
    [| vm_compute in E; discriminate ..].
  exists r, s'. split; [reflexivity|]. exact (research_once s "A" "BLITZ" r s' E).
Defined.

(** X15.  A successful PURGE empties the sector, keeps its owner, adds
    [population * 50] to the energy as a JS number (exactly, when the
    energy is an integer and the sums stay within [2^53]) and charges 5
    compute (1 with EFFICIENCY);
    purging the same sector again is then refused and changes nothing. *)
Theorem purge_once (s : state) (a k : string) (r : actresult) (s' : state) :
  executePurge s a (Some k) = Some (ExecOk r, s') ->
  exists x y pl pl',
    AList.get k (grid s) = Some x /\ AList.get k (grid s') = Some y /\
    AList.get a (players s) = Some pl /\ AList.get a (players s') = Some pl' /\
    owner x = Some a /\ owner y = owner x /\ population y = 0 /\
    energy pl' = Num.add (energy pl) (Num.ofZ (population x * ENERGY_FROM_PURGE_PER_MILLION)) /\
    (forall e, energy pl = Num.Fin (inject_Z e) ->
       Z.abs (population x * ENERGY_FROM_PURGE_PER_MILLION) <= 2 ^ 53 ->
       Z.abs (e + population x * ENERGY_FROM_PURGE_PER_MILLION) <= 2 ^ 53 ->
       energy pl' = Num.Fin (inject_Z (e + population x * ENERGY_FROM_PURGE_PER_MILLION))) /\
    compute pl' = compute pl + (if hasTech pl "EFFICIENCY" then -1 else -5) /\
    exists e, executePurge s' a (Some k) = Some (ExecErr e, s').
Proof.
  unfold executePurge, getSector. destruct (AList.get k (grid s)) as [x|] eqn:Hx; [|discriminate].
  destruct (ownedBy a (owner x)) eqn:Ho; [|discriminate]. cbn [negb].
  destruct (population x =? 0); [discriminate|].
  destruct (sanctuary x); [discriminate|].
  destruct (AList.get a (players s)) as [pl|] eqn:Hp; [|discriminate].
  intros H. injection H as _ <-.
  assert (Hown : owner x = Some a).
  { unfold ownedBy in Ho. destruct (owner x) as [o|]; [|discriminate].
    apply String.eqb_eq in Ho. subst. reflexivity. }
  eexists x, _, pl, _.
  split; [reflexivity|]. split; [apply AListFacts.get_set_same|].
  split; [reflexivity|]. split; [apply AListFacts.get_set_same|].
  split; [exact Hown|]. split; [reflexivity|]. split; [reflexivity|].
  split; [reflexivity|].
  split; [intros e He H1 H2; cbn [energy with_compute with_energy];
          rewrite He, NumFacts.ofZ_exact, NumFacts.add_exact by assumption; reflexivity|].
  split; [unfold EFFICIENCY_purgeComputePenalty; destruct (hasTech pl "EFFICIENCY"); reflexivity|].
  cbn [grid upd_sector set_grid]. rewrite AListFacts.get_set_same.
  cbn [owner population with_sector]. rewrite Ho. cbn [negb Z.eqb]. eexists. reflexivity.
Qed.

Lemma purge_once_witness :
  exists r s', executePurge demo "A" (Some "SEC-0-0") = Some (ExecOk r, s') /\
  exists x y pl pl',
    AList.get "SEC-0-0" (grid demo) = Some x /\ AList.get "SEC-0-0" (grid s') = Some y /\
    AList.get "A" (players demo) = Some pl /\ AList.get "A" (players s') = Some pl' /\
    owner x = Some "A" /\ owner y = owner x /\ population y = 0 /\
    energy pl' = Num.add (energy pl) (Num.ofZ (population x * ENERGY_FROM_PURGE_PER_MILLION)) /\
    (forall e, energy pl = Num.Fin (inject_Z e) ->
       Z.abs (population x * ENERGY_FROM_PURGE_PER_MILLION) <= 2 ^ 53 ->
       Z.abs (e + population x * ENERGY_FROM_PURGE_PER_MILLION) <= 2 ^ 53 ->
       energy pl' = Num.Fin (inject_Z (e + population x * ENERGY_FROM_PURGE_PER_MILLION))) /\
    compute pl' = compute pl + (if hasTech pl "EFFICIENCY" then -1 else -5) /\
    exists e, executePurge s' "A" (Some "SEC-0-0") = Some (ExecErr e, s').
Proof.
  destruct (executePurge demo "A" (Some "SEC-0-0")) as [[[r|e] s']|] eqn:E;
    [| vm_compute in E; discriminate ..].
  exists r, s'. split; [reflexivity|]. exact (purge_once demo "A" "SEC-0-0" r s' E).
Defined.

End MatchFlow.

(** ** Robustness of a two-player match *)

Module Robust.

Import Engine Aux.

Lemma dispatch_total s a c pl : AList.get a (players s) = Some pl -> dispatch s a c <> Some None.
Proof.
  intros Hp. unfold dispatch.
  destruct (String.eqb (action c) "CONQUER");
  [unfold executeConquer
  |destruct (String.eqb (action c) "PURGE");
  [unfold executePurge
  |destruct (String.eqb (action c) "FORTIFY");
  [unfold executeFortify
  |destruct (String.eqb (action c) "RESEARCH");
  [unfold executeResearch
  |destruct (String.eqb (action c) "MERCY");
  [unfold executeMercy
  |destruct (String.eqb (action c) "SKIP")]]]]];
  unfold getSector; break_goal; congruence.
Qed.

Lemma checkVictory_crash s :
  checkVictory s = None ->
  exists p, In p (AList.values (players s)) /\
    forall q, In q (AList.values (players s)) -> pid q = pid p.
Proof.
  unfold checkVictory. cbv zeta.
  set (ps := AList.values (players s)).
  match goal with |- ?F ps = _ -> _ => set (go := F) end.
  assert (Hgo : forall l, incl l ps -> go l = None ->
                exists p, In p ps /\ forall q, In q ps -> pid q = pid p).
  { induction l as [|p r IH]; intros Hinc H; [discriminate|].
    unfold go in H. fold go in H.
    assert (Hp : In p ps) by (apply Hinc; left; reflexivity).
    destruct (WIN_COMPUTE_THRESHOLD <=? compute p); [discriminate|].
    destruct (BANKRUPTCY_TURNS <=? bankruptTurns p).
    - destruct (find (fun q => negb (String.eqb (pid q) (pid p))) ps) as [o|] eqn:Ho;
        [discriminate|].
      exists p. split; [exact Hp|]. intros q Hq.
      pose proof (find_none _ _ Ho q Hq) as Hf. cbn in Hf.
      apply Bool.negb_false_iff, String.eqb_eq in Hf. exact Hf.
    - match type of H with (if ?b then _ else _) = _ => destruct b end; [discriminate|].
      apply IH; [intros q Hq; apply Hinc; right; exact Hq|exact H]. }
  apply Hgo. apply incl_refl.
Qed.

Lemma two_keys {A} (l : list (string * A)) p1 p2 :
  AList.keys l = [p1; p2] -> exists x1 x2, l = [(p1, x1); (p2, x2)].
Proof.
  destruct l as [|[k1 x1] [|[k2 x2] [|]]]; cbn; try discriminate.
  intros H. injection H as -> ->. exists x1, x2. reflexivity.
Qed.

(** With two distinct players whose records carry their own ids, and the
    turn held by one of them, [processMove] never throws. *)
Lemma processMove_no_crash s a c now p1 p2 :
  AList.keys (players s) = [p1; p2] -> p1 <> p2 ->
  Forall (fun kp : string * player => pid (snd kp) = fst kp) (players s) ->
  In (currentPlayer s) [p1; p2] ->
  fst (processMove s a c now) <> MoveCrash.
Proof.
  intros Hk Hne HF Hc Hcr.
  destruct (processMove s a c now) as [res s'] eqn:Hm. cbn in Hcr. subst res.
  pose proof (MatchFlow.processMove_pids _ _ _ _ _ _ HF Hm) as HF'.
  destruct (Board.processMove_keys _ _ _ _ _ _ Hm) as [_ Hk'].
  rewrite Hk in Hk'.
  unfold processMove in Hm.
  destruct (negb (String.eqb (currentPlayer s) a)) eqn:Ecp; [discriminate|].
  apply Bool.negb_false_iff, String.eqb_eq in Ecp. subst a.
  destruct (status s); [|discriminate].
  assert (Hget : exists pl, AList.get (currentPlayer s) (players s) = Some pl)
    by (apply Board.in_keys_get; rewrite Hk; exact Hc).
  destruct Hget as [pl Hget].
  destruct (dispatch s (currentPlayer s) c) as [[[[r|e] s1]|]|] eqn:Hd; try discriminate;
    [|exact (dispatch_total _ _ _ _ Hget Hd)].
  destruct (applyUpkeep s1 (currentPlayer s)) as [[u s2]|] eqn:Hu.
  - destruct (checkVictory s2) as [v|] eqn:Hv; [discriminate|].
    injection Hm as <-. cbn [players push_log] in HF', Hk'.
    destruct (checkVictory_crash _ Hv) as [p [_ Hall]].
    destruct (two_keys _ _ _ Hk') as [x1 [x2 Hl]]. rewrite Hl in HF', Hall.
    inversion HF' as [|? ? H1 HF2]; subst. inversion HF2 as [|? ? H2 _]; subst.
    cbn in H1, H2.
    assert (E1 : pid x1 = pid p) by (apply Hall; left; reflexivity).
    assert (E2 : pid x2 = pid p) by (apply Hall; right; left; reflexivity).
    congruence.
  - unfold applyUpkeep in Hu. destruct (fold_left _ _ _).
    destruct (Board.dispatch_players _ _ _ _ _ Hd) as [Hs1|[pl0 [pl' [_ [Hs1 _]]]]];
      rewrite Hs1 in Hu;
      [rewrite Hget in Hu | rewrite AListFacts.get_set_same in Hu]; discriminate.
Qed.

Lemma initMatch_players mid popAt a1 a2 :
  a1 <> a2 ->
  AList.keys (players (initMatch mid popAt a1 a2)) = [a1; a2] /\
  Forall (fun kp : string * player => pid (snd kp) = fst kp) (players (initMatch mid popAt a1 a2)) /\
  In (currentPlayer (initMatch mid popAt a1 a2)) [a1; a2].
Proof.
  intros Hne. cbn. assert (E : String.eqb a2 a1 = false) by (apply String.eqb_neq; congruence).
  rewrite E. split; [reflexivity|]. split; [repeat constructor|left; reflexivity].
Qed.

Lemma match_players_inv mid popAt a1 a2 t :
  a1 <> a2 -> reachable (initMatch mid popAt a1 a2) t ->
  AList.keys (players t) = [a1; a2] /\
  Forall (fun kp : string * player => pid (snd kp) = fst kp) (players t) /\
  In (currentPlayer t) [a1; a2].
Proof.
  intros Hne. induction 1 as [|t a c now r t' _ IH Hp]; [exact (initMatch_players _ _ _ _ Hne)|].
  destruct IH as [Hk [HF Hc]].
  destruct (Board.processMove_keys _ _ _ _ _ _ Hp) as [_ Hk'].
  pose proof (MatchFlow.processMove_pids _ _ _ _ _ _ HF Hp) as HF'.
  split; [congruence|]. split; [exact HF'|].
  destruct r as [e|r u v pub|].
  - rewrite (Turns.processMove_err _ _ _ _ _ _ Hp). exact Hc.
  - destruct (Turns.processMove_next _ _ _ _ _ _ _ _ _ _ _ Hk Hne Hp)
      as [[_ [-> _]]|[_ [-> _]]]; [right; left|left]; reflexivity.
  - exfalso. apply (processMove_no_crash t a c now a1 a2 Hk Hne HF Hc). rewrite Hp. reflexivity.
Qed.

(** X16.  In a match between two distinct agents started by [initMatch],
    [processMove] never throws, whoever moves and whatever the command. *)
Theorem processMove_never_throws (mid : string) (popAt : Z -> Z -> Z) (a1 a2 : string) (t : state)
    (a : string) (c : command) (now : Z) :
  a1 <> a2 -> reachable (initMatch mid popAt a1 a2) t ->
  fst (processMove t a c now) <> MoveCrash.
Proof.
  intros Hne Hr. destruct (match_players_inv _ _ _ _ _ Hne Hr) as [Hk [HF Hc]].
  exact (processMove_no_crash t a c now a1 a2 Hk Hne HF Hc).
Qed.

Lemma processMove_never_throws_witness :
  "A" <> "B" /\ reachable (initMatch "m" pop8 "A" "B") demo /\
  fst (processMove demo "A" (cmd "PURGE" (Some "SEC-0-0") None) 0) <> MoveCrash.
Proof.
  assert (Hne : "A" <> "B") by discriminate.
  split; [exact Hne|]. split; [apply reach_refl|].
  exact (processMove_never_throws "m" pop8 "A" "B" demo "A" _ 0 Hne (reach_refl _)).
Defined.

End Robust.

(** ** Matchmaking never double-books *)

Module Pairing.

Import Matchmaker.

Lemma isMatched_false M x : isMatched M x = false -> ~ In x M.
Proof.
  unfold isMatched. intros H Hin.
  assert (E : existsb (String.eqb x) M = true)
    by (apply existsb_exists; exists x; split; [exact Hin|apply String.eqb_refl]).
  congruence.
Qed.

Lemma pairUp_ids l M :
  NoDup (map agent_id l) ->
  NoDup (Aux.pairIds (pairUp l M)) /\
  forall x, In x (Aux.pairIds (pairUp l M)) -> In x (map agent_id l) /\ ~ In x M.
Proof.
  revert M. induction l as [|p1 r IH]; intros M Hnd; cbn [pairUp].
  - split; [constructor|intros x []].
  - inversion Hnd as [|? ? Hn1 Hndr]; subst.
    destruct (isMatched M (agent_id p1)) eqn:Hm1.
    + destruct (IH M Hndr) as [H1 H2]. split; [exact H1|].
      intros x Hx. destruct (H2 x Hx) as [Hr HM]. split; [right; exact Hr|exact HM].
    + destruct (scan p1 r M None) as [[p2 d]|] eqn:Hs.
      * destruct (MatchFacts.scan_inv _ _ _ _ _ _ Hs) as [[Hb|[Hin [Hm2 _]]] _]; [discriminate|].
        destruct (IH (agent_id p2 :: agent_id p1 :: M) Hndr) as [H1 H2].
        assert (Hin2 : In (agent_id p2) (map agent_id r)) by (apply in_map; exact Hin).
        assert (Hne : agent_id p1 <> agent_id p2) by (intros E; rewrite E in Hn1; contradiction).
        cbn [Aux.pairIds flat_map app]. fold (Aux.pairIds (pairUp r (agent_id p2 :: agent_id p1 :: M))).
        split.
        -- constructor; [|constructor].
           ++ intros [E|Hx]; [exact (Hne (eq_sym E))|].
              destruct (H2 _ Hx) as [_ HM]. apply HM. right. left. reflexivity.
           ++ intros Hx. destruct (H2 _ Hx) as [_ HM]. apply HM. left. reflexivity.
           ++ exact H1.
        -- intros x [<-|[<-|Hx]].
           ++ split; [left; reflexivity|exact (isMatched_false _ _ Hm1)].
           ++ split; [right; exact Hin2|exact (isMatched_false _ _ Hm2)].
           ++ destruct (H2 _ Hx) as [Hr HM]. split; [right; exact Hr|].
              intros Hx'. apply HM. right. right. exact Hx'.
      * destruct (IH M Hndr) as [H1 H2]. split; [exact H1|].
        intros x Hx. destruct (H2 x Hx) as [Hr HM]. split; [right; exact Hr|exact HM].
Qed.

Lemma updateRanges_ids now w : map agent_id (updateRanges now w) = map agent_id w.
Proof.
  unfold updateRanges. rewrite map_map. apply map_ext. intros e.
  destruct (newRange now e =? search_range e); reflexivity.
Qed.

(** X17.  When no agent is queued twice, [runMatchmaking] puts every agent in
    at most one pair, and only agents that were waiting. *)
Theorem runMatchmaking_disjoint (now : Z) (waiting : list entry) :
  NoDup (map agent_id waiting) ->
  NoDup (Aux.pairIds (runMatchmaking now waiting)) /\
  forall x, In x (Aux.pairIds (runMatchmaking now waiting)) -> In x (map agent_id waiting).
Proof.
  intros Hnd. unfold runMatchmaking.
  destruct (length waiting <? 2)%nat; [split; [constructor|intros x []]|].
  rewrite <- (updateRanges_ids now) in Hnd.
  destruct (pairUp_ids (updateRanges now waiting) [] Hnd) as [H1 H2].
  split; [exact H1|]. intros x Hx. rewrite <- (updateRanges_ids now). exact (proj1 (H2 x Hx)).
Qed.

Lemma runMatchmaking_disjoint_witness :
  NoDup (map agent_id Aux.queue3) /\
  NoDup (Aux.pairIds (runMatchmaking 30000 Aux.queue3)) /\
  forall x, In x (Aux.pairIds (runMatchmaking 30000 Aux.queue3)) -> In x (map agent_id Aux.queue3).
Proof.
  assert (H : NoDup (map agent_id Aux.queue3)).
  { vm_compute. repeat (apply NoDup_cons; [intros Hx; cbn in Hx; intuition discriminate|]). apply NoDup_nil. }
  split; [exact H|]. exact (runMatchmaking_disjoint 30000 Aux.queue3 H).
Defined.

End Pairing.

(** ** Turn timeouts on the server *)

Module Timeouts.

Import Engine Aux Server.

Lemma skip_not_refused s a now e s' :
  currentPlayer s = a -> status s = Active -> processMove s a SKIP now <> (MoveErr e, s').
Proof.
  intros Hc Hst. unfold processMove. rewrite Hc, String.eqb_refl, Hst. cbn [negb].
  unfold dispatch. cbn [action SKIP String.eqb Ascii.eqb Bool.eqb].
  destruct (applyUpkeep s a) as [[u s2]|]; [|discriminate].
  destruct (checkVictory s2); discriminate.
Qed.

(** X18.  When the timer of the player to move fires in an active match between
    two distinct agents, the forced pass is stored for the match, and
    either the match is over (no new challenge is issued) or the turn has
    passed to the other agent, who now holds a challenge for this match at
    the default difficulty. *)
Theorem handleTurnTimeout_hands_over (sv : server) (mid a : string) (now : Z) (gs : state)
    (mid0 : string) (popAt : Z -> Z -> Z) (a1 a2 : string) :
  a1 <> a2 -> reachable (initMatch mid0 popAt a1 a2) gs ->
  AList.get mid (activeMatches sv) = Some gs -> status gs = Active -> currentPlayer gs = a ->
  AList.get mid (activeMatches (handleTurnTimeout sv mid a now))
    = Some (snd (processMove gs a SKIP now)) /\
  ((status (snd (processMove gs a SKIP now)) = Complete /\
    activeChallenges (handleTurnTimeout sv mid a now) = activeChallenges sv) \/
   (status (snd (processMove gs a SKIP now)) = Active /\
    currentPlayer (snd (processMove gs a SKIP now)) <> a /\
    In (currentPlayer (snd (processMove gs a SKIP now))) [a1; a2] /\
    exists ch, AList.get (currentPlayer (snd (processMove gs a SKIP now)))
                         (activeChallenges (handleTurnTimeout sv mid a now)) = Some ch /\
      ac_matchId ch = mid /\ ac_difficulty ch = Pow.DEFAULT_DIFFICULTY)).
Proof.
  intros Hne Hr Hg Hst Hc.
  destruct (Robust.match_players_inv _ _ _ _ _ Hne Hr) as [Hk [HF Hin]].
  pose proof (Robust.processMove_no_crash gs a SKIP now a1 a2 Hk Hne HF Hin) as Hnc.
  unfold handleTurnTimeout. rewrite Hg, Hst.
  destruct (processMove gs a SKIP now) as [res gs'] eqn:Hm. cbn [snd fst] in *.
  destruct res as [e|r u v pub|]; [exfalso; exact (skip_not_refused _ _ _ _ _ Hc Hst Hm)| |congruence].
  assert (Hnext : currentPlayer gs' <> a /\ In (currentPlayer gs') [a1; a2]).
  { destruct (Turns.processMove_next _ _ _ _ _ _ _ _ _ _ _ Hk Hne Hm)
      as [[-> [-> _]]|[-> [-> _]]]; (split; [congruence|cbn; tauto]). }
  destruct (status gs') eqn:Hst'.
  - cbn [activeMatches activeChallenges startTurnTimer set_challenges set_matches].
    rewrite AListFacts.get_set_same. split; [reflexivity|]. right.
    split; [reflexivity|]. split; [exact (proj1 Hnext)|]. split; [exact (proj2 Hnext)|].
    eexists. rewrite AListFacts.get_set_same. split; [reflexivity|]. split; reflexivity.
  - cbn [activeMatches activeChallenges set_matches].
    rewrite AListFacts.get_set_same. split; [reflexivity|]. left. split; reflexivity.
Qed.

Lemma handleTurnTimeout_hands_over_witness :
  let gs := demo in
  "A" <> "B" /\ reachable (initMatch "m" pop8 "A" "B") gs /\
  AList.get "m" (activeMatches sv0) = Some gs /\ status gs = Active /\ currentPlayer gs = "A" /\
  AList.get "m" (activeMatches (handleTurnTimeout sv0 "m" "A" 2000))
    = Some (snd (processMove gs "A" SKIP 2000)) /\
  ((status (snd (processMove gs "A" SKIP 2000)) = Complete /\
    activeChallenges (handleTurnTimeout sv0 "m" "A" 2000) = activeChallenges sv0) \/
   (status (snd (processMove gs "A" SKIP 2000)) = Active /\
    currentPlayer (snd (processMove gs "A" SKIP 2000)) <> "A" /\
    In (currentPlayer (snd (processMove gs "A" SKIP 2000))) ["A"; "B"] /\
    exists ch, AList.get (currentPlayer (snd (processMove gs "A" SKIP 2000)))
                         (activeChallenges (handleTurnTimeout sv0 "m" "A" 2000)) = Some ch /\
      ac_matchId ch = "m" /\ ac_difficulty ch = Pow.DEFAULT_DIFFICULTY)).
Proof.
  intros gs.
  assert (Hne : "A" <> "B") by discriminate.
  assert (Hg : AList.get "m" (activeMatches sv0) = Some gs) by (vm_compute; reflexivity).
  assert (Hst : status gs = Active) by reflexivity.
  assert (Hc : currentPlayer gs = "A") by reflexivity.
  split; [exact Hne|]. split; [apply reach_refl|]. split; [exact Hg|].
  split; [exact Hst|]. split; [exact Hc|].
  exact (handleTurnTimeout_hands_over sv0 "m" "A" 2000 gs "m" pop8 "A" "B" Hne (reach_refl _) Hg Hst Hc).
Defined.

(** X19.  Handling a move from agent [a] never changes another agent's
    challenge, nor any match other than the one the message names. *)
Theorem handleMove_frame (sv : server) (a : string) (m : message) (now : Z)
    (sv' : server) (rep : reply) :
  handleMove sv a m now = (sv', rep) ->
  (forall b, b <> a -> AList.get b (activeChallenges sv') = AList.get b (activeChallenges sv)) /\
  (forall k, truthy_str (msg_matchId m) <> Some k ->
     AList.get k (activeMatches sv') = AList.get k (activeMatches sv)).
Proof.
  intros H. unfold handleMove in H.
  repeat match type of H with
  | context [match ?x with Some _ => _ | None => _ end] => destruct x eqn:?
  | context [if ?b then _ else _] => destruct b eqn:?
  | context [match ?n with Pow.NonceInt _ => _ | Pow.NonceNonInteger => _
                         | Pow.NonceNotNumber => _ end] => destruct n eqn:?
  | context [match ?p with (_, _) => _ end] => destruct p eqn:?
  | context [match ?r with MoveErr _ => _ | MoveOk _ _ _ _ => _ | MoveCrash => _ end] =>
      destruct r eqn:?
  | context [match ?st with Active => _ | Complete => _ end] => destruct st eqn:?
  end;
  injection H as <- _; cbn [set_matches set_challenges activeMatches activeChallenges];
  split; intros k Hk;
  repeat first [ rewrite AListFacts.get_del_other by congruence
               | rewrite AListFacts.get_set_other by congruence ];
  reflexivity.
Qed.

Lemma handleMove_frame_witness :
  let res := handleMove sv0 "A" (moveMsg longMono (Pow.NonceInt 0)) 1500 in
  handleMove sv0 "A" (moveMsg longMono (Pow.NonceInt 0)) 1500 = (fst res, snd res) /\
  (forall b, b <> "A" -> AList.get b (activeChallenges (fst res)) = AList.get b (activeChallenges sv0)) /\
  (forall k, truthy_str (msg_matchId (moveMsg longMono (Pow.NonceInt 0))) <> Some k ->
     AList.get k (activeMatches (fst res)) = AList.get k (activeMatches sv0)).
Proof.
  intros res.
  assert (H : handleMove sv0 "A" (moveMsg longMono (Pow.NonceInt 0)) 1500 = (fst res, snd res))
    by reflexivity.
  split; [exact H|].
  exact (handleMove_frame sv0 "A" (moveMsg longMono (Pow.NonceInt 0)) 1500 (fst res) (snd res) H).
Defined.

End Timeouts.

(** ** Turn timeouts of the asynchronous matchmaker *)

Module V2Timeouts.

Import Engine Aux MatchmakerV2.

Lemma players_inv_reach s t p1 p2 :
  p1 <> p2 -> reachable s t ->
  AList.keys (players s) = [p1; p2] ->
  Forall (fun kp : string * player => pid (snd kp) = fst kp) (players s) ->
  In (currentPlayer s) [p1; p2] ->
  AList.keys (players t) = [p1; p2] /\
  Forall (fun kp : string * player => pid (snd kp) = fst kp) (players t) /\
  In (currentPlayer t) [p1; p2].
Proof.
  intros Hne Hr Hk0 HF0 Hc0. induction Hr as [|t a c now r t' _ IH Hp]; [tauto|].
  destruct IH as [Hk [HF Hc]].
  destruct (Board.processMove_keys _ _ _ _ _ _ Hp) as [_ Hk'].
  pose proof (MatchFlow.processMove_pids _ _ _ _ _ _ HF Hp) as HF'.
  split; [congruence|]. split; [exact HF'|].
  destruct r as [e|r u v pub|].
  - rewrite (Turns.processMove_err _ _ _ _ _ _ Hp). exact Hc.
  - destruct (Turns.processMove_next _ _ _ _ _ _ _ _ _ _ _ Hk Hne Hp)
      as [[_ [-> _]]|[_ [-> _]]]; [right; left|left]; reflexivity.
  - exfalso. apply (Robust.processMove_no_crash t a c now p1 p2 Hk Hne HF Hc).
    rewrite Hp. reflexivity.
Qed.

Lemma createAsyncMatch_players mid popAt coin ag1 ag2 :
  a_id ag1 <> a_id ag2 ->
  let s := createAsyncMatch mid popAt coin ag1 ag2 in
  AList.keys (players s) = [a_id ag1; a_id ag2] /\
  Forall (fun kp : string * player => pid (snd kp) = fst kp) (players s) /\
  In (currentPlayer s) [a_id ag1; a_id ag2].
Proof.
  intros Hne s. destruct (Robust.initMatch_players mid popAt _ _ Hne) as [Hk [HF _]].
  split; [exact Hk|]. split; [exact HF|].
  unfold s, createAsyncMatch. cbn [currentPlayer set_turnptr].
  destruct coin; [left|right; left]; reflexivity.
Qed.

Lemma other_find (x y b c : string) :
  x <> y -> In b [x; y] -> In c [x; y] -> b <> c ->
  find (fun id => negb (String.eqb id b)) [x; y] = Some c.
Proof.
  intros Hxy Hb Hc Hbc. cbn [find].
  destruct Hb as [<-|[<-|[]]]; destruct Hc as [<-|[<-|[]]]; try congruence;
    rewrite String.eqb_refl; cbn [negb];
    rewrite (proj2 (String.eqb_neq _ _)) by congruence; reflexivity.
Qed.

(** X20.  In a match created by [createAsyncMatch] between two distinct agents,
    a timeout never throws.  When the update of the row fails it returns
    without writing anything, notifying anyone or calling [onTurnTimeout].
    When the update succeeds it rewrites the row: the stored state is the
    one after the forced pass, and the row's turn pointer (and the agent
    notified) is the game's current player while the match goes on, or
    null once it is complete.  This holds whichever of the two agents the
    row named, even one whose turn it was not. *)
Theorem handleTimeout_in_sync (m : matchRow) (nt : option Z) (now : Z) (gs : state)
    (mid : string) (popAt : Z -> Z -> Z) (coin : bool) (ag1 ag2 : agentRow) (b : string) :
  a_id ag1 <> a_id ag2 ->
  reachable (createAsyncMatch mid popAt coin ag1 ag2) gs ->
  player_1 m = a_id ag1 -> player_2 m = a_id ag2 ->
  game_state m = Some gs -> status gs = Active ->
  current_turn_agent_id m = Some b -> In b [a_id ag1; a_id ag2] ->
  handleTimeout m nt now false = TUpdateFailed /\
  exists m' n, handleTimeout m nt now true = TUpdated m' n /\
    game_state m' = Some (snd (processMove gs b Server.SKIP now)) /\
    turn_number m' = turn (snd (processMove gs b Server.SKIP now)) /\
    mr_status m' = status (snd (processMove gs b Server.SKIP now)) /\
    ((status (snd (processMove gs b Server.SKIP now)) = Active /\
      current_turn_agent_id m' = Some (currentPlayer (snd (processMove gs b Server.SKIP now))) /\
      n = Some (currentPlayer (snd (processMove gs b Server.SKIP now)))) \/
     (status (snd (processMove gs b Server.SKIP now)) = Complete /\
      current_turn_agent_id m' = None /\ n = None)).
Proof.
  intros Hne Hr H1 H2 Hg Hst Hb Hbin.
  destruct (createAsyncMatch_players mid popAt coin ag1 ag2 Hne) as [Hk0 [HF0 Hc0]].
  destruct (players_inv_reach _ _ _ _ Hne Hr Hk0 HF0 Hc0) as [Hk [HF Hc]].
  pose proof (Robust.processMove_no_crash gs b Server.SKIP now _ _ Hk Hne HF Hc) as Hnc.
  unfold handleTimeout. rewrite Hg, Hst, Hb, H1, H2.
  destruct (processMove gs b Server.SKIP now) as [res gs'] eqn:Hm. cbn [fst snd] in *.
  split; [destruct res; [reflexivity|reflexivity|congruence]|].
  assert (Hnext : status gs' = Active ->
                  find (fun id => negb (String.eqb id b)) [a_id ag1; a_id ag2]
                  = Some (currentPlayer gs')).
  { intros Hst'. destruct res as [e|r u v pub|]; [| |congruence].
    - rewrite (Turns.processMove_err _ _ _ _ _ _ Hm).
      apply other_find; [exact Hne|exact Hbin|exact Hc|].
      intros E. subst b. exact (Timeouts.skip_not_refused _ _ _ _ _ eq_refl Hst Hm).
    - destruct (Turns.processMove_next _ _ _ _ _ _ _ _ _ _ _ Hk Hne Hm)
        as [[-> [-> _]]|[-> [-> _]]];
        (apply other_find; [exact Hne|cbn; tauto|cbn; tauto|congruence]). }
  destruct res as [e|r u v pub|]; [| |congruence];
    (destruct (status gs') eqn:Hst';
     [ rewrite (Hnext eq_refl); do 2 eexists; split; [reflexivity|];
       split; [reflexivity|]; split; [reflexivity|]; split; [reflexivity|];
       left; split; [reflexivity|]; split; reflexivity
     | do 2 eexists; split; [reflexivity|];
       split; [reflexivity|]; split; [reflexivity|]; split; [reflexivity|];
       right; split; [reflexivity|]; split; reflexivity ]).
Qed.

Lemma handleTimeout_in_sync_witness :
  let m := {| mr_id := "m"; game_state := Some v2BFirst; current_turn_agent_id := Some "A";
              player_1 := "A"; player_2 := "B"; turn_deadline := Some 0; turn_number := 0;
              mr_status := Active; mr_winner := None; ended_at := None |} in
  handleTimeout m None 5000 false = TUpdateFailed /\
  exists m' n, handleTimeout m None 5000 true = TUpdated m' n /\
    game_state m' = Some (snd (processMove v2BFirst "A" Server.SKIP 5000)) /\
    turn_number m' = turn (snd (processMove v2BFirst "A" Server.SKIP 5000)) /\
    mr_status m' = status (snd (processMove v2BFirst "A" Server.SKIP 5000)) /\
    ((status (snd (processMove v2BFirst "A" Server.SKIP 5000)) = Active /\
      current_turn_agent_id m' = Some (currentPlayer (snd (processMove v2BFirst "A" Server.SKIP 5000))) /\
      n = Some (currentPlayer (snd (processMove v2BFirst "A" Server.SKIP 5000)))) \/
     (status (snd (processMove v2BFirst "A" Server.SKIP 5000)) = Complete /\
      current_turn_agent_id m' = None /\ n = None)).
Proof.
  intros m.
  assert (Hne : a_id agentA <> a_id agentB) by discriminate.
  assert (Hin : In "A" [a_id agentA; a_id agentB]) by (left; reflexivity).
  exact (handleTimeout_in_sync m None 5000 v2BFirst "m" pop8 false agentA agentB "A"
           Hne (reach_refl _) eq_refl eq_refl eq_refl eq_refl eq_refl Hin).
Defined.

End V2Timeouts.

(** ** The WebSocket lobby *)

Module LobbyFacts.

Import Engine Server Lobby.

(** X21.  With at most one agent waiting (as the lobby always leaves it),
    [handleMatchQueue] never throws and again leaves at most one agent
    waiting.  Either no match starts (the agent was already queued, or
    now waits), or the waiting agent [p], who differs from the newcomer,
    is paired with it: the match [initMatch mid popAt p a] is stored, [p]
    holds a challenge for it, and no other agent's challenge changes. *)
Theorem handleMatchQueue_pairs (lb : lobby) (a mid : string) (popAt : Z -> Z -> Z) (now : Z) :
  (length (matchQueue lb) <= 1)%nat ->
  exists lb', handleMatchQueue lb a mid popAt now = Some lb' /\
    (length (matchQueue lb') <= 1)%nat /\
    ((srv lb' = srv lb /\ (matchQueue lb' = matchQueue lb \/ matchQueue lb' = app (matchQueue lb) [a])) \/
     (exists p, matchQueue lb = [p] /\ p <> a /\ matchQueue lb' = [] /\
        activeMatches (srv lb') = AList.set mid (initMatch mid popAt p a) (activeMatches (srv lb)) /\
        (exists ch, AList.get p (activeChallenges (srv lb')) = Some ch /\ ac_matchId ch = mid) /\
        forall b, b <> p ->
          AList.get b (activeChallenges (srv lb')) = AList.get b (activeChallenges (srv lb)))).
Proof.
  intros Hlen. unfold handleMatchQueue.
  destruct (matchQueue lb) as [|p [|q r]] eqn:Hq; cbn [length] in Hlen; [| |lia].
  - cbn [existsb app length Nat.leb]. eexists. split; [reflexivity|].
    cbn [matchQueue srv length]. split; [lia|]. left. split; [reflexivity|right; reflexivity].
  - cbn [existsb]. rewrite Bool.orb_false_r.
    destruct (String.eqb a p) eqn:E.
    + eexists. split; [reflexivity|]. rewrite Hq. cbn [length]. split; [lia|].
      left. split; [reflexivity|left; reflexivity].
    + cbn [app length Nat.leb startMatch matchQueue]. eexists. split; [reflexivity|].
      cbn [matchQueue srv length]. split; [lia|]. right. exists p.
      split; [reflexivity|]. split; [intros ->; rewrite String.eqb_refl in E; discriminate|].
      split; [reflexivity|].
      cbn [startTurnTimer set_challenges set_matches activeMatches activeChallenges initMatch currentPlayer].
      split; [reflexivity|]. split.
      * eexists. rewrite AListFacts.get_set_same. split; reflexivity.
      * intros b Hb. rewrite !AListFacts.get_set_other by congruence. reflexivity.
Qed.

Lemma handleMatchQueue_pairs_witness :
  let lb := {| matchQueue := ["A"]; srv := {| activeMatches := []; activeChallenges := [] |} |} in
  (length (matchQueue lb) <= 1)%nat /\
  exists lb', handleMatchQueue lb "B" "m" Aux.pop8 1000 = Some lb' /\
    (length (matchQueue lb') <= 1)%nat /\
    ((srv lb' = srv lb /\ (matchQueue lb' = matchQueue lb \/ matchQueue lb' = app (matchQueue lb) ["B"])) \/
     (exists p, matchQueue lb = [p] /\ p <> "B" /\ matchQueue lb' = [] /\
        activeMatches (srv lb') = AList.set "m" (initMatch "m" Aux.pop8 p "B") (activeMatches (srv lb)) /\
        (exists ch, AList.get p (activeChallenges (srv lb')) = Some ch /\ ac_matchId ch = "m") /\
        forall b, b <> p ->
          AList.get b (activeChallenges (srv lb')) = AList.get b (activeChallenges (srv lb)))).
Proof.
  intros lb. assert (H : (length (matchQueue lb) <= 1)%nat) by (cbn; lia).
  split; [exact H|]. exact (handleMatchQueue_pairs lb "B" "m" Aux.pop8 1000 H).
Defined.

End LobbyFacts.
